(** * CBR phone recommendation front end: embedding and properties

    A shallow embedding of the React front end of the case-based phone
    recommender: the helpers of [utils/helpers.js] ([validateWeights],
    [parseCameraResolution]), the [saveWeights] handler of the Admin page,
    the highlight badges of [PhoneCard], the sorting of the Results page
    and the static evaluation data of the Evaluation page.

    JavaScript numbers that carry weights, prices and scores are modelled
    by the rationals they denote ([Q]): every finite double is a
    rational.  Where the code computes with them (the sum of the weights,
    the distance of the total from 100, the percentage of the progress
    bar) or converts a digit string to a number ([parseInt]), the
    rounding of each result to a double is written out ([Double.round]).
    Objects used as dictionaries are association lists in insertion
    order, which is the order of [Object.values]. *)

From stdpp Require Import base list strings gmap pretty.
From Stdlib Require Import Ascii ZArith QArith Qabs Qround Qpower Lia Lqa Sorting.Sorted.

Local Open Scope Z_scope.

(* ===================================================================== *)
(** * Part I: the embedding                                               *)
(* ===================================================================== *)

(** ** JavaScript values used by the helpers *)

Module JS.

(** A Number: NaN, an infinity, or a finite value (both zeros are the
    rational 0; the code never distinguishes them). *)
Inductive number : Type :=
| NaN
| Inf (negative : bool)
| Fin (q : Q).

(** The values [parseCameraResolution] is called with. *)
Inductive value : Type :=
| Null
| Undefined
| Num (n : number)
| Str (s : string).

Definition of_Z (n : Z) : number := Fin (inject_Z n).

(** ToBoolean on numbers and strings: 0, NaN and the empty string are
    falsy. *)
Definition number_truthy (n : number) : bool :=
  match n with
  | NaN => false
  | Inf _ => true
  | Fin q => negb (Qeq_bool q 0)
  end.

Definition truthy (v : value) : bool :=
  match v with
  | Null | Undefined => false
  | Num n => number_truthy n
  | Str s => negb (String.eqb s "")
  end.

(** [Array.prototype.slice(start, end)] on a list: negative indices
    count from the end, both are clamped to the length. *)
Definition relative_index (k len : Z) : Z :=
  if k <? 0 then Z.max (len + k) 0 else Z.min k len.

Definition slice {A} (start stop : Z) (l : list A) : list A :=
  let len := Z.of_nat (length l) in
  let k := relative_index start len in
  let final := relative_index stop len in
  take (Z.to_nat (Z.max (final - k) 0)) (drop (Z.to_nat k) l).

(** [Number.prototype.toFixed(1)] on a finite value below 10^21: the
    nearest multiple of 1/10, the larger one on a tie of the magnitude,
    printed with one fractional digit and the sign of the argument. *)
Definition toFixed1 (x : Q) : string :=
  let n := Qfloor (Qabs x * 10 + (1 # 2))%Q in
  ((if Qlt_le_dec x 0 then "-" else "") +:+
   pretty (n / 10) +:+ "." +:+ pretty (n mod 10))%string.

(** *** Strings, the pattern [/(\d+)/] and [parseInt] *)

Definition code (c : ascii) : Z := Z.of_N (N_of_ascii c).

(** [\d] without the unicode flag: the ASCII digits only. *)
Definition is_digit (c : ascii) : bool := (48 <=? code c) && (code c <=? 57).

Definition digit_value (c : ascii) : Z := code c - 48.

(** The longest prefix of digits ([\d*], greedy). *)
Fixpoint digit_prefix (s : string) : string :=
  match s with
  | EmptyString => EmptyString
  | String c rest => if is_digit c then String c (digit_prefix rest) else EmptyString
  end.

(** [s.match(/(\d+)/)]: the leftmost position where the pattern
    matches, and there the longest match; the result is capture group
    1, [None] when the match is [null]. *)
Fixpoint match_digits (s : string) : option string :=
  match s with
  | EmptyString => None
  | String c rest => if is_digit c then Some (digit_prefix s) else match_digits rest
  end.

Fixpoint all_digits (s : string) : bool :=
  match s with
  | EmptyString => true
  | String c rest => is_digit c && all_digits rest
  end.

Fixpoint no_digit (s : string) : bool :=
  match s with
  | EmptyString => true
  | String c rest => negb (is_digit c) && no_digit rest
  end.

Definition starts_with_digit (s : string) : bool :=
  match s with
  | EmptyString => false
  | String c _ => is_digit c
  end.

(** The mathematical value of a string of decimal digits. *)
Fixpoint decimal_value_from (acc : Z) (s : string) : Z :=
  match s with
  | EmptyString => acc
  | String c rest => decimal_value_from (10 * acc + digit_value c) rest
  end.

Definition decimal_value (s : string) : Z := decimal_value_from 0 s.

(** The Number for a non-negative integer: the nearest double, ties to
    the even significand, and [Infinity] from 2^1024 on.  Integers below
    2^53 are represented exactly. *)
Definition round_to_double (n : Z) : number :=
  if n <? 2 ^ 53 then of_Z n
  else
    let e := Z.log2 n - 52 in
    let q := n / 2 ^ e in
    let r := n mod 2 ^ e in
    let half := 2 ^ (e - 1) in
    let q' := if r <? half then q
              else if half <? r then q + 1
              else if Z.even q then q else q + 1 in
    if 2 ^ 1024 <=? q' * 2 ^ e then Inf false else of_Z (q' * 2 ^ e).

Definition negate (n : number) : number :=
  match n with
  | NaN => NaN
  | Inf s => Inf (negb s)
  | Fin q => Fin (- q)
  end.

(** White space that [parseInt] skips, as far as one byte can be it. *)
Definition is_whitespace (c : ascii) : bool :=
  ((9 <=? code c) && (code c <=? 13)) || (code c =? 32).

Fixpoint trim_start (s : string) : string :=
  match s with
  | EmptyString => EmptyString
  | String c rest => if is_whitespace c then trim_start rest else s
  end.

(** [parseInt(s, 10)]: skip white space, read a sign, take the longest
    prefix of digits; [NaN] when there is none. *)
Definition parseInt10 (s : string) : number :=
  let s := trim_start s in
  let '(negative, s) :=
    match s with
    | String "-" rest => (true, rest)
    | String "+" rest => (false, rest)
    | _ => (false, s)
    end in
  match digit_prefix s with
  | EmptyString => NaN
  | digits =>
      let m := round_to_double (decimal_value digits) in
      if negative then negate m else m
  end.

End JS.

(** ** Arithmetic on Numbers: IEEE 754 double precision *)

Module Double.
Local Open Scope Q_scope.

Definition pow2 (e : Z) : Q := 2 ^ e.

(** The binade of a positive rational [a]: the [e] with
    2^e <= a < 2^(e+1). *)
Definition exponent (a : Q) : Z :=
  let e := (Z.log2 (Qnum a) - Z.log2 (Zpos (Qden a)))%Z in
  if Qle_bool (pow2 e) a then e else (e - 1)%Z.

(** The nearest integer, the even one of two that are equally near. *)
Definition nearest_even (x : Q) : Z :=
  let f := Qfloor x in
  match Qcompare (x - inject_Z f) (1 # 2) with
  | Lt => f
  | Gt => (f + 1)%Z
  | Eq => if Z.even f then f else (f + 1)%Z
  end.

(** The exponent of the unit in the last place: 52 below the binade,
    and 2^-1074 throughout the subnormal range. *)
Definition ulp_exponent (a : Q) : Z := (Z.max (exponent a) (-1022) - 52)%Z.

Definition round_magnitude (a : Q) : Q :=
  let ulp := pow2 (ulp_exponent a) in
  inject_Z (nearest_even (a / ulp)) * ulp.

(** The Number for a real result: the nearest double, ties to the even
    significand, an infinity when the rounded magnitude reaches
    2^1024. *)
Definition round (q : Q) : JS.number :=
  if Qeq_bool q 0 then JS.Fin 0
  else
    let r := round_magnitude (Qabs q) in
    if Qle_bool (pow2 1024) r then JS.Inf (negb (Qle_bool 0 q))
    else JS.Fin (Qred (if Qle_bool 0 q then r else - r)).

(** The value of a decimal literal of the source: the nearest double. *)
Definition literal (q : Q) : Q :=
  match round q with
  | JS.Fin r => r
  | _ => q
  end.

(** Comparisons with a finite constant; all are false on NaN. *)
Definition le (x : JS.number) (c : Q) : bool :=
  match x with
  | JS.NaN => false
  | JS.Inf negative => negative
  | JS.Fin q => Qle_bool q c
  end.

Definition ge (x : JS.number) (c : Q) : bool :=
  match x with
  | JS.NaN => false
  | JS.Inf negative => negb negative
  | JS.Fin q => Qle_bool c q
  end.

Definition lt (x : JS.number) (c : Q) : bool :=
  match x with
  | JS.NaN => false
  | JS.Inf negative => negative
  | JS.Fin q => negb (Qle_bool c q)
  end.

(** [x + y] *)
Definition add (x y : JS.number) : JS.number :=
  match x, y with
  | JS.NaN, _ | _, JS.NaN => JS.NaN
  | JS.Inf s, JS.Inf t => if Bool.eqb s t then JS.Inf s else JS.NaN
  | JS.Inf s, JS.Fin _ | JS.Fin _, JS.Inf s => JS.Inf s
  | JS.Fin a, JS.Fin b => round (a + b)
  end.

(** [x - y] *)
Definition sub (x y : JS.number) : JS.number :=
  match x, y with
  | JS.NaN, _ | _, JS.NaN => JS.NaN
  | JS.Inf s, JS.Inf t => if Bool.eqb s t then JS.NaN else JS.Inf s
  | JS.Inf s, JS.Fin _ => JS.Inf s
  | JS.Fin _, JS.Inf s => JS.Inf (negb s)
  | JS.Fin a, JS.Fin b => round (a - b)
  end.

(** [Math.abs(x)] *)
Definition abs (x : JS.number) : JS.number :=
  match x with
  | JS.NaN => JS.NaN
  | JS.Inf _ => JS.Inf false
  | JS.Fin q => JS.Fin (Qabs q)
  end.

(** [x.toFixed(1)]; the exponent form of a value from 10^21 on is not
    written out. *)
Definition toFixed1 (x : JS.number) : string :=
  match x with
  | JS.NaN => "NaN"
  | JS.Inf negative => if negative then "-Infinity" else "Infinity"
  | JS.Fin q => JS.toFixed1 q
  end.

(** The finite doubles: a significand below 2^53 at an exponent from
    -1074 to 971. *)
Definition representable (q : Q) : Prop :=
  exists m e : Z,
    (Z.abs m < 2 ^ 53)%Z /\ (-1074 <= e <= 971)%Z /\ q == inject_Z m * pow2 e.

(** The sum of rationals, without rounding. *)
Definition exact_sum (vals : list Q) : Q := foldr Qplus 0 vals.

(** The sum of the magnitudes. *)
Definition sum_abs (vals : list Q) : Q := exact_sum (Qabs <$> vals).

(** A multiple of 2^-p. *)
Definition on_grid (p : Z) (v : Q) : Prop :=
  exists n : Z, v == inject_Z n * pow2 (- p).

End Double.

(** ** utils/helpers.js *)

Module Helpers.

(** A weights object: attribute name to percentage, in insertion
    order.  A percentage is a finite Number, given by the rational it
    denotes. *)
Definition Weights : Type := list (string * Q).

Definition Object_values (w : Weights) : list Q := map snd w.

Record Validation : Type := {
  isValid : bool;
  total : JS.number;
  hasZero : bool;
  message : string;
}.

(** [reduce((sum, val) => sum + val, 0)]: the values are added from
    left to right, each sum rounded to a double. *)
Definition sum_values (vals : list Q) : JS.number :=
  fold_left (fun sum val => Double.add sum (JS.Fin val)) vals (JS.Fin 0).

Definition validateWeights (weights : Weights) : Validation :=
  let total := sum_values (Object_values weights) in
  let isValid := Double.ge total 99 && Double.le total 101 in
  let hasZero := existsb (fun val => Qeq_bool val 0) (Object_values weights) in
  {| isValid := isValid && negb hasZero;
     total := total;
     hasZero := hasZero;
     message :=
       if negb isValid
       then ("Total bobot harus 100% (saat ini: " +:+ Double.toFixed1 total +:+ "%)")%string
       else if hasZero
            then "Tidak boleh ada bobot bernilai 0"%string
            else "Valid"%string |}.

Section ParseCameraResolution.

(** [Number.prototype.toString] is left open: the results below hold
    for any rendering of numbers as strings. *)
Variable Number_toString : JS.number -> string.

(** [resolution.toString()]; [None] is the TypeError of a call on
    [null] or [undefined]. *)
Definition toString (resolution : JS.value) : option string :=
  match resolution with
  | JS.Null | JS.Undefined => None
  | JS.Num n => Some (Number_toString n)
  | JS.Str s => Some s
  end.

(** The result is [None] when the call throws. *)
Definition parseCameraResolution (resolution : JS.value) : option JS.number :=
  if negb (JS.truthy resolution) then Some (JS.of_Z 0)
  else
    str ← toString resolution;
    Some (match JS.match_digits str with
          | Some group1 => JS.parseInt10 group1
          | None => JS.of_Z 0
          end).

End ParseCameraResolution.

End Helpers.

(** ** The Admin page (pages/Results.jsx, second document): the weight
    settings *)

Module Admin.
Import Helpers.

(** The component state touched by [saveWeights]. *)
Record State : Type := {
  weights : Weights;
  originalWeights : Weights;
  saving : bool;
}.

(** What the handler does to the outside: toasts, and the PUT of
    [adminAPI.updateWeights] to [/admin/weights]. *)
Inductive Effect : Type :=
| ToastError (msg : string)
| ToastSuccess (msg : string)
| UpdateWeights (w : Weights).

Record World : Type := { state : State; trace : list Effect }.

Inductive Outcome (A : Type) : Type :=
| Returned (a : A)
| Thrown.
Arguments Returned {A} a.
Arguments Thrown {A}.

(** Computations over the component state and the effect trace that
    may end in a rejected promise. *)
Definition M (A : Type) : Type := World -> Outcome A * World.

#[export] Instance M_ret : MRet M := fun A a w => (Returned a, w).

#[export] Instance M_bind : MBind M := fun A B k m w =>
  match m w with
  | (Returned a, w') => k a w'
  | (Thrown, w') => (Thrown, w')
  end.

Definition emit (e : Effect) : M unit :=
  fun w => (Returned tt, {| state := state w; trace := trace w ++ [e] |}).

Definition getWeights : M Weights := fun w => (Returned (weights (state w)), w).

Definition setSaving (b : bool) : M unit :=
  fun w =>
    (Returned tt,
     {| state := {| weights := weights (state w);
                    originalWeights := originalWeights (state w);
                    saving := b |};
        trace := trace w |}).

Definition setOriginalWeights (ws : Weights) : M unit :=
  fun w =>
    (Returned tt,
     {| state := {| weights := weights (state w);
                    originalWeights := ws;
                    saving := saving (state w) |};
        trace := trace w |}).

(** The awaited promise resolves, or rejects and the [await] throws. *)
Definition settle (resolved : bool) : M unit :=
  fun w => (if resolved then Returned tt else Thrown, w).

(** [try { body } catch (error) { handler } finally { finalizer }] *)
Definition try_catch_finally (body handler finalizer : M unit) : M unit :=
  fun w =>
    match body w with
    | (Returned tt, w1) => finalizer w1
    | (Thrown, w1) =>
        match handler w1 with
        | (Returned tt, w2) => finalizer w2
        | (Thrown, w2) => (Thrown, snd (finalizer w2))
        end
    end.

Section Server.

(** Whether the server accepts the PUT (the promise resolves) or the
    request fails (it rejects). *)
Variable server_accepts : Weights -> bool.

Definition adminAPI_updateWeights (ws : Weights) : M unit :=
  emit (UpdateWeights ws) ;;
  settle (server_accepts ws).

Definition saveWeights : M unit :=
  weights ← getWeights;
  let validation := validateWeights weights in
  if negb (isValid validation)
  then emit (ToastError (message validation))
  else
    try_catch_finally
      (setSaving true ;;
       adminAPI_updateWeights weights ;;
       setOriginalWeights weights ;;
       emit (ToastSuccess "Bobot berhasil disimpan"))
      (emit (ToastError "Gagal menyimpan bobot"))
      (setSaving false).

End Server.

Definition sent (e : Effect) : bool :=
  match e with UpdateWeights _ => true | _ => false end.

(** The requests sent for persistence along a trace. *)
Definition requests (t : list Effect) : list Effect := filter sent t.

End Admin.

(** ** components/PhoneCard (unnamed/part_000): the highlight badges *)

Module PhoneCard.

(** The [highlights] prop as the caller passes it. *)
Inductive HighlightsProp : Type :=
| Omitted
| IsNull
| Given (highlights : list string).

(** One [<span key={idx}>{highlight}</span>]. *)
Record Badge : Type := { key : nat; text : string }.

(** The default [highlights = []] applies to an omitted prop only. *)
Definition highlights_of (p : HighlightsProp) : option (list string) :=
  match p with
  | Omitted => Some []
  | IsNull => None
  | Given hs => Some hs
  end.

(** [highlights && highlights.length > 0 && (... highlights.slice(0, 3)
    .map((highlight, idx) => ...))]: [None] when the block is not
    rendered. *)
Definition render_highlights (p : HighlightsProp) : option (list Badge) :=
  match highlights_of p with
  | None => None
  | Some highlights =>
      if 0 <? Z.of_nat (length highlights)
      then Some (imap (fun idx highlight => {| key := idx; text := highlight |})
                      (JS.slice 0 3 highlights))
      else None
  end.

(** The explanation strings on display. *)
Definition shown (p : HighlightsProp) : list string :=
  match render_highlights p with
  | Some badges => text <$> badges
  | None => []
  end.

End PhoneCard.

(** ** pages/Results.jsx: sorting the recommendations *)

Module Results.

(** The fields of a phone the comparators read; [None] is a missing
    field ([undefined]). *)
Record Phone : Type := {
  Harga : option Q;
  harga : option Q;
  Rating_pengguna : option Q;
  rating_pengguna : option Q;
}.

Record Recommendation : Type := {
  phone : Phone;
  similarity_score : Q;
  rank : Z;
  match_highlights : list string;
}.

(** [a || b] on numbers that may be missing: [a] when it is truthy. *)
Definition or_else (a b : option Q) : option Q :=
  match a with
  | Some x => if Qeq_bool x 0 then b else a
  | None => b
  end.

(** [a - b]; [None] is the NaN of a missing operand.  The sort reads
    the difference by its sign, which is that of the difference of the
    two rationals. *)
Definition minus (a b : option Q) : option Q :=
  match a, b with
  | Some x, Some y => Some (x - y)%Q
  | _, _ => None
  end.

Definition price (r : Recommendation) : option Q :=
  or_else (Harga (phone r)) (harga (phone r)).

Definition rating (r : Recommendation) : option Q :=
  or_else (or_else (Rating_pengguna (phone r)) (rating_pengguna (phone r))) (Some 0%Q).

(** The comparator passed to [sort], by the value of [sortBy]. *)
Definition compare (sortBy : string) (a b : Recommendation) : option Q :=
  if String.eqb sortBy "price_asc" then minus (price a) (price b)
  else if String.eqb sortBy "price_desc" then minus (price b) (price a)
  else if String.eqb sortBy "rating" then minus (rating b) (rating a)
  else Some (similarity_score b - similarity_score a)%Q.

(** [Array.prototype.sort] reads the comparator's answer by its sign,
    and a NaN as +0: [a] goes after [b] only when the answer is
    positive. *)
Definition after {A} (comparefn : A -> A -> option Q) (a b : A) : bool :=
  match comparefn a b with
  | Some v => negb (Qle_bool v 0)
  | None => false
  end.

(** The sort is stable: an element is put behind those it must follow
    and before the first one it need not. *)
Fixpoint insert_sorted {A} (comparefn : A -> A -> option Q) (x : A) (l : list A) : list A :=
  match l with
  | [] => [x]
  | y :: rest =>
      if after comparefn x y then y :: insert_sorted comparefn x rest
      else x :: l
  end.

Definition sort {A} (comparefn : A -> A -> option Q) (l : list A) : list A :=
  foldr (insert_sorted comparefn) [] l.

(** Arrays live in a store and are passed by reference. *)
Definition loc : Type := nat.
Abbreviation Store := (gmap loc (list Recommendation)).

(** [[...array]]: a fresh array with the same elements. *)
Definition spread (array : loc) (h : Store) : option (loc * Store) :=
  elements ← h !! array;
  let copy := fresh (dom h) in
  Some (copy, <[copy := elements]> h).

(** [array.sort(comparefn)] sorts in place and returns [array]. *)
Definition Array_sort (comparefn : Recommendation -> Recommendation -> option Q)
    (array : loc) (h : Store) : option (loc * Store) :=
  elements ← h !! array;
  Some (array, <[array := sort comparefn elements]> h).

(** [[...recommendations].sort((a, b) => ...)] *)
Definition sortedRecommendations (sortBy : string) (recommendations : loc)
    (h : Store) : option (loc * Store) :=
  '(copy, h1) ← spread recommendations h;
  Array_sort (compare sortBy) copy h1.

End Results.

(** ** Sample data *)

Module Samples.
Import Helpers Results.
Local Open Scope Q_scope.

(** The weights shown on the home page (total 100%). *)
Definition home_page_weights : Weights :=
  [("Harga", 25); ("RAM", 15); ("Storage", 10); ("Baterai", 15);
   ("Kamera", 15); ("Layar", 5); ("Rating", 15)]%string.

(** Five weights whose decimal forms 21, 24.2, 16, 23.6 and 16.2 add up
    to 101. *)
Definition decimal_weights : Weights :=
  [("Harga", 21); ("RAM", Double.literal (242 # 10)); ("Storage", 16);
   ("Baterai", Double.literal (236 # 10)); ("Kamera", Double.literal (162 # 10))]%string.

(** A negative weight made up for by one above 100. *)
Definition out_of_range_weights : Weights :=
  [("Harga", -50); ("RAM", 150)]%string.

Definition sample_phone (price rating : Q) : Phone :=
  {| Harga := Some price; harga := None;
     Rating_pengguna := Some rating; rating_pengguna := None |}.

Definition sample (price rating score : Q) (rank : Z) : Recommendation :=
  {| phone := sample_phone price rating; similarity_score := score;
     rank := rank; match_highlights := [] |}.

Definition sample_recommendations : list Recommendation :=
  [ sample 6499000 (45 # 10) (5 # 10) 3;
    sample 9000000 (40 # 10) (9 # 10) 1;
    sample 3200000 (42 # 10) (7 # 10) 2 ].

(** [a] is listed no later than [b]: its score is at least as high. *)
Definition by_similarity (a b : Recommendation) : Prop :=
  (similarity_score b <= similarity_score a)%Q.

End Samples.

(** ** The Evaluation page (unnamed/part_002): the evaluation results *)

Module Evaluation.

Record Metrics : Type := {
  accuracy : Q;
  precision : Q;
  recall : Q;
  f1_score : Q;
}.

Definition Matrix : Type := list (list Z).

(** The parts of a scenario the page reads with [?.] or [||] may be
    missing ([None]) in what the server sends. *)
Record ConfusionMatrix : Type := {
  matrix : option Matrix;
  labels : list string;
  tp : Z;
  tn : Z;
  fp : Z;
  fn : Z;
}.

Record Scenario : Type := {
  name : string;
  train_size : Z;
  test_size : Z;
  metrics : option Metrics;
  confusion_matrix : option ConfusionMatrix;
}.

(** The results on display; of these the page reads
    [results?.scenarios?.[0]] only, for which missing [scenarios] are
    the same as none ([[]]). *)
Record EvaluationResults : Type := {
  success : bool;
  best_scenario : string;
  scenarios : list Scenario;
}.

(** The matrix literal, written three times in the page. *)
Definition MATRIX : Matrix := [[24; 8; 9]; [7; 122; 17]; [1; 30; 82]].

Definition CONFUSION_MATRIX : ConfusionMatrix :=
  {| matrix := Some MATRIX;
     labels := ["Gaming"; "Photographer"; "Daily"]%string;
     tp := 228; tn := 0; fp := 72; fn := 0 |}.

Definition DEFAULT_RESULTS : EvaluationResults :=
  {| success := true;
     best_scenario := "70-30";
     scenarios :=
       [ {| name := "70-30";
            train_size := 700;
            test_size := 300;
            metrics := Some {| accuracy := 76; precision := 7596 # 100;
                               recall := 76; f1_score := 7574 # 100 |};
            confusion_matrix := Some CONFUSION_MATRIX |} ] |}.

(** One entry of [data.results]; its [metrics] may be missing. *)
Record Result : Type := {
  scenario : string;
  result_metrics : option Metrics;
}.

(** The body of the reply to GET /evaluation/results; [results] may be
    missing. *)
Record Reply : Type := { results : option (list Result) }.

(** How the awaited [evaluationAPI.getResults()] settles; a reply
    without a body makes [data.results] throw, which the [catch] treats
    as a rejection. *)
Inductive Settled : Type :=
| Resolved (data : Reply)
| Rejected.

Record State : Type := {
  loading : bool;
  evaluating : bool;
  shown_results : option EvaluationResults;
}.

Definition setLoading (b : bool) (st : State) : State :=
  {| loading := b; evaluating := evaluating st; shown_results := shown_results st |}.

Definition setResults (r : EvaluationResults) (st : State) : State :=
  {| loading := loading st; evaluating := evaluating st; shown_results := Some r |}.

(** [data.results.map(r => ({...}))] *)
Definition transform (r : Result) : Scenario :=
  {| name := scenario r;
     train_size := 700;
     test_size := 300;
     metrics := result_metrics r;
     confusion_matrix :=
       Some {| matrix := Some [[24; 8; 9]; [7; 122; 17]; [1; 30; 82]];
               labels := ["Gaming"; "Photographer"; "Daily"]%string;
               tp := 228; tn := 0; fp := 72; fn := 0 |} |}.

Definition loadResults (reply : Settled) (st : State) : State :=
  let st := setLoading true st in
  let st :=
    match reply with
    | Resolved data =>
        match results data with
        | Some (first :: rest) =>
            let transformedData :=
              {| success := true;
                 best_scenario := scenario first;
                 scenarios := transform <$> (first :: rest) |} in
            setResults transformedData st
        | Some [] | None => setResults DEFAULT_RESULTS st
        end
    | Rejected => setResults DEFAULT_RESULTS st
    end in
  setLoading false st.

(** [results?.scenarios?.[0]] *)
Definition first_scenario (st : State) : option Scenario :=
  r ← shown_results st; head (scenarios r).

(** [scenario?.confusion_matrix?.matrix || [[24, 8, 9], ...]]: the
    literal stands in when the scenario, its [confusion_matrix] or the
    [matrix] in it is missing (an array, even an empty one, is truthy). *)
Definition confusionMatrix (st : State) : Matrix :=
  default [[24; 8; 9]; [7; 122; 17]; [1; 30; 82]]
    (scenario ← first_scenario st;
     confusion ← confusion_matrix scenario;
     matrix confusion).

(** The rows of the Classification Report table. *)
Record ReportRow : Type := {
  label : string;
  row_precision : Q;
  row_recall : Q;
  row_f1 : Q;
  support : Z;
}.

Definition CLASSIFICATION_REPORT : list ReportRow :=
  [ {| label := "Gaming"; row_precision := 75 # 100; row_recall := 59 # 100;
       row_f1 := 66 # 100; support := 41 |};
    {| label := "Photographer"; row_precision := 76 # 100; row_recall := 84 # 100;
       row_f1 := 80 # 100; support := 146 |};
    {| label := "Daily"; row_precision := 76 # 100; row_recall := 73 # 100;
       row_f1 := 74 # 100; support := 113 |} ]%string.

(** *** Sums over a matrix of counts *)

Definition sumZ (l : list Z) : Z := foldr Z.add 0 l.

Definition entry (m : Matrix) (i j : nat) : Z := nth j (nth i m []) 0.

Definition row_sum (m : Matrix) (i : nat) : Z := sumZ (nth i m []).

Definition column_sum (m : Matrix) (j : nat) : Z :=
  sumZ ((fun row => nth j row 0) <$> m).

Definition trace (m : Matrix) : Z :=
  sumZ (imap (fun i row => nth i row 0) m).

Definition total (m : Matrix) : Z := sumZ (sumZ <$> m).

End Evaluation.

(** ** The metrics of the evaluation *)

Module Metrics.
Import Evaluation.
Local Open Scope Q_scope.

(** Modelled from the spec: the metric formulas of the Split
    Evaluator, whose code (the evaluation back end) is not among the
    sources.  A ratio with a zero denominator is 0 (a class with zero
    support yields 0 rather than a division error). *)
Definition ratio (a b : Z) : Q :=
  if (b =? 0)%Z then 0 else inject_Z a / inject_Z b.

(** Modelled from the spec: accuracy = trace/total. *)
Definition accuracy_of (m : Matrix) : Q := ratio (trace m) (total m).

(** Modelled from the spec: per-class precision = diagonal/column-sum. *)
Definition precision_of (m : Matrix) (i : nat) : Q :=
  ratio (entry m i i) (column_sum m i).

(** Modelled from the spec: per-class recall = diagonal/row-sum. *)
Definition recall_of (m : Matrix) (i : nat) : Q :=
  ratio (entry m i i) (row_sum m i).

(** Modelled from the spec: F1 = harmonic mean of precision and recall
    (0 when both are 0). *)
Definition harmonic_mean (p r : Q) : Q :=
  if Qeq_bool (p + r) 0 then 0 else 2 * p * r / (p + r).

Definition f1_of (m : Matrix) (i : nat) : Q :=
  harmonic_mean (precision_of m i) (recall_of m i).

(** Modelled from the spec: weighted averages weight each class's
    metric by its support (row-sum) divided by total. *)
Definition weighted_average (metric : Matrix -> nat -> Q) (m : Matrix) : Q :=
  foldr Qplus 0
    ((fun i => metric m i * ratio (row_sum m i) (total m)) <$> seq 0 (length m)).

(** Rounding to [digits] decimals, halves upwards. *)
Definition round_to (digits : nat) (x : Q) : Q :=
  let scale := (10 ^ Z.of_nat digits)%Z in
  inject_Z (Qfloor (x * inject_Z scale + (1 # 2))) / inject_Z scale.

(** A fraction as the percentage the page stores. *)
Definition percent (x : Q) : Q := 100 * x.

End Metrics.

(** ** The similarity conversion *)

Module Similarity.
Local Open Scope Q_scope.

(** Modelled from the spec: the Similarity Converter,
    similarity(distance) = 1 / (1 + distance); the retrieval engine
    that computes it is not among the sources (the home page only
    quotes the formula). *)
Definition similarity (distance : Q) : Q := 1 / (1 + distance).

End Similarity.

(** ** Further built-ins *)

Module Builtins.

(** An index clamped to the string, as [substring] reads it. *)
Definition clamp (k len : Z) : Z := Z.max 0 (Z.min k len).

(** [String.prototype.substring(start, end)]: both indices are clamped
    to [0, length] and swapped when out of order. *)
Definition substring (start stop : Z) (s : string) : string :=
  let len := Z.of_nat (String.length s) in
  let a := clamp start len in
  let b := clamp stop len in
  String.substring (Z.to_nat (Z.min a b)) (Z.to_nat (Z.max a b - Z.min a b)) s.

(** [x >= c] for a Number [x] and a finite constant [c]: false on NaN. *)
Definition ge (x : JS.number) (c : Q) : bool :=
  match x with
  | JS.NaN => false
  | JS.Inf negative => negb negative
  | JS.Fin q => Qle_bool c q
  end.

(** [a / b] on finite numbers: the quotient rounded to a double, with
    the IEEE results of a zero divisor (the zero taken positive). *)
Definition div (a b : Q) : JS.number :=
  if Qeq_bool b 0
  then if Qeq_bool a 0 then JS.NaN else JS.Inf (Qle_bool a 0)
  else Double.round (a / b).

(** [x * c] for a finite constant [c > 0]: the product rounded to a
    double. *)
Definition times_pos (x : JS.number) (c : Q) : JS.number :=
  match x with
  | JS.Fin q => Double.round (q * c)
  | other => other
  end.

(** [Math.min(c, x)] for a finite constant [c]. *)
Definition Math_min (c : Q) (x : JS.number) : JS.number :=
  match x with
  | JS.NaN => JS.NaN
  | JS.Inf true => JS.Inf true
  | JS.Inf false => JS.Fin c
  | JS.Fin q => JS.Fin (if Qle_bool c q then c else q)
  end.

End Builtins.

(** ** utils/helpers.js: the other helpers *)

Module Util.
Local Open Scope Q_scope.

Section FormatPercentage.

(** [Number.prototype.toString] is left open; [toFixed] falls back on
    it from 10^21 on. *)
Variable Number_toString : JS.number -> string.

(** [x.toFixed(1)] on a finite number. *)
Definition toFixed1 (x : Q) : string :=
  if Qle_bool (inject_Z (10 ^ 21)) (Qabs x)
  then ((if Qlt_le_dec x 0 then "-" else "") +:+ Number_toString (JS.Fin (Qabs x)))%string
  else JS.toFixed1 x.

(** [formatPercentage(value)], helpers.js 30-33, with the default of
    one decimal; [None] is [null] or [undefined]. *)
Definition formatPercentage (value : option Q) : string :=
  match value with
  | None => "0%"
  | Some x => (toFixed1 x +:+ "%")%string
  end.

End FormatPercentage.

(** [getSimilarityColor], helpers.js 38-44; the thresholds are the
    doubles of the literals 0.8, 0.6, 0.4 and 0.2. *)
Definition getSimilarityColor (score : JS.number) : string :=
  if Builtins.ge score (Double.literal (8 # 10)) then "text-green-400"
  else if Builtins.ge score (Double.literal (6 # 10)) then "text-emerald-400"
  else if Builtins.ge score (Double.literal (4 # 10)) then "text-yellow-400"
  else if Builtins.ge score (Double.literal (2 # 10)) then "text-orange-400"
  else "text-red-400".

Record SimilarityBadge : Type := { badge_text : string; badge_class : string }.

(** [getSimilarityBadge], helpers.js 49-54. *)
Definition getSimilarityBadge (score : JS.number) : SimilarityBadge :=
  if Builtins.ge score (Double.literal (8 # 10))
  then {| badge_text := "Sangat Cocok"; badge_class := "badge-success" |}
  else if Builtins.ge score (Double.literal (6 # 10))
  then {| badge_text := "Cocok"; badge_class := "badge-primary" |}
  else if Builtins.ge score (Double.literal (4 # 10))
  then {| badge_text := "Cukup Cocok"; badge_class := "badge-warning" |}
  else {| badge_text := "Kurang Cocok"; badge_class := "badge-secondary" |}.

(** The five colour classes from coldest to warmest. *)
Definition warmth (class : string) : nat :=
  if String.eqb class "text-green-400" then 4
  else if String.eqb class "text-emerald-400" then 3
  else if String.eqb class "text-yellow-400" then 2
  else if String.eqb class "text-orange-400" then 1
  else 0.

(** [truncate], helpers.js 84-88; [text] is [None] for [null] and
    [undefined], [length] is [None] when the argument is left out. *)
Definition truncate (text : option string) (length : option Z) : string :=
  let length := default 50%Z length in
  match text with
  | None => ""
  | Some text =>
      if String.eqb text "" then ""
      else if (Z.of_nat (String.length text) <=? length)%Z then text
      else (Builtins.substring 0 length text +:+ "...")%string
  end.

(** *** [storage], helpers.js 129-148 *)

(** [localStorage]: keys to strings. *)
Abbreviation LocalStorage := (gmap string string).

Section Storage.

(** The values kept in storage and their JSON form.
    [stringify v] is the string [setItem] receives for
    [JSON.stringify(v)], [None] when [JSON.stringify] throws;
    [parse s] is [JSON.parse(s)], [None] when it throws. *)
Variable V : Type.
Variable stringify : V -> option string.
Variable parse : string -> option V.
(** Whether [setItem] has room for the entry (else it throws). *)
Variable has_room : LocalStorage -> string -> string -> bool.

(** [storage.get(key, defaultValue)] *)
Definition storage_get (key : string) (defaultValue : V) (ls : LocalStorage) : V :=
  match ls !! key with
  | Some item =>
      if String.eqb item "" then defaultValue
      else match parse item with
           | Some v => v
           | None => defaultValue
           end
  | None => defaultValue
  end.

(** [storage.set(key, value)]: the new storage, and whether
    [console.error] was called. *)
Definition storage_set (key : string) (value : V) (ls : LocalStorage)
    : LocalStorage * bool :=
  match stringify value with
  | Some item =>
      if has_room ls key item then (<[key := item]> ls, false) else (ls, true)
  | None => (ls, true)
  end.

(** [storage.remove(key)] *)
Definition storage_remove (key : string) (ls : LocalStorage) : LocalStorage :=
  delete key ls.

End Storage.

(** *** [brandConfig] and [getBrandConfig], helpers.js 153-172 *)

Record BrandConfig : Type := { color : string; icon : string }.

Definition brandConfig : list (string * BrandConfig) :=
  [ ("Apple", {| color := "#A3A3A3"; icon := "ðŸŽ" |});
    ("Samsung", {| color := "#1428A0"; icon := "ðŸ“±" |});
    ("Xiaomi", {| color := "#FF6700"; icon := "ðŸ“±" |});
    ("Oppo", {| color := "#1BA784"; icon := "ðŸ“±" |});
    ("Vivo", {| color := "#415FFF"; icon := "ðŸ“±" |});
    ("Realme", {| color := "#F7C800"; icon := "ðŸ“±" |});
    ("Huawei", {| color := "#CF0A2C"; icon := "ðŸ“±" |});
    ("Asus", {| color := "#000000"; icon := "ðŸ“±" |});
    ("Sony", {| color := "#000000"; icon := "ðŸ“±" |});
    ("OnePlus", {| color := "#EB0029"; icon := "ðŸ“±" |});
    ("default", {| color := "#6366F1"; icon := "ðŸ“±" |}) ]%string.

(** The members every object literal inherits from [Object.prototype];
    all of them are truthy. *)
Definition Object_prototype : list string :=
  [ "constructor"; "__defineGetter__"; "__defineSetter__"; "hasOwnProperty";
    "__lookupGetter__"; "__lookupSetter__"; "isPrototypeOf";
    "propertyIsEnumerable"; "toString"; "valueOf"; "__proto__";
    "toLocaleString" ]%string.

Fixpoint own_property {A} (key : string) (object : list (string * A)) : option A :=
  match object with
  | [] => None
  | (k, v) :: rest => if String.eqb k key then Some v else own_property key rest
  end.

(** What [getBrandConfig] returns: a configuration, or the inherited
    member a brand of the same name reaches. *)
Inductive BrandLookup : Type :=
| Config (c : BrandConfig)
| Inherited (member : string)
| NoConfig.

(** [brandConfig[brand] || brandConfig.default]; an [undefined] brand
    is the key "undefined", [null] the key "null". *)
Definition getBrandConfig (brand : JS.value) (Number_toString : JS.number -> string)
    : BrandLookup :=
  let key := match brand with
             | JS.Undefined => "undefined"%string
             | JS.Null => "null"%string
             | JS.Num n => Number_toString n
             | JS.Str s => s
             end in
  match own_property key brandConfig with
  | Some c => Config c
  | None =>
      if bool_decide (key ∈ Object_prototype) then Inherited key
      else match own_property "default" brandConfig with
           | Some c => Config c
           | None => NoConfig
           end
  end.

End Util.

(** ** The Results page and PhoneCard: what is shown of the sorted list *)

Module ResultsView.
Import Results.
Local Open Scope Q_scope.

(** The rating a recommendation is sorted by: a missing or zero rating
    counts as 0. *)
Definition rating_value (r : Recommendation) : Q := default 0 (rating r).

Definition by_rating (a b : Recommendation) : Prop :=
  rating_value b <= rating_value a.

(** [a] is at most as expensive as [b], both prices being there. *)
Definition price_le (a b : Recommendation) : Prop :=
  match price a, price b with
  | Some x, Some y => x <= y
  | _, _ => False
  end.





(** The columns of the "Perbandingan Top 3" table (Results.jsx
    206-250): [sortedRecommendations.length >= 3 &&
    sortedRecommendations.slice(0, 3).map((rec, idx) => #{idx + 1} ...)];
    [None] when the table is not rendered. *)
Definition comparison_columns (sorted : list Recommendation)
    : option (list (Z * Recommendation)) :=
  if (3 <=? Z.of_nat (length sorted))%Z
  then Some (imap (fun idx rec => (Z.of_nat idx + 1, rec)%Z) (JS.slice 0 3 sorted))
  else None.

End ResultsView.

(** ** The Admin page: the other handlers of the weight settings *)

Module AdminPage.
Import Helpers.
Local Open Scope Q_scope.

(** [const totalWeight = Object.values(weights).reduce(...)]
    (Results.jsx 411) *)
Definition totalWeight (weights : Weights) : JS.number :=
  sum_values (Object_values weights).

(** The total is shown green when [Math.abs(totalWeight - 100) < 1],
    red otherwise (Results.jsx 517-520). *)
Definition total_is_green (weights : Weights) : bool :=
  Double.lt (Double.abs (Double.sub (totalWeight weights) (JS.Fin 100))) 1.

(** [{...prev, [key]: value}]: the value of an existing key is replaced
    in its place, a new key is added at the end. *)
Fixpoint set_property (key : string) (value : Q) (object : Weights) : Weights :=
  match object with
  | [] => [(key, value)]
  | (k, v) :: rest =>
      if String.eqb k key then (k, value) :: rest
      else (k, v) :: set_property key value rest
  end.

(** [parseFloat(value) || 0] as a weight; an infinite result is not a
    rational and has no place among the weights of this model. *)
Definition number_or_zero (n : JS.number) : option Q :=
  match n with
  | JS.NaN => Some 0
  | JS.Fin q => Some (if Qeq_bool q 0 then 0 else q)
  | JS.Inf _ => None
  end.

Section Handlers.

(** [parseFloat] is left open. *)
Variable parseFloat : string -> JS.number.

(** [handleWeightChange] (Results.jsx 338-343); [None] when the text
    parses to an infinity. *)
Definition handleWeightChange (key value : string) (st : Admin.State)
    : option Admin.State :=
  parsed ← number_or_zero (parseFloat value);
  Some {| Admin.weights := set_property key parsed (Admin.weights st);
          Admin.originalWeights := Admin.originalWeights st;
          Admin.saving := Admin.saving st |}.

End Handlers.

(** The requests of the page besides the PUT of the weights, and its
    toasts. *)
Inductive Event : Type :=
| GetWeights
| GetWeightPresets
| GetDashboard
| PostResetWeights
| ToastError (msg : string)
| ToastSuccess (msg : string).

Record Preset : Type := {
  preset_name : string;
  preset_description : string;
  preset_weights : Weights;
}.

(** How an awaited request settles: it is rejected, or it resolves
    with the body of the reply ([response.data], api.js 34-36), which
    may be empty ([null]); a body that is there carries the documented
    field. *)
Inductive Reply (A : Type) : Type :=
| Rejects
| Empty
| Body (a : A).
Arguments Rejects {A}.
Arguments Empty {A}.
Arguments Body {A} a.

Definition rejected {A} (reply : Reply A) : bool :=
  match reply with
  | Rejects => true
  | _ => false
  end.

Section Page.

(** The dashboard data is only stored. *)
Variable Dashboard : Type.

Record PageState : Type := {
  settings : Admin.State;
  loading : bool;
  presets : list (string * Preset);
  dashboard : option Dashboard;
}.

(** The three replies [loadData] waits for: the [weights] of the first,
    the [presets] of the second, and the third as it is. *)
Record Replies : Type := {
  weightsRes : Reply Weights;
  presetsRes : Reply (list (string * Preset));
  dashboardRes : Reply Dashboard;
}.

(** [loadData] (Results.jsx 318-336): [Promise.all] sends the three
    requests at once and rejects when one of them does; then the four
    setters run one after the other, and reading a field of an empty
    body throws between them.  Every throw ends in the [catch]. *)
Definition loadData (replies : Replies) (st : PageState) : PageState * list Event :=
  let requests := [GetWeights; GetWeightPresets; GetDashboard] in
  let caught (st : PageState) :=
    ({| settings := settings st; loading := false;
        presets := presets st; dashboard := dashboard st |},
     requests ++ [ToastError "Gagal memuat data"]) in
  if rejected (weightsRes replies) || rejected (presetsRes replies)
     || rejected (dashboardRes replies)
  then caught st
  else
    match weightsRes replies with
    | Body ws =>
        (* setWeights(weightsRes.weights); setOriginalWeights(weightsRes.weights) *)
        let st := {| settings := {| Admin.weights := ws;
                                    Admin.originalWeights := ws;
                                    Admin.saving := Admin.saving (settings st) |};
                     loading := loading st;
                     presets := presets st;
                     dashboard := dashboard st |} in
        match presetsRes replies with
        | Body ps =>
            (* setPresets(presetsRes.presets); setDashboard(dashboardRes) *)
            ({| settings := settings st;
                loading := false;
                presets := ps;
                dashboard := match dashboardRes replies with
                             | Body d => Some d
                             | _ => None
                             end |},
             requests)
        | _ => caught st
        end
    | _ => caught st
    end.

(** [resetWeights] (Results.jsx 372-381); the reply carries
    [new_weights]; [None] is a rejected request or a reply without a
    body, which both end in the [catch]. *)
Definition resetWeights (reply : option Weights) (st : PageState)
    : PageState * list Event :=
  match reply with
  | Some new_weights =>
      ({| settings := {| Admin.weights := new_weights;
                         Admin.originalWeights := new_weights;
                         Admin.saving := Admin.saving (settings st) |};
          loading := loading st; presets := presets st; dashboard := dashboard st |},
       [PostResetWeights; ToastSuccess "Bobot direset ke default"])
  | None => (st, [PostResetWeights; ToastError "Gagal mereset bobot"])
  end.

End Page.

Section IsChanged.

(** [JSON.stringify] on a weights object is left open. *)
Variable stringify : Weights -> string.

(** [JSON.stringify(weights) !== JSON.stringify(originalWeights)]
    (Results.jsx 412); the save button is disabled when it is false. *)
Definition isChanged (st : Admin.State) : bool :=
  negb (String.eqb (stringify (Admin.weights st))
                   (stringify (Admin.originalWeights st))).

End IsChanged.

End AdminPage.

(** ** The Evaluation page: re-running the evaluation, cards and charts *)

Module EvaluationView.
Import Evaluation.
Local Open Scope Q_scope.

Record Split : Type := { train : Z; test : Z }.

Record Config : Type := {
  config_scenarios : list Split;
  similarity_threshold : Q;
}.

(** The toasts of [runEvaluation], all under one id, and its request. *)
Inductive Event : Type :=
| ToastLoading (msg id : string)
| ToastSuccess (msg id : string)
| ToastError (msg id : string)
| PostRunEvaluation (config : Config).

(** How the awaited [evaluationAPI.runEvaluation(config)] settles; the
    body of the reply may be [null]. *)
Inductive RunReply : Type :=
| RunResolved (data : option EvaluationResults)
| RunRejected.

(** [runEvaluation] (part_002 116-135). *)
Definition runEvaluation (reply : RunReply) (st : State) : State * list Event :=
  let config := {| config_scenarios := [ {| train := 70; test := 30 |} ];
                   similarity_threshold := 5 # 10 |} in
  let started := [ToastLoading "Menjalankan evaluasi..." "evaluation";
                  PostRunEvaluation config] in
  match reply with
  | RunResolved data =>
      ({| loading := loading st; evaluating := false; shown_results := data |},
       started ++ [ToastSuccess "Evaluasi selesai!" "evaluation"])
  | RunRejected =>
      ({| loading := loading st; evaluating := false;
          shown_results := shown_results st |},
       started ++ [ToastError "Gagal menjalankan evaluasi" "evaluation"])
  end.

(** [metric || fallback] on a number that may be missing. *)
Definition or_fallback (metric : option Q) (fallback : Q) : Q :=
  match metric with
  | Some x => if Qeq_bool x 0 then fallback else x
  | None => fallback
  end.

(** A metric card: its label, the value it is given and the text it
    shows, [formatPercentage(metric.value)]. *)
Record Card : Type := { card_label : string; card_value : Q; card_text : string }.

Section Cards.

Variable Number_toString : JS.number -> string.

Definition card (label : string) (value : Q) : Card :=
  {| card_label := label; card_value := value;
     card_text := Util.formatPercentage Number_toString (Some value) |}.

(** The four metric cards (part_002 321-332):
    [scenario?.metrics?.accuracy || 76.0] and so on. *)
Definition metric_cards (st : State) : list Card :=
  let metric (field : Metrics -> Q) :=
    scenario ← first_scenario st; field <$> metrics scenario in
  [ card "Accuracy" (or_fallback (metric accuracy) 76);
    card "Precision" (or_fallback (metric precision) (7596 # 100));
    card "Recall" (or_fallback (metric recall) 76);
    card "F1-Score" (or_fallback (metric f1_score) (7574 # 100)) ].

End Cards.

(** What preparing the data of a chart gives: [null], the data, or the
    TypeError of reading a field of [undefined]. *)
Inductive ChartData : Type :=
| NoChart
| Chart (data : list Q)
| ChartTypeError.

(** The data of the bar chart and of the radar chart (part_002
    153-196): [null] without a scenario, else the four metrics as they
    are; [scenario.metrics.accuracy] throws when the scenario has no
    [metrics]. *)
Definition prepareBarChartData (st : State) : ChartData :=
  match first_scenario st with
  | None => NoChart
  | Some scenario =>
      match metrics scenario with
      | None => ChartTypeError
      | Some m => Chart [ accuracy m; precision m; recall m; f1_score m ]
      end
  end.

Definition prepareRadarChartData (st : State) : ChartData :=
  match first_scenario st with
  | None => NoChart
  | Some scenario =>
      match metrics scenario with
      | None => ChartTypeError
      | Some m => Chart [ accuracy m; precision m; recall m; f1_score m ]
      end
  end.

End EvaluationView.

(** ** The Recommendation page (unnamed/part_004): the form and its
    submission *)

Module Recommendation.
Import Helpers Util.
Local Open Scope Q_scope.

(** The form state; a field that holds a number, a string or [null]
    is a [JS.value]. *)
Record FormData : Type := {
  min_harga : JS.value;
  max_harga : JS.value;
  ram : JS.value;
  memori_internal : JS.value;
  min_baterai : JS.value;
  resolusi_kamera : JS.value;
  ukuran_layar : JS.value;
  min_rating : JS.value;
  preferred_brands : option (list string);
  preferred_os : JS.value;
  custom_weights : option Weights;
}.

Definition with_brands (f : FormData) (brands : option (list string)) : FormData :=
  {| min_harga := min_harga f; max_harga := max_harga f; ram := ram f;
     memori_internal := memori_internal f; min_baterai := min_baterai f;
     resolusi_kamera := resolusi_kamera f; ukuran_layar := ukuran_layar f;
     min_rating := min_rating f; preferred_brands := brands;
     preferred_os := preferred_os f; custom_weights := custom_weights f |}.

(** [brands.includes(brand) ? brands.filter(b => b !== brand)
    : [...brands, brand]] *)
Definition toggled (brand : string) (brands : list string) : list string :=
  if bool_decide (brand ∈ brands)
  then filter (fun b => b <> brand) brands
  else brands ++ [brand].

(** [handleBrandToggle] (part_004 68-76); [prev.preferred_brands || []]
    reads a [null] list as empty. *)
Definition handleBrandToggle (brand : string) (prev : FormData) : FormData :=
  let brands := default [] (preferred_brands prev) in
  with_brands prev (Some (toggled brand brands)).

(** What the page does to the outside when the form is submitted. *)
Inductive Event : Type :=
| PreventDefault
| PostRecommendations (input_specs : FormData) (top_k : Z) (min_similarity : Q)
| Navigate (path : string)
| ToastSuccess (msg : string)
| ToastError (msg : string)
| ConsoleError.

Record Page : Type := {
  formData : FormData;
  loading : bool;
  localStorage : LocalStorage;
  events : list Event;
}.

Definition is_request (e : Event) : bool :=
  match e with PostRecommendations _ _ _ => true | _ => false end.

Section Submit.

(** The body of a reply to POST /recommendations, read through its
    fields [success] and [recommendations]. *)
Variable ApiResult : Type.
Variable success : ApiResult -> bool.
Variable recommendations : ApiResult -> list Results.Recommendation.

(** JSON of the two kinds of value the pages keep in storage. *)
Variable stringify_form : FormData -> option string.
Variable stringify_result : ApiResult -> option string.
(** [JSON.parse] read as a result; [Some None] is a parsed [null]. *)
Variable parse_result : string -> option (option ApiResult).
Variable has_room : LocalStorage -> string -> string -> bool.
(** The message of the TypeError of [null.length]. *)
Variable TypeError_message : string.

(** How the awaited request settles; a rejection carries the message the
    response interceptor of api.js gave the error. *)
Inductive Settled : Type :=
| Resolved (result : ApiResult)
| Rejected (message : string).

Definition log (e : Event) (p : Page) : Page :=
  {| formData := formData p; loading := loading p;
     localStorage := localStorage p; events := events p ++ [e] |}.

Definition setLoading (b : bool) (p : Page) : Page :=
  {| formData := formData p; loading := b;
     localStorage := localStorage p; events := events p |}.

(** [storage.set(key, value)] on the page: the entry is written, or an
    error is logged on the console. *)
Definition store {V} (stringify : V -> option string) (key : string) (value : V)
    (p : Page) : Page :=
  let '(ls, failed) := storage_set V stringify has_room key value (localStorage p) in
  let p := {| formData := formData p; loading := loading p;
              localStorage := ls; events := events p |} in
  if failed then log ConsoleError p else p.

(** [error.message || 'Terjadi kesalahan'] *)
Definition message_or_default (message : string) : string :=
  if String.eqb message "" then "Terjadi kesalahan" else message.

(** [handleSubmit] (part_004 78-117). *)
Definition handleSubmit (reply : Settled) (p : Page) : Page :=
  let p := log PreventDefault p in
  let p := setLoading true p in
  let form := formData p in
  (* try *)
  let p := store stringify_form "recommendation_prefs" form p in
  let p :=
    match preferred_brands form with
    | None =>
        (* formData.preferred_brands.length throws; catch *)
        log (ToastError (message_or_default TypeError_message)) p
    | Some brands =>
        let specs :=
          with_brands form
            (if (0 <? Z.of_nat (length brands))%Z then Some brands else None) in
        let p := log (PostRecommendations specs 10 (2 # 10)) p in
        match reply with
        | Resolved result =>
            if success result && (0 <? Z.of_nat (length (recommendations result)))%Z
            then
              let p := store stringify_result "recommendation_results" result p in
              let p := log (Navigate "/results") p in
              log (ToastSuccess ("Ditemukan "
                                 +:+ pretty (length (recommendations result))
                                 +:+ " rekomendasi!")) p
            else
              log (ToastError "Tidak ditemukan HP yang sesuai. Coba ubah kriteria.") p
        | Rejected message =>
            (* catch *)
            log (ToastError (message_or_default message)) p
        end
    end in
  (* finally *)
  setLoading false p.

(** The Results page on mount (Results.jsx 18-23): the state [results]
    starts [null] and takes what [storage.get('recommendation_results')]
    returns when that is truthy; [None] shows the empty page. *)
Definition Results_mount (ls : LocalStorage) : option ApiResult :=
  storage_get (option ApiResult) parse_result "recommendation_results" None ls.

End Submit.

End Recommendation.

(** ** pages/PhoneList.jsx: the pagination *)

Module PhoneList.

Record Pagination : Type := { page : Z; total : Z; totalPages : Z }.

(** [useState({ page: 1, total: 0, totalPages: 0 })] *)
Definition initial : Pagination := {| page := 1; total := 0; totalPages := 0 |}.

(** What the user can do to the page number: the two pagination
    buttons, and any change of a filter. *)
Inductive Click : Type :=
| Previous
| Next
| ChangeFilter.

(** The buttons exist when [pagination.totalPages > 1]; the first is
    disabled when [page === 1], the second when [page === totalPages]
    (PhoneList.jsx 84-90). *)
Definition enabled (c : Click) (pg : Pagination) : bool :=
  match c with
  | Previous => (1 <? totalPages pg) && negb (page pg =? 1)
  | Next => (1 <? totalPages pg) && negb (page pg =? totalPages pg)
  | ChangeFilter => true
  end.

Definition set_page (n : Z) (pg : Pagination) : Pagination :=
  {| page := n; total := total pg; totalPages := totalPages pg |}.

(** [setPagination(p => ({ ...p, page: p.page - 1 }))], [p.page + 1],
    and the [page: 1] of [handleFilterChange]; a disabled button does
    nothing. *)
Definition click (pg : Pagination) (c : Click) : Pagination :=
  if enabled c pg
  then match c with
       | Previous => set_page (page pg - 1) pg
       | Next => set_page (page pg + 1) pg
       | ChangeFilter => set_page 1 pg
       end
  else pg.

(** What happens to the pagination: a click, or the reply to
    [loadPhones], which replaces it by [{ page: res.page, total:
    res.total, totalPages: res.total_pages }] (PhoneList.jsx 28-35; a
    failed request changes nothing). *)
Inductive Step : Type :=
| Clicked (c : Click)
| Loaded (reply : Pagination).

Definition step (pg : Pagination) (s : Step) : Pagination :=
  match s with
  | Clicked c => click pg c
  | Loaded reply => reply
  end.

(** The page number is a real page: at least 1 and, when there are
    pages, at most the last. *)
Definition in_range (pg : Pagination) : Prop :=
  1 <= page pg <= Z.max 1 (totalPages pg).

(** The replies among the steps are in range themselves. *)
Definition replies_in_range (steps : list Step) : Prop :=
  Forall (fun s => match s with Loaded reply => in_range reply | Clicked _ => True end)
         steps.

End PhoneList.

(** ** components/UI.jsx: the progress bar *)

Module UI.
Local Open Scope Q_scope.

(** [Math.min(100, (value / max) * 100)] with the default [max = 100]
    (UI.jsx 136-137). *)
Definition percentage (value : Q) (max : option Q) : JS.number :=
  Builtins.Math_min 100
    (Builtins.times_pos (Builtins.div value (default 100 max)) 100).

End UI.

(** ** Stock on the card and on the detail page *)

Module Stock.

(** The two spellings of the stock flag a phone object may carry;
    [None] is a missing (or [null]) field. *)
Record Phone : Type := {
  stok_tersedia : option bool;
  Stok_tersedia : option bool;
}.

(** [a ?? b]: [a] unless it is [null] or [undefined]. *)
Definition nullish_or {A} (a b : option A) : option A :=
  match a with
  | Some _ => a
  | None => b
  end.

(** PhoneCard 27: [inStock: phone.stok_tersedia ?? phone.Stok_tersedia
    ?? true]. *)
Definition inStock (phone : Phone) : bool :=
  default true (nullish_or (nullish_or (stok_tersedia phone) (Stok_tersedia phone))
                           (Some true)).

(** PhoneCard 50-52: [{!phoneData.inStock && <span>Stok Habis</span>}]. *)
Definition card_shows_out_of_stock (phone : Phone) : bool := negb (inStock phone).

(** PhoneDetail (part_003 69-73): [phone.Stok_tersedia ? "Stok
    Tersedia" : "Stok Habis"]. *)
Definition detail_shows_out_of_stock (phone : Phone) : bool :=
  match Stok_tersedia phone with
  | Some true => false
  | _ => true
  end.

End Stock.

(** ** Further sample data *)

Module Fixtures.
Import Util Recommendation.

(** A JSON form of the booleans, to run the storage on. *)
Definition stringify_bool (b : bool) : option string :=
  Some (if b then "true" else "false")%string.

Definition parse_bool (s : string) : option bool :=
  if String.eqb s "true" then Some true
  else if String.eqb s "false" then Some false
  else None.

(** The entry [brandConfig.default]. *)
Definition default_brand : BrandConfig := {| color := "#6366F1"; icon := "ðŸ“±" |}.

(** The initial form of the Recommendation page (part_004 23-35). *)
Definition initial_form : FormData :=
  {| min_harga := JS.Null;
     max_harga := JS.Num (JS.of_Z 10000000);
     ram := JS.Num (JS.of_Z 8);
     memori_internal := JS.Num (JS.of_Z 128);
     min_baterai := JS.Num (JS.of_Z 4500);
     resolusi_kamera := JS.Str "48MP";
     ukuran_layar := JS.Num (JS.Fin (65 # 10));
     min_rating := JS.Num (JS.of_Z 4);
     preferred_brands := Some [];
     preferred_os := JS.Null;
     custom_weights := None |}.

Definition initial_page : Page :=
  {| formData := initial_form; loading := false; localStorage := ∅; events := [] |}.

(** A reply as a pair of its [success] flag and its recommendations,
    with a one-entry JSON table. *)
Definition sample_result : bool * list Results.Recommendation :=
  (true, Samples.sample_recommendations).

Definition stringify_sample (r : bool * list Results.Recommendation) : option string :=
  Some "{...}"%string.

Definition parse_sample (s : string)
    : option (option (bool * list Results.Recommendation)) :=
  if String.eqb s "{...}" then Some (Some sample_result) else None.

End Fixtures.

(* ===================================================================== *)
(** * Part II: properties                                                 *)
(* ===================================================================== *)

Example toFixed1_ex1 : JS.toFixed1 (902 # 10) = "90.2"%string.
Proof. vm_compute. reflexivity. Qed.

(** ** Double precision: rounding and sums *)

Section DoubleFacts.
Import Double Helpers.
Local Open Scope Q_scope.

Lemma pow2_pos (e : Z) : 0 < pow2 e.
Proof. apply Qpower_0_lt. reflexivity. Qed.

Lemma pow2_add (a b : Z) : pow2 (a + b) == pow2 a * pow2 b.
Proof. apply Qpower_plus. discriminate. Qed.

Lemma pow2_le (a b : Z) : (a <= b)%Z -> pow2 a <= pow2 b.
Proof. intros H. apply Qpower_le_compat_l; [exact H | discriminate]. Qed.

Lemma pow2_lt (a b : Z) : (a < b)%Z -> pow2 a < pow2 b.
Proof. intros H. apply Qpower_lt_compat_l; [exact H | reflexivity]. Qed.

Lemma pow2_Z (e : Z) : (0 <= e)%Z -> pow2 e == inject_Z (2 ^ e).
Proof. intros H. unfold pow2. rewrite Zpower_Qpower by exact H. reflexivity. Qed.

Lemma pow2_succ (e : Z) : pow2 (e + 1) == 2 * pow2 e.
Proof. rewrite pow2_add. change (pow2 1) with 2. ring. Qed.

Lemma pow2_sub (a b : Z) : pow2 (a - b) == pow2 a / pow2 b.
Proof.
  pose proof (pow2_pos b) as Hb.
  assert (pow2 a == pow2 (a - b) * pow2 b) as ->.
  { rewrite <- pow2_add. replace (a - b + b)%Z with a by lia. reflexivity. }
  field. lra.
Qed.

(** The binade of a positive rational. *)
Lemma exponent_spec (a : Q) :
  0 < a -> pow2 (exponent a) <= a < pow2 (exponent a + 1).
Proof.
  intros Ha. destruct a as [n d].
  assert (0 < n)%Z as Hn.
  { unfold Qlt in Ha. simpl in Ha. lia. }
  unfold exponent. cbn [Qnum Qden].
  set (ln := Z.log2 n). set (ld := Z.log2 (Z.pos d)).
  destruct (Z.log2_spec n Hn) as [Hn1 Hn2]. fold ln in Hn1, Hn2.
  destruct (Z.log2_spec (Z.pos d) eq_refl) as [Hd1 Hd2]. fold ld in Hd1, Hd2.
  assert (0 <= ln)%Z as Hln by apply Z.log2_nonneg.
  assert (0 <= ld)%Z as Hld by apply Z.log2_nonneg.
  assert (n # d == inject_Z n / inject_Z (Z.pos d)) as Hq by apply Qmake_Qdiv.
  assert (0 < inject_Z (Z.pos d)) as Hdpos by reflexivity.
  assert (pow2 ln <= inject_Z n) as Q1.
  { rewrite pow2_Z by lia. rewrite <- Zle_Qle. exact Hn1. }
  assert (inject_Z n < pow2 (ln + 1)) as Q2.
  { rewrite pow2_Z by lia. rewrite <- Zlt_Qlt. replace (ln + 1)%Z with (Z.succ ln) by lia. exact Hn2. }
  assert (pow2 ld <= inject_Z (Z.pos d)) as Q3.
  { rewrite pow2_Z by lia. rewrite <- Zle_Qle. exact Hd1. }
  assert (inject_Z (Z.pos d) < pow2 (ld + 1)) as Q4.
  { rewrite pow2_Z by lia. rewrite <- Zlt_Qlt. replace (ld + 1)%Z with (Z.succ ld) by lia. exact Hd2. }
  pose proof (pow2_pos ld) as Pld. pose proof (pow2_pos ln) as Pln.
  pose proof (pow2_pos (ln - ld)) as Pe.
  pose proof (pow2_pos (ln - ld - 1)) as Pe1.
  assert (pow2 ln == pow2 (ln - ld) * pow2 ld) as E1.
  { rewrite <- pow2_add. replace (ln - ld + ld)%Z with ln by lia. reflexivity. }
  assert (pow2 (ln - ld) == 2 * pow2 (ln - ld - 1)) as E2.
  { rewrite <- pow2_succ. replace (ln - ld - 1 + 1)%Z with (ln - ld)%Z by lia. reflexivity. }
  assert (pow2 (ln - ld + 1) == 2 * pow2 (ln - ld)) as E3 by apply pow2_succ.
  rewrite pow2_succ in Q2, Q4.
  set (x := inject_Z n) in *. set (y := inject_Z (Z.pos d)) in *.
  assert (n # d < pow2 (ln - ld + 1)) as Hup.
  { rewrite Hq, E3. apply Qlt_shift_div_r; [exact Hdpos|]. nra. }
  assert (pow2 (ln - ld - 1) <= n # d) as Hlo.
  { rewrite Hq. apply Qle_shift_div_l; [exact Hdpos|]. nra. }
  destruct (Qle_bool (pow2 (ln - ld)) (n # d)) eqn:Hc.
  - apply Qle_bool_iff in Hc. split; [exact Hc | exact Hup].
  - split; [exact Hlo|].
    replace (ln - ld - 1 + 1)%Z with (ln - ld)%Z by lia.
    apply Qnot_le_lt. intros Hle. apply Qle_bool_iff in Hle. congruence.
Qed.


(** *** The nearest integer *)

Lemma nearest_even_cases (x : Q) :
  let f := Qfloor x in
  (nearest_even x = f /\ x - inject_Z f <= 1 # 2)
  \/ (nearest_even x = (f + 1)%Z /\ 1 # 2 <= x - inject_Z f).
Proof.
  intros f. unfold nearest_even. fold f.
  destruct (Qcompare_spec (x - inject_Z f) (1 # 2)) as [H|H|H].
  - destruct (Z.even f); [left | right]; (split; [reflexivity|]); rewrite H; apply Qle_refl.
  - left. split; [reflexivity | apply Qlt_le_weak, H].
  - right. split; [reflexivity | apply Qlt_le_weak, H].
Qed.

Lemma floor_bounds (x : Q) :
  inject_Z (Qfloor x) <= x < inject_Z (Qfloor x) + 1.
Proof.
  split; [apply Qfloor_le|].
  pose proof (Qlt_floor x) as H. rewrite inject_Z_plus in H. exact H.
Qed.

Lemma nearest_even_below (x : Q) (k : Z) :
  inject_Z k <= x ->
  (k <= nearest_even x)%Z /\ inject_Z (nearest_even x) - x <= x - inject_Z k.
Proof.
  intros Hk.
  pose proof (floor_bounds x) as [Hf1 Hf2].
  assert (k <= Qfloor x)%Z as Hkf.
  { rewrite <- (Qfloor_Z k). apply Qfloor_resp_le, Hk. }
  assert (inject_Z k <= inject_Z (Qfloor x)) as Hkf' by (rewrite <- Zle_Qle; exact Hkf).
  destruct (nearest_even_cases x) as [[-> H]|[-> H]].
  - split; [lia | lra].
  - split; [lia|]. rewrite inject_Z_plus. change (inject_Z 1) with 1. lra.
Qed.

Lemma nearest_even_above (x : Q) (k : Z) :
  x <= inject_Z k ->
  (nearest_even x <= k)%Z /\ x - inject_Z (nearest_even x) <= inject_Z k - x.
Proof.
  intros Hk.
  pose proof (floor_bounds x) as [Hf1 Hf2].
  assert (Qfloor x <= k)%Z as Hfk.
  { rewrite Zle_Qle. lra. }
  destruct (Z.eq_dec (Qfloor x) k) as [Heq|Hne].
  - assert (x == inject_Z (Qfloor x)) as Hx by (rewrite Heq in *; lra).
    destruct (nearest_even_cases x) as [[-> H]|[-> H]].
    + split; [lia | lra].
    + exfalso. lra.
  - assert (Qfloor x + 1 <= k)%Z as Hk1 by lia.
    assert (inject_Z (Qfloor x) + 1 <= inject_Z k) as Hk1'.
    { change 1 with (inject_Z 1). rewrite <- inject_Z_plus, <- Zle_Qle. exact Hk1. }
    destruct (nearest_even_cases x) as [[-> H]|[-> H]].
    + split; [lia | lra].
    + split; [lia|]. rewrite inject_Z_plus. change (inject_Z 1) with 1. lra.
Qed.

Lemma nearest_even_half (x : Q) :
  - (1 # 2) <= x - inject_Z (nearest_even x) <= 1 # 2.
Proof.
  pose proof (floor_bounds x) as [Hf1 Hf2].
  destruct (nearest_even_cases x) as [[-> H]|[-> H]].
  - lra.
  - rewrite inject_Z_plus. change (inject_Z 1) with 1. lra.
Qed.


(** *** Rounding a positive rational *)

Lemma pow2_53 : pow2 53 == inject_Z (2 ^ 53).
Proof. reflexivity. Qed.

Lemma pow2_52 : pow2 52 == inject_Z (2 ^ 52).
Proof. reflexivity. Qed.

Section RoundMagnitude.

Variable a : Q.
Hypothesis a_pos : 0 < a.

Abbreviation e := (exponent a).
Abbreviation E := (ulp_exponent a).
Abbreviation P := (pow2 E).
Abbreviation x := (a / P).
Abbreviation m := (nearest_even x).
Abbreviation r := (round_magnitude a).

Local Lemma P_pos : 0 < P.
Proof. apply pow2_pos. Qed.

Local Lemma a_eq : a == x * P.
Proof. pose proof P_pos. field. lra. Qed.

Local Lemma r_eq : r == inject_Z m * P.
Proof. reflexivity. Qed.

Local Lemma e_spec : pow2 e <= a < pow2 (e + 1).
Proof. apply exponent_spec, a_pos. Qed.

Local Lemma E_eq : E = (Z.max e (-1022) - 52)%Z.
Proof. reflexivity. Qed.

Local Lemma x_nonneg : 0 <= x.
Proof.
  apply Qle_shift_div_l; [apply P_pos|]. pose proof a_pos. lra.
Qed.

Local Lemma x_scale (k : Q) : k * P <= a <-> k <= x.
Proof.
  pose proof P_pos. pose proof a_eq. split; intros; nra.
Qed.

Local Lemma x_scale' (k : Q) : a <= k * P <-> x <= k.
Proof.
  pose proof P_pos. pose proof a_eq. split; intros; nra.
Qed.

Local Lemma m_nonneg : (0 <= m)%Z.
Proof. apply (nearest_even_below x 0). apply x_nonneg. Qed.

Local Lemma m_upper : (m <= 2 ^ 53)%Z.
Proof.
  apply (nearest_even_above x (2 ^ 53)).
  apply x_scale'.
  destruct e_spec as [_ Hup].
  apply Qlt_le_weak. eapply Qlt_le_trans; [exact Hup|].
  rewrite <- pow2_53. rewrite <- pow2_add.
  apply pow2_le. rewrite E_eq. lia.
Qed.

Local Lemma m_lower : (-1022 <= e)%Z -> (2 ^ 52 <= m)%Z.
Proof.
  intros He.
  apply (nearest_even_below x (2 ^ 52)).
  apply x_scale.
  destruct e_spec as [Hlo _].
  eapply Qle_trans; [|exact Hlo].
  rewrite <- pow2_52. rewrite <- pow2_add.
  apply pow2_le. rewrite E_eq. lia.
Qed.

Lemma round_magnitude_nonneg : 0 <= r.
Proof.
  rewrite r_eq. pose proof P_pos. pose proof m_nonneg as Hm.
  rewrite Zle_Qle in Hm. change (inject_Z 0) with 0 in Hm. nra.
Qed.

Lemma round_magnitude_half_ulp : - (P / 2) <= a - r <= P / 2.
Proof.
  pose proof P_pos. pose proof a_eq. pose proof (nearest_even_half x) as Hh.
  rewrite r_eq.
  assert (P / 2 == (1 # 2) * P) as -> by (field).
  split; nra.
Qed.


Local Lemma E_lower : (-1074 <= E)%Z.
Proof. rewrite E_eq. lia. Qed.

Lemma round_magnitude_representable : r < pow2 1024 -> representable r.
Proof.
  intros Hfin.
  pose proof P_pos as HP. pose proof m_upper as Hup. pose proof m_nonneg as Hm0.
  pose proof E_lower as HE.
  destruct (Z.eq_dec m (2 ^ 53)) as [Hm|Hm].
  - (* the next binade *)
    assert (r == pow2 (E + 53)) as Hr.
    { rewrite r_eq, Hm, <- pow2_53, pow2_add. ring. }
    assert (E + 53 < 1024)%Z as HE'.
    { apply (Qpower_lt_compat_l_inv 2); [|reflexivity].
      fold (pow2 (E + 53)) (pow2 1024). rewrite <- Hr. exact Hfin. }
    exists (2 ^ 52)%Z, (E + 1)%Z. split; [reflexivity|]. split; [lia|].
    rewrite Hr, <- pow2_52, <- pow2_add. replace (52 + (E + 1))%Z with (E + 53)%Z by lia.
    reflexivity.
  - exists m, E. split; [lia|]. split; [|apply r_eq].
    split; [exact HE|].
    destruct (Z_le_gt_dec E 971) as [Hle|Hgt]; [exact Hle|exfalso].
    assert (-1022 <= e)%Z as He by (rewrite E_eq in Hgt; lia).
    pose proof (m_lower He) as Hlow.
    rewrite Zle_Qle, <- pow2_52 in Hlow.
    assert (pow2 1024 <= r); [|lra].
    rewrite r_eq.
    assert (pow2 1024 <= pow2 52 * P) as H1.
    { rewrite <- pow2_add. apply pow2_le. lia. }
    pose proof (pow2_pos 52). nra.
Qed.

Lemma round_magnitude_overflow : pow2 1024 <= r -> pow2 1024 - pow2 970 <= a.
Proof.
  intros Hov.
  destruct (Z_le_gt_dec E 971) as [Hle|Hgt].
  - pose proof round_magnitude_half_ulp as [Hh _].
    assert (P <= pow2 971) as HP by (apply pow2_le; exact Hle).
    assert (pow2 971 == 2 * pow2 970) as H2 by (rewrite <- pow2_succ; reflexivity).
    assert (P / 2 <= pow2 970) by (apply Qle_shift_div_r; lra).
    lra.
  - assert (1024 <= e)%Z as He by (rewrite E_eq in Hgt; lia).
    destruct e_spec as [Hlo _].
    pose proof (pow2_le 1024 e He). pose proof (pow2_pos 970). lra.
Qed.

(** No representable number is nearer to [a] than the rounded one. *)
Lemma round_magnitude_nearest (c : Q) :
  representable c -> Qabs (a - r) <= Qabs (a - c).
Proof.
  intros (mc & ec & Hmc & Hec & Hc).
  pose proof P_pos as HP. pose proof a_eq as Ha. pose proof r_eq as Hr.
  assert (forall k : Z, c == inject_Z k * P -> Qabs (a - r) <= Qabs (a - c)) as Hgrid.
  { intros k Hk.
    destruct (Qlt_le_dec a c) as [Hlt|Hge].
    - assert (x <= inject_Z k) as Hxk by (apply x_scale'; lra).
      destruct (nearest_even_above x k Hxk) as [Hmk Hd].
      rewrite Zle_Qle in Hmk.
      rewrite (Qabs_neg (a - c)) by lra.
      apply Qabs_Qle_condition. split; nra.
    - assert (inject_Z k <= x) as Hxk by (apply x_scale; lra).
      destruct (nearest_even_below x k Hxk) as [Hmk Hd].
      rewrite Zle_Qle in Hmk.
      rewrite (Qabs_pos (a - c)) by lra.
      apply Qabs_Qle_condition. split; nra. }
  destruct (Z_le_gt_dec E ec) as [Hle|Hgt].
  - apply (Hgrid (mc * 2 ^ (ec - E))%Z).
    rewrite Hc, inject_Z_mult, <- pow2_Z by lia.
    rewrite <- Qmult_assoc, <- pow2_add.
    replace (ec - E + E)%Z with ec by lia. reflexivity.
  - (* [c] lies below the binade of [a] *)
    assert (-1022 < e)%Z as He by (rewrite E_eq in Hgt; lia).
    assert (E = e - 52)%Z as HE by (rewrite E_eq; lia).
    destruct e_spec as [Hlo _].
    assert (c < pow2 e) as Hce.
    { rewrite Hc.
      assert (inject_Z mc < pow2 53) as Hm.
      { rewrite pow2_53, <- Zlt_Qlt. lia. }
      assert (pow2 53 * pow2 ec <= pow2 e) as Hp.
      { rewrite <- pow2_add. apply pow2_le. lia. }
      pose proof (pow2_pos ec). nra. }
    assert (pow2 e == inject_Z (2 ^ 52) * P) as Hgp.
    { rewrite <- pow2_52. rewrite <- pow2_add.
      replace (52 + E)%Z with e by lia. reflexivity. }
    assert (inject_Z (2 ^ 52) <= x) as Hxk by (apply x_scale; lra).
    destruct (nearest_even_below x _ Hxk) as [Hmk Hd].
    rewrite Zle_Qle in Hmk.
    rewrite (Qabs_pos (a - c)) by lra.
    apply Qabs_Qle_condition. split; nra.
Qed.

Lemma round_magnitude_relative :
  pow2 (-1022) <= a -> P <= a * pow2 (-52).
Proof.
  intros Hn.
  assert (-1022 <= e)%Z as He.
  { destruct e_spec as [_ Hup].
    assert (pow2 (-1022) < pow2 (e + 1)) as Hlt by lra.
    apply Qpower_lt_compat_l_inv in Hlt; [lia | reflexivity]. }
  destruct e_spec as [Hlo _].
  assert (P == pow2 e * pow2 (-52)) as ->.
  { rewrite <- pow2_add. rewrite E_eq.
    replace (Z.max e (-1022) - 52)%Z with (e + -52)%Z by lia. reflexivity. }
  pose proof (pow2_pos (-52)). nra.
Qed.

End RoundMagnitude.


(** *** Representable numbers *)

#[export] Instance representable_proper : Proper (Qeq ==> iff) representable.
Proof.
  intros p q Hpq. unfold representable.
  split; intros (m & e & Hm & He & H); exists m, e; (split; [exact Hm|]);
    (split; [exact He|]); [rewrite <- Hpq | rewrite Hpq]; exact H.
Qed.

Lemma representable_opp (c : Q) : representable c -> representable (- c).
Proof.
  intros (m & e & Hm & He & H). exists (- m)%Z, e.
  split; [lia|]. split; [exact He|]. rewrite H, inject_Z_opp. ring.
Qed.

Lemma representable_Z (n : Z) : (Z.abs n < 2 ^ 53)%Z -> representable (inject_Z n).
Proof.
  intros Hn. exists n, 0%Z. split; [exact Hn|]. split; [lia|].
  change (pow2 0) with 1. ring.
Qed.

Lemma representable_bound (c : Q) :
  representable c -> Qabs c <= pow2 1024 - pow2 971.
Proof.
  intros (m & e & Hm & He & H).
  rewrite H, Qabs_Qmult, (Qabs_pos (pow2 e)) by (apply Qlt_le_weak, pow2_pos).
  assert (Qabs (inject_Z m) <= pow2 53 - 1) as Hm'.
  { unfold inject_Z. rewrite <- Zabs_Qabs. fold (inject_Z (Z.abs m)).
    rewrite pow2_53. change 1 with (inject_Z 1).
    unfold Qminus. rewrite <- inject_Z_opp, <- inject_Z_plus, <- Zle_Qle. lia. }
  assert (pow2 e <= pow2 971) as Hp by (apply pow2_le; lia).
  assert (pow2 1024 == pow2 53 * pow2 971) as -> by (rewrite <- pow2_add; reflexivity).
  pose proof (pow2_pos e). pose proof (Qabs_nonneg (inject_Z m)).
  pose proof (pow2_pos 971). nra.
Qed.

(** *** Rounding *)

Lemma round_cases (q : Q) :
  (q == 0 /\ round q = JS.Fin 0)
  \/ (~ q == 0 /\ pow2 1024 <= round_magnitude (Qabs q)
      /\ round q = JS.Inf (negb (Qle_bool 0 q)))
  \/ (~ q == 0 /\ round_magnitude (Qabs q) < pow2 1024
      /\ exists r, round q = JS.Fin r
                   /\ r == if Qle_bool 0 q then round_magnitude (Qabs q)
                           else - round_magnitude (Qabs q)).
Proof.
  unfold round.
  destruct (Qeq_bool q 0) eqn:Hz.
  - left. split; [apply Qeq_bool_iff, Hz | reflexivity].
  - right.
    assert (~ q == 0) as Hq.
    { intros H. apply Qeq_bool_iff in H. congruence. }
    destruct (Qle_bool (pow2 1024) (round_magnitude (Qabs q))) eqn:Hov.
    + left. split; [exact Hq|]. split; [apply Qle_bool_iff, Hov | reflexivity].
    + right. split; [exact Hq|]. split.
      * apply Qnot_le_lt. intros H. apply Qle_bool_iff in H. congruence.
      * eexists. split; [reflexivity|]. apply Qred_correct.
Qed.

Lemma Qabs_pos_lt (q : Q) : ~ q == 0 -> 0 < Qabs q.
Proof.
  intros Hq. destruct (Qle_lt_or_eq _ _ (Qabs_nonneg q)) as [H|H]; [exact H|].
  exfalso. apply Hq. 
  pose proof (Qle_Qabs q). pose proof (Qle_Qabs (- q)) as H2. rewrite Qabs_opp in H2. lra.
Qed.

Lemma round_not_NaN (q : Q) : round q <> JS.NaN.
Proof.
  destruct (round_cases q) as [[_ ->]|[(_ & _ & ->)|(_ & _ & r & -> & _)]]; discriminate.
Qed.

(** The rounded value is representable, and no representable number is
    nearer. *)
Theorem round_nearest (q r : Q) :
  round q = JS.Fin r ->
  representable r /\ forall c, representable c -> Qabs (q - r) <= Qabs (q - c).
Proof.
  intros Hr.
  destruct (round_cases q) as [[Hq H]|[(_ & _ & H)|(Hq & Hfin & r' & H & Hr')]];
    rewrite H in Hr; [| discriminate |]; injection Hr as <-.
  - split.
    + exists 0%Z, 0%Z. split; [reflexivity|]. split; [lia | reflexivity].
    + intros c _. rewrite Hq.
      assert (Qabs (0 - 0) == 0) as -> by reflexivity. apply Qabs_nonneg.
  - pose proof (Qabs_pos_lt q Hq) as Ha.
    split.
    + rewrite Hr'.
      pose proof (round_magnitude_representable _ Ha Hfin) as Hrep.
      destruct (Qle_bool 0 q); [exact Hrep | apply representable_opp, Hrep].
    + intros c Hc.
      pose proof (round_magnitude_nearest _ Ha) as Hn.
      destruct (Qle_bool 0 q) eqn:Hs.
      * apply Qle_bool_iff in Hs. pose proof (Qabs_pos q Hs) as Haq.
        specialize (Hn c Hc).
        rewrite (Qabs_wd (q - r') (Qabs q - round_magnitude (Qabs q))) by lra.
        rewrite (Qabs_wd (q - c) (Qabs q - c)) by lra.
        exact Hn.
      * assert (q <= 0) as Hq0.
        { apply Qlt_le_weak, Qnot_le_lt. intros Hle. apply Qle_bool_iff in Hle. congruence. }
        pose proof (Qabs_neg q Hq0) as Haq.
        specialize (Hn (- c) (representable_opp c Hc)).
        rewrite <- (Qabs_opp (q - r')), <- (Qabs_opp (q - c)).
        rewrite (Qabs_wd (- (q - r')) (Qabs q - round_magnitude (Qabs q))) by lra.
        rewrite (Qabs_wd (- (q - c)) (Qabs q - - c)) by lra.
        exact Hn.
Qed.

Theorem round_overflow (q : Q) (s : bool) :
  round q = JS.Inf s ->
  pow2 1024 - pow2 970 <= Qabs q /\ s = negb (Qle_bool 0 q).
Proof.
  intros Hr.
  destruct (round_cases q) as [[Hq H]|[(Hq & Hov & H)|(Hq & Hfin & r' & H & Hr')]];
    rewrite H in Hr; [discriminate | | discriminate]; injection Hr as <-.
  split; [|reflexivity].
  apply (round_magnitude_overflow _ (Qabs_pos_lt q Hq) Hov).
Qed.


Lemma Qle_bool_false_iff (x y : Q) : Qle_bool x y = false <-> y < x.
Proof.
  split.
  - intros H. apply Qnot_le_lt. intros Hle. apply Qle_bool_iff in Hle. congruence.
  - intros H. destruct (Qle_bool x y) eqn:E; [|reflexivity].
    apply Qle_bool_iff in E. lra.
Qed.

Lemma pow2_971 : pow2 971 == 2 * pow2 970.
Proof. rewrite <- pow2_succ. reflexivity. Qed.

(** Rounding never fails below the overflow threshold. *)
Theorem round_finite (q : Q) :
  Qabs q < pow2 1024 - pow2 970 -> exists r, round q = JS.Fin r.
Proof.
  intros Hq. destruct (round q) as [| s | r] eqn:Hr.
  - exfalso. exact (round_not_NaN q Hr).
  - exfalso. apply round_overflow in Hr. lra.
  - exists r. reflexivity.
Qed.

(** A representable number is its own rounding. *)
Theorem round_exact (q : Q) :
  representable q -> exists r, round q = JS.Fin r /\ r == q.
Proof.
  intros Hq.
  pose proof (representable_bound q Hq) as Hb.
  pose proof pow2_971 as H2. pose proof (pow2_pos 970) as Hp.
  destruct (round_finite q) as [r Hr]; [lra|].
  exists r. split; [exact Hr|].
  destruct (round_nearest q r Hr) as [_ Hn].
  specialize (Hn q Hq).
  assert (Qabs (q - q) == 0) as Hz by (rewrite (Qabs_wd (q - q) 0) by ring; reflexivity).
  rewrite Hz in Hn.
  apply Qabs_Qle_condition in Hn. lra.
Qed.

(** Rounding keeps the order against representable numbers. *)
Theorem round_le (q c : Q) :
  representable c -> q <= c -> le (round q) c = true.
Proof.
  intros Hc Hqc.
  destruct (round q) as [| s | r] eqn:Hr; cbn [le].
  - exfalso. exact (round_not_NaN q Hr).
  - apply round_overflow in Hr. destruct Hr as [Hov ->].
    destruct (Qle_bool 0 q) eqn:Hs; [exfalso | reflexivity].
    apply Qle_bool_iff in Hs. rewrite (Qabs_pos q Hs) in Hov.
    pose proof (representable_bound c Hc) as Hb.
    pose proof (Qle_Qabs c). pose proof pow2_971. pose proof (pow2_pos 970). lra.
  - apply Qle_bool_iff. apply Qnot_lt_le. intros Hlt.
    destruct (round_nearest q r Hr) as [_ Hn]. specialize (Hn c Hc).
    rewrite (Qabs_neg (q - c)) in Hn by lra.
    apply Qabs_Qle_condition in Hn. lra.
Qed.

Theorem round_ge (q c : Q) :
  representable c -> c <= q -> ge (round q) c = true.
Proof.
  intros Hc Hqc.
  destruct (round q) as [| s | r] eqn:Hr; cbn [ge].
  - exfalso. exact (round_not_NaN q Hr).
  - apply round_overflow in Hr. destruct Hr as [Hov ->].
    destruct (Qle_bool 0 q) eqn:Hs; [reflexivity | exfalso].
    apply Qle_bool_false_iff in Hs.
    rewrite (Qabs_neg q) in Hov by lra.
    pose proof (representable_bound c Hc) as Hb.
    pose proof (Qle_Qabs (- c)) as Hc'. rewrite Qabs_opp in Hc'.
    pose proof pow2_971. pose proof (pow2_pos 970). lra.
  - apply Qle_bool_iff. apply Qnot_lt_le. intros Hlt.
    destruct (round_nearest q r Hr) as [_ Hn]. specialize (Hn c Hc).
    rewrite (Qabs_pos (q - c)) in Hn by lra.
    apply Qabs_Qle_condition in Hn. lra.
Qed.

(** In the normal range the relative error is at most 2^-53. *)
Theorem round_relative (q r : Q) :
  pow2 (-1022) <= Qabs q -> round q = JS.Fin r ->
  Qabs (r - q) <= Qabs q * pow2 (-53).
Proof.
  intros Hn Hr.
  destruct (round_cases q) as [[Hq H]|[(_ & _ & H)|(Hq & Hfin & r' & H & Hr')]];
    rewrite H in Hr; [| discriminate |]; injection Hr as <-.
  - exfalso. rewrite Hq in Hn. pose proof (pow2_pos (-1022)).
    change (Qabs 0) with 0 in Hn. lra.
  - pose proof (Qabs_pos_lt q Hq) as Ha.
    pose proof (round_magnitude_half_ulp (Qabs q)) as Hh.
    pose proof (round_magnitude_relative _ Ha Hn) as Hrel.
    assert (pow2 (-52) == 2 * pow2 (-53)) as H2 by (rewrite <- pow2_succ; reflexivity).
    cbv zeta in Hh, Hrel.
    set (P := pow2 (ulp_exponent (Qabs q))) in *.
    set (rm := round_magnitude (Qabs q)) in *.
    assert (P / 2 <= Qabs q * pow2 (-53)) as Hb.
    { apply Qle_shift_div_r; [reflexivity|]. rewrite H2 in Hrel. nra. }
    destruct (Qle_bool 0 q) eqn:Hs.
    + apply Qle_bool_iff in Hs. pose proof (Qabs_pos q Hs) as Haq.
      apply Qabs_Qle_condition. lra.
    + apply Qle_bool_false_iff in Hs. pose proof (Qabs_neg q (Qlt_le_weak _ _ Hs)) as Haq.
      apply Qabs_Qle_condition. lra.
Qed.


(** Ties go to the even significand, the largest double is
    2^1024 - 2^971, the smallest 2^-1074, and the rounding agrees with the
    one [parseInt] applies to a digit string. *)
Example round_examples :
  round (inject_Z (2 ^ 53 + 1)) = JS.Fin (inject_Z (2 ^ 53))
  /\ round (inject_Z (2 ^ 53 + 3)) = JS.Fin (inject_Z (2 ^ 53 + 4))
  /\ round (1 # 10) = JS.Fin (3602879701896397 # 36028797018963968)
  /\ round (- (1 # 10)) = JS.Fin (- (3602879701896397 # 36028797018963968))
  /\ round (inject_Z (2 ^ 1024 - 2 ^ 970 - 1)) = JS.Fin (inject_Z (2 ^ 1024 - 2 ^ 971))
  /\ round (inject_Z (2 ^ 1024 - 2 ^ 970)) = JS.Inf false
  /\ round (- inject_Z (2 ^ 1024)) = JS.Inf true
  /\ round (pow2 (-1075)) = JS.Fin 0
  /\ round (3 * pow2 (-1075)) = JS.Fin (Qred (pow2 (-1073)))
  /\ round (inject_Z 9007199254740993) = JS.round_to_double 9007199254740993
  /\ round (inject_Z (10 ^ 400)) = JS.round_to_double (10 ^ 400).
Proof. repeat split; vm_compute; reflexivity. Qed.

(** *** Addition *)

Lemma representable_0 : representable 0.
Proof. exists 0%Z, 0%Z. split; [reflexivity|]. split; [lia | reflexivity]. Qed.

Lemma round_representable (q r : Q) : round q = JS.Fin r -> representable r.
Proof. intros H. apply (round_nearest q r H). Qed.

Lemma Zlt_of_Qlt_pow2 (k : Z) (p : Z) :
  (0 <= p)%Z -> Qabs (inject_Z k) < pow2 p -> (Z.abs k < 2 ^ p)%Z.
Proof.
  intros Hp H. rewrite pow2_Z in H by exact Hp.
  unfold inject_Z in H at 1. rewrite <- Zabs_Qabs in H. fold (inject_Z (Z.abs k)) in H.
  rewrite <- Zlt_Qlt in H. exact H.
Qed.

(** Every double is a multiple of 2^-1074. *)
Lemma representable_grid (c : Q) : representable c -> on_grid 1074 c.
Proof.
  intros (m & e & Hm & He & H). exists (m * 2 ^ (e + 1074))%Z.
  rewrite H, inject_Z_mult, <- pow2_Z by lia.
  rewrite <- Qmult_assoc, <- pow2_add.
  replace (e + 1074 + - (1074))%Z with e by lia. reflexivity.
Qed.

#[export] Instance on_grid_proper p : Proper (Qeq ==> iff) (on_grid p).
Proof.
  intros x y Hxy. unfold on_grid.
  split; intros [n H]; exists n; [rewrite <- Hxy | rewrite Hxy]; exact H.
Qed.

Lemma on_grid_plus (p : Z) (x y : Q) : on_grid p x -> on_grid p y -> on_grid p (x + y).
Proof.
  intros [n Hn] [k Hk]. exists (n + k)%Z. rewrite Hn, Hk, inject_Z_plus. ring.
Qed.

(** A multiple of 2^-p below 2^(53-p) is a double. *)
Lemma on_grid_representable (p : Z) (x : Q) :
  (-971 <= p <= 1074)%Z -> on_grid p x -> Qabs x * pow2 p < pow2 53 -> representable x.
Proof.
  intros Hp [n Hn] Hb. exists n, (- p)%Z.
  split; [|split; [lia | exact Hn]].
  apply Zlt_of_Qlt_pow2; [lia|].
  assert (Qabs x * pow2 p == Qabs (inject_Z n)) as <-; [|exact Hb].
  rewrite Hn, Qabs_Qmult, (Qabs_pos (pow2 (- p))) by (apply Qlt_le_weak, pow2_pos).
  rewrite <- Qmult_assoc, <- pow2_add. replace (- p + p)%Z with 0%Z by lia.
  change (pow2 0) with 1. ring.
Qed.

(** The sum of two doubles is rounded with a relative error of at most
    2^-53: below the normal range it is exact. *)
Lemma add_relative (a b : Q) :
  representable a -> representable b -> Qabs (a + b) < pow2 1023 ->
  exists r, round (a + b) = JS.Fin r /\ representable r
            /\ Qabs (r - (a + b)) <= Qabs (a + b) * pow2 (-53).
Proof.
  intros Ha Hb Hfin.
  destruct (Qlt_le_dec (Qabs (a + b)) (pow2 (-1022))) as [Hsub|Hnorm].
  - assert (representable (a + b)) as Hrep.
    { apply (on_grid_representable 1074); [lia | |].
      - apply on_grid_plus; apply representable_grid; assumption.
      - assert (pow2 53 == pow2 (-1021) * pow2 1074) as -> by (rewrite <- pow2_add; reflexivity).
        assert (pow2 (-1022) < pow2 (-1021)) by (apply pow2_lt; lia).
        pose proof (pow2_pos 1074). pose proof (Qabs_nonneg (a + b)). nra. }
    destruct (round_exact _ Hrep) as (r & Hr & Heq).
    exists r. split; [exact Hr|]. split; [apply (round_representable _ _ Hr)|].
    rewrite (Qabs_wd (r - (a + b)) 0) by lra.
    change (Qabs 0) with 0. pose proof (pow2_pos (-53)). pose proof (Qabs_nonneg (a + b)). nra.
  - destruct (round_finite (a + b)) as [r Hr].
    { assert (pow2 1024 == 2 * pow2 1023) as H1 by (rewrite <- pow2_succ; reflexivity).
      assert (pow2 970 < pow2 1023) by (apply pow2_lt; lia). lra. }
    exists r. split; [exact Hr|]. split; [apply (round_representable _ _ Hr)|].
    apply round_relative; assumption.
Qed.


(** *** Sums *)

Lemma exact_sum_cons (v : Q) (vals : list Q) : exact_sum (v :: vals) = v + exact_sum vals.
Proof. reflexivity. Qed.

Lemma sum_abs_cons (v : Q) (vals : list Q) : sum_abs (v :: vals) = Qabs v + sum_abs vals.
Proof. reflexivity. Qed.

Lemma sum_abs_nonneg (vals : list Q) : 0 <= sum_abs vals.
Proof.
  induction vals as [|v vals IH]; [apply Qle_refl|].
  rewrite sum_abs_cons. pose proof (Qabs_nonneg v). lra.
Qed.

Lemma exact_sum_le_abs (vals : list Q) : Qabs (exact_sum vals) <= sum_abs vals.
Proof.
  induction vals as [|v vals IH]; [apply Qle_refl|].
  rewrite exact_sum_cons, sum_abs_cons.
  eapply Qle_trans; [apply Qabs_triangle|]. lra.
Qed.

(** The total so far is a double, whatever the values. *)
Lemma sum_values_representable (vals : list Q) (t : Q) :
  sum_values vals = JS.Fin t -> representable t.
Proof.
  unfold sum_values.
  destruct vals as [|v vals _] using rev_ind.
  - intros [= <-]. apply representable_0.
  - rewrite fold_left_app. cbn [fold_left].
    destruct (fold_left _ vals _) as [| s | acc]; cbn [add]; try discriminate.
    apply round_representable.
Qed.

(** On a grid fine enough for the magnitudes, every addition is exact. *)
Lemma fold_add_exact (p : Z) (vals : list Q) (acc : Q) :
  (-971 <= p <= 1074)%Z ->
  on_grid p acc -> Forall (on_grid p) vals ->
  (Qabs acc + sum_abs vals) * pow2 p < pow2 53 ->
  exists t, fold_left (fun sum val => add sum (JS.Fin val)) vals (JS.Fin acc) = JS.Fin t
            /\ t == acc + exact_sum vals.
Proof.
  intros Hp. revert acc.
  induction vals as [|v vals IH]; intros acc Hacc Hvals Hb.
  - exists acc. split; [reflexivity|]. cbn. ring.
  - apply Forall_cons in Hvals. destruct Hvals as [Hv Hvals].
    rewrite sum_abs_cons in Hb. rewrite exact_sum_cons.
    pose proof (pow2_pos p) as HP. pose proof (sum_abs_nonneg vals) as Hs.
    pose proof (Qabs_triangle acc v) as Htri.
    assert (representable (acc + v)) as Hrep.
    { apply (on_grid_representable p); [exact Hp | apply on_grid_plus; assumption |].
      nra. }
    destruct (round_exact _ Hrep) as (r & Hr & Heq).
    cbn [fold_left add]. rewrite Hr.
    destruct (IH r) as (t & Ht & Hteq).
    + rewrite Heq. apply on_grid_plus; assumption.
    + exact Hvals.
    + rewrite (Qabs_wd r (acc + v)) by exact Heq. nra.
    + exists t. split; [exact Ht|]. rewrite Hteq, Heq. ring.
Qed.

Theorem sum_values_exact (p : Z) (vals : list Q) :
  (-971 <= p <= 1074)%Z ->
  Forall (on_grid p) vals ->
  sum_abs vals * pow2 p < pow2 53 ->
  exists t, sum_values vals = JS.Fin t /\ t == exact_sum vals.
Proof.
  intros Hp Hvals Hb.
  destruct (fold_add_exact p vals 0 Hp) as (t & Ht & Heq).
  - exists 0%Z. ring.
  - exact Hvals.
  - change (Qabs 0) with 0. lra.
  - exists t. split; [exact Ht|]. rewrite Heq. ring.
Qed.

(** In general the total differs from the exact sum by at most
    2^-52 times the number of values times the sum of their
    magnitudes. *)
Lemma fold_add_error (vals : list Q) (acc S A k : Q) :
  representable acc -> Forall representable vals ->
  0 <= k -> 0 <= A ->
  Qabs (acc - S) <= k * A * pow2 (-52) ->
  Qabs S <= A ->
  (k + inject_Z (Z.of_nat (length vals))) * pow2 (-52) <= 1 ->
  A + sum_abs vals < pow2 1021 ->
  exists t, fold_left (fun sum val => add sum (JS.Fin val)) vals (JS.Fin acc) = JS.Fin t
            /\ Qabs (t - (S + exact_sum vals))
               <= (k + inject_Z (Z.of_nat (length vals))) * (A + sum_abs vals) * pow2 (-52).
Proof.
  revert acc S A k.
  induction vals as [|v vals IH]; intros acc S A k Hacc Hvals Hk HA Herr HS Hn Hfin.
  - exists acc. split; [reflexivity|].
    cbn [length exact_sum sum_abs foldr fmap list_fmap Z.of_nat].
    rewrite (Qabs_wd (acc - (S + 0)) (acc - S)) by ring.
    change (inject_Z 0) with 0.
    setoid_replace ((k + 0) * (A + 0) * pow2 (-52)) with (k * A * pow2 (-52)) using relation Qeq by ring.
    exact Herr.
  - apply Forall_cons in Hvals. destruct Hvals as [Hv Hvals].
    rewrite sum_abs_cons in Hfin |- *. rewrite exact_sum_cons.
    cbn [length] in Hn |- *. rewrite Nat2Z.inj_succ, <- Z.add_1_r, inject_Z_plus in Hn |- *.
    change (inject_Z 1) with 1 in Hn |- *.
    set (n := inject_Z (Z.of_nat (length vals))) in *.
    assert (0 <= n) as Hn0.
    { unfold n. change 0 with (inject_Z 0). rewrite <- Zle_Qle. lia. }
    pose proof (pow2_pos (-52)) as Hu. pose proof (sum_abs_nonneg vals) as Hs.
    pose proof (Qabs_nonneg v) as Hv0.
    assert (pow2 (-52) == 2 * pow2 (-53)) as H2 by (rewrite <- pow2_succ; reflexivity).
    pose proof (pow2_pos (-53)) as Hu'.
    (* the magnitude of the accumulator *)
    assert (Qabs acc <= 2 * A) as Hacc2.
    { apply Qabs_Qle_condition in Herr. apply Qabs_Qle_condition in HS.
      apply Qabs_Qle_condition.
      assert (k * pow2 (-52) <= 1) as Hku by nra.
      assert (k * A * pow2 (-52) <= A) as HkA.
      { pose proof (Qmult_le_compat_r _ _ A Hku HA). lra. }
      lra. }
    assert (Qabs (acc + v) <= 2 * (A + Qabs v)) as Hsum.
    { eapply Qle_trans; [apply Qabs_triangle|]. lra. }
    destruct (add_relative acc v Hacc Hv) as (r & Hr & Hrep & Hrel).
    { assert (pow2 1023 == 4 * pow2 1021) as -> by reflexivity. lra. }
    cbn [fold_left add]. rewrite Hr.
    destruct (IH r (S + v) (A + Qabs v) (k + 1)) as (t & Ht & Hbound).
    + exact Hrep.
    + exact Hvals.
    + lra.
    + lra.
    + apply Qabs_Qle_condition in Herr. apply Qabs_Qle_condition in Hrel.
      apply Qabs_Qle_condition.
      assert (Qabs (acc + v) * pow2 (-53) <= (A + Qabs v) * pow2 (-52)) as H3.
      { pose proof (Qmult_le_compat_r _ _ (pow2 (-53)) Hsum (Qlt_le_weak _ _ Hu')).
        rewrite H2. lra. }
      assert (0 <= k * Qabs v * pow2 (-52)) as H4.
      { apply Qmult_le_0_compat; [apply Qmult_le_0_compat|]; lra. }
      split; lra.
    + eapply Qle_trans; [apply Qabs_triangle|]. lra.
    + lra.
    + lra.
    + exists t. split; [exact Ht|].
      rewrite (Qabs_wd (t - (S + (v + exact_sum vals))) (t - (S + v + exact_sum vals))) by ring.
      eapply Qle_trans; [exact Hbound|].
      apply Qle_lteq. right. ring.
Qed.

Theorem sum_values_error (vals : list Q) :
  Forall representable vals ->
  (Z.of_nat (length vals) <= 2 ^ 52)%Z ->
  sum_abs vals < pow2 1021 ->
  exists t, sum_values vals = JS.Fin t
            /\ Qabs (t - exact_sum vals)
               <= inject_Z (Z.of_nat (length vals)) * sum_abs vals * pow2 (-52).
Proof.
  intros Hvals Hlen Hfin.
  destruct (fold_add_error vals 0 0 0 0) as (t & Ht & Hb).
  - apply representable_0.
  - exact Hvals.
  - apply Qle_refl.
  - apply Qle_refl.
  - apply Qle_lteq. right. reflexivity.
  - apply Qle_refl.
  - rewrite Qplus_0_l.
    rewrite Zle_Qle, <- pow2_52 in Hlen.
    assert (pow2 52 * pow2 (-52) == 1) as H1 by reflexivity.
    pose proof (pow2_pos (-52)). nra.
  - lra.
  - exists t. split; [exact Ht|].
    rewrite (Qabs_wd (t - exact_sum vals) (t - (0 + exact_sum vals))) by ring.
    eapply Qle_trans; [exact Hb|]. apply Qle_lteq. right. ring.
Qed.

End DoubleFacts.

(** ** validateWeights *)

Section ValidateWeights.
Import Helpers Samples Double.
Local Open Scope Q_scope.

Lemma hasZero_false_iff (vals : list Q) :
  existsb (fun val => Qeq_bool val 0) vals = false <->
  Forall (fun val => ~ val == 0) vals.
Proof.
  induction vals as [|v vals IH]; simpl.
  - split; [constructor | reflexivity].
  - rewrite orb_false_iff, IH, Forall_cons.
    apply and_iff_compat_r.
    split.
    + intros Hb Hv. apply Qeq_bool_iff in Hv. congruence.
    + intros Hv. destruct (Qeq_bool v 0) eqn:E; [|reflexivity].
      exfalso. apply Hv, Qeq_bool_iff, E.
Qed.

Lemma isValid_unfold (w : Weights) :
  isValid (validateWeights w) =
  (ge (sum_values (Object_values w)) 99 && le (sum_values (Object_values w)) 101)
  && negb (existsb (fun val => Qeq_bool val 0) (Object_values w)).
Proof. reflexivity. Qed.

Lemma total_is_sum (w : Weights) :
  total (validateWeights w) = sum_values (Object_values w).
Proof. reflexivity. Qed.

(** [x >= lo && x <= hi] holds of the finite numbers in between only. *)
Lemma between_iff (x : JS.number) (lo hi : Q) :
  ge x lo && le x hi = true <-> exists t, x = JS.Fin t /\ lo <= t <= hi.
Proof.
  destruct x as [| s | t]; cbn [ge le].
  - split; [discriminate | intros (t & [=] & _)].
  - split; [destruct s; discriminate | intros (t & [=] & _)].
  - rewrite andb_true_iff, !Qle_bool_iff. split.
    + intros H. exists t. split; [reflexivity | exact H].
    + intros (t' & [= <-] & H). exact H.
Qed.

Lemma isValid_true_iff (w : Weights) :
  isValid (validateWeights w) = true <->
  (exists t, sum_values (Object_values w) = JS.Fin t /\ 99 <= t <= 101) /\
  Forall (fun val => ~ val == 0) (Object_values w).
Proof.
  rewrite isValid_unfold, andb_true_iff, negb_true_iff.
  rewrite between_iff, hasZero_false_iff. tauto.
Qed.

Example validateWeights_home_page :
  isValid (validateWeights home_page_weights) = true
  /\ total (validateWeights home_page_weights) = JS.Fin 100.
Proof. split; vm_compute; reflexivity. Qed.

Example validateWeights_sum_90 :
  validateWeights [("Harga", 50); ("RAM", 40)]%string =
  {| isValid := false; total := JS.Fin 90; hasZero := false;
     message := "Total bobot harus 100% (saat ini: 90.0%)" |}.
Proof. vm_compute. reflexivity. Qed.

Example validateWeights_sum_110 :
  isValid (validateWeights [("Harga", 60); ("RAM", 50)]%string) = false.
Proof. vm_compute. reflexivity. Qed.

Example validateWeights_with_zero :
  validateWeights [("Harga", 100); ("RAM", 0)]%string =
  {| isValid := false; total := JS.Fin 100; hasZero := true;
     message := "Tidak boleh ada bobot bernilai 0" |}.
Proof. vm_compute. reflexivity. Qed.

(** 50.1 + 50.1 is the double 100.2. *)
Example validateWeights_sum_100_2 :
  let w := [("Harga", literal (501 # 10)); ("RAM", literal (501 # 10))]%string in
  isValid (validateWeights w) = true
  /\ total (validateWeights w) = JS.Fin (literal (1002 # 10)).
Proof. split; vm_compute; reflexivity. Qed.

(** The total depends on the order of the keys: the same five weights,
    the first one moved to the end, add up to 101 exactly. *)
Example validateWeights_order :
  total (validateWeights decimal_weights)
  = JS.Fin (7107243161944065 # 70368744177664)
  /\ isValid (validateWeights (drop 1 decimal_weights ++ take 1 decimal_weights)) = true
  /\ total (validateWeights (drop 1 decimal_weights ++ take 1 decimal_weights))
     = JS.Fin 101.
Proof. repeat split; vm_compute; reflexivity. Qed.

(** Large values that cancel lose the small ones on the way: these
    weights sum to 90, total 100 and are reported valid, so a bound on
    the magnitudes is needed to reject every vector summing to 90. *)
Example validateWeights_cancellation :
  let w := [("Harga", inject_Z (2 ^ 60)); ("RAM", -10); ("Storage", - inject_Z (2 ^ 60));
            ("Baterai", 100)]%string in
  exact_sum (Object_values w) == 90
  /\ total (validateWeights w) = JS.Fin 100
  /\ isValid (validateWeights w) = true.
Proof. repeat split; vm_compute; reflexivity. Qed.

Lemma literal_representable (q : Q) :
  Qabs q < pow2 1024 - pow2 970 -> representable (literal q).
Proof.
  intros Hq. unfold literal.
  destruct (round_finite q Hq) as [r Hr]. rewrite Hr.
  apply (round_representable q r Hr).
Qed.

Lemma decimal_weights_are_doubles :
  Forall representable (Object_values decimal_weights).
Proof.
  repeat constructor;
    first [ apply (representable_Z 21); reflexivity
          | apply (representable_Z 16); reflexivity
          | apply literal_representable; reflexivity ].
Qed.

(** C1, as stated, fails: the doubles 21, 24.2, 16, 23.6 and 16.2 sum
    to 101 exactly and none is 0, but added from left to right in double
    precision they give 101.00000000000001, and the weights are reported
    invalid. *)
Lemma validateWeights_exact_sum_counterexample :
  ~ (forall w : Weights,
       isValid (validateWeights w) = true <->
       99 <= exact_sum (Object_values w) <= 101
       /\ Forall (fun val => ~ val == 0) (Object_values w)).
Proof.
  intros H. destruct (H decimal_weights) as [_ Hvalid].
  assert (isValid (validateWeights decimal_weights) = false) as Hinvalid
    by (vm_compute; reflexivity).
  rewrite Hvalid in Hinvalid; [discriminate|].
  split; [split; vm_compute; discriminate|].
  repeat constructor; vm_compute; discriminate.
Qed.

(** C1 (amended).  [validateWeights w] reports [isValid = true] exactly
    when the total it computes, the values added from left to right in
    double precision, is a number in [99,101] and no value equals 0; a
    vector containing a 0 is rejected.  For values on a common binary
    grid fine enough for their magnitudes (integers, halves, quarters,
    ...) every addition is exact, the total is the sum of the values and
    the validity is that of the sum.  For any doubles (up to 2^20 of
    them, their magnitudes summing to at most 2^20) the total differs
    from the sum by at most 2^-12: a sum of at most 98.999 (90, say) or
    at least 101.001 (110, say) is rejected, and a sum from 99.001 to
    100.999 (100.2, say) without zero entry is accepted. *)
Theorem validateWeights_isValid_iff (w : Weights) :
  let values := Object_values w in
  let valid := isValid (validateWeights w) in
  let no_zero := Forall (fun val => ~ val == 0) values in
  (valid = true <->
   (exists t, total (validateWeights w) = JS.Fin t /\ 99 <= t <= 101) /\ no_zero)
  /\ (Exists (fun val => val == 0) values -> valid = false)
  /\ (forall p : Z,
        (0 <= p <= 1074)%Z ->
        Forall (on_grid p) values ->
        sum_abs values * pow2 p < pow2 53 ->
        (exists t, total (validateWeights w) = JS.Fin t /\ t == exact_sum values)
        /\ (valid = true <-> 99 <= exact_sum values <= 101 /\ no_zero))
  /\ (Forall representable values ->
      (Z.of_nat (length values) <= 2 ^ 20)%Z ->
      sum_abs values <= pow2 20 ->
      (exists t, total (validateWeights w) = JS.Fin t
                 /\ Qabs (t - exact_sum values) <= pow2 (-12))
      /\ (exact_sum values <= 98999 # 1000 -> valid = false)
      /\ (101001 # 1000 <= exact_sum values -> valid = false)
      /\ (99001 # 1000 <= exact_sum values <= 100999 # 1000 -> no_zero ->
          valid = true)).
Proof.
  intros values valid no_zero. subst values valid no_zero.
  pose proof (isValid_true_iff w) as Hiff. rewrite total_is_sum.
  split; [exact Hiff|].
  split.
  { intros Hz. apply not_true_is_false. intros Hv.
    apply Hiff in Hv. destruct Hv as [_ Hnz].
    apply Exists_exists in Hz. destruct Hz as [v [Hin Hv0]].
    rewrite Forall_forall in Hnz. exact (Hnz v Hin Hv0). }
  split.
  { intros p Hp Hgrid Hb.
    destruct (sum_values_exact p (Object_values w)) as (t & Ht & Heq);
      [lia | exact Hgrid | exact Hb |].
    split; [exists t; split; assumption|].
    rewrite Hiff, Ht. split.
    - intros [(t' & [= <-] & Hr) Hnz]. rewrite <- Heq. split; assumption.
    - intros [Hr Hnz]. split; [|exact Hnz]. exists t.
      split; [reflexivity | rewrite Heq; exact Hr]. }
  intros Hrep Hlen Hmag.
  destruct (sum_values_error (Object_values w)) as (t & Ht & Herr).
  { exact Hrep. }
  { lia. }
  { assert (pow2 20 < pow2 1021) by (apply pow2_lt; lia). lra. }
  assert (Qabs (t - exact_sum (Object_values w)) <= pow2 (-12)) as Hbound.
  { eapply Qle_trans; [exact Herr|].
    rewrite Zle_Qle in Hlen.
    assert (inject_Z (2 ^ 20) == pow2 20) as H20 by reflexivity.
    assert (pow2 (-12) == pow2 20 * pow2 20 * pow2 (-52)) as -> by reflexivity.
    pose proof (sum_abs_nonneg (Object_values w)) as Hs.
    pose proof (pow2_pos (-52)) as Hu. pose proof (pow2_pos 20) as H20p.
    assert (0 <= inject_Z (Z.of_nat (length (Object_values w)))) as Hn0.
    { change 0 with (inject_Z 0). rewrite <- Zle_Qle. lia. }
    apply Qmult_le_compat_r; [|lra].
    eapply Qle_trans; [apply Qmult_le_compat_r; [exact Hlen | exact Hs]|].
    rewrite H20. apply Qmult_le_l; [exact H20p | exact Hmag]. }
  assert (pow2 (-12) == 1 # 4096) as H12 by reflexivity.
  rewrite H12 in Hbound. apply Qabs_Qle_condition in Hbound.
  split; [exists t; split; [exact Ht|]; rewrite H12; apply Qabs_Qle_condition; exact Hbound|].
  rewrite Hiff, Ht.
  split; [|split].
  - intros Hs. apply not_true_is_false. rewrite Hiff, Ht.
    intros [(t' & [= <-] & Hr) _]. lra.
  - intros Hs. apply not_true_is_false. rewrite Hiff, Ht.
    intros [(t' & [= <-] & Hr) _]. lra.
  - intros Hs Hnz. split; [|exact Hnz]. exists t. split; [reflexivity | lra].
Qed.

Lemma validateWeights_isValid_iff_witness :
  let values := Object_values home_page_weights in
  Forall (on_grid 0) values
  /\ Forall representable values
  /\ exact_sum values == 100
  /\ (exists t, total (validateWeights home_page_weights) = JS.Fin t
                /\ t == exact_sum values)
  /\ isValid (validateWeights home_page_weights) = true.
Proof.
  intros values.
  assert (Forall (on_grid 0) values) as Hgrid.
  { repeat constructor;
      match goal with
      | |- on_grid 0 (inject_Z ?n) => exists n; change (pow2 (- 0)) with 1; ring
      | |- on_grid 0 ?q => exists (Qnum q); vm_compute; reflexivity
      end. }
  assert (Forall representable values) as Hrep.
  { repeat constructor;
      match goal with
      | |- representable ?q => exists (Qnum q), 0%Z; vm_compute; repeat split; discriminate
      end. }
  assert (exact_sum values == 100) as Hsum by reflexivity.
  destruct (validateWeights_isValid_iff home_page_weights) as (_ & _ & Hexact & Herr).
  destruct (Hexact 0%Z) as [Htotal Hvalid]; [lia | exact Hgrid | reflexivity |].
  destruct Herr as (_ & _ & _ & Haccept); [exact Hrep | vm_compute; discriminate
                                           | vm_compute; discriminate |].
  split; [exact Hgrid|]. split; [exact Hrep|]. split; [exact Hsum|].
  split; [exact Htotal|].
  apply Haccept.
  - fold values. rewrite Hsum. split; discriminate.
  - repeat constructor; discriminate.
Defined.

End ValidateWeights.

(** ** saveWeights *)

Section SaveWeights.
Import Helpers Admin.

Variable server_accepts : Weights -> bool.


Lemma requests_app (t1 t2 : list Effect) :
  requests (t1 ++ t2) = requests t1 ++ requests t2.
Proof. apply filter_app. Qed.

(** With valid weights the handler does send them, once, and records
    them as the saved ones when the server accepts. *)
Lemma saveWeights_valid (w : World) :
  isValid (validateWeights (weights (state w))) = true ->
  let ws := weights (state w) in
  let w' := snd (saveWeights server_accepts w) in
  requests (trace w') = requests (trace w) ++ [UpdateWeights ws]
  /\ saving (state w') = false
  /\ originalWeights (state w') =
     (if server_accepts ws then ws else originalWeights (state w)).
Proof.
  intros Hv ws w'. subst ws w'.
  unfold saveWeights, mbind, M_bind, getWeights. cbn beta iota.
  rewrite Hv. cbn [negb].
  unfold try_catch_finally, adminAPI_updateWeights, mbind, M_bind,
    setSaving, setOriginalWeights, emit, settle.
  cbn [state trace weights originalWeights saving].
  destruct (server_accepts (weights (state w)));
    cbn [state trace weights originalWeights saving snd];
    rewrite ?requests_app, <- ?app_assoc; cbn;
    rewrite ?app_nil_r; auto.
Qed.

(** C5.  When [validateWeights] reports the current weights invalid,
    [saveWeights] returns after the error toast: no request reaches
    [adminAPI.updateWeights], and the component state, [originalWeights]
    included, is what it was. *)
Theorem saveWeights_invalid_blocks_save (w : World) :
  isValid (validateWeights (weights (state w))) = false ->
  let validation := validateWeights (weights (state w)) in
  let '(outcome, w') := saveWeights server_accepts w in
  outcome = Returned tt
  /\ trace w' = trace w ++ [ToastError (message validation)]
  /\ requests (trace w') = requests (trace w)
  /\ (forall ws, UpdateWeights ws ∈ trace w' -> UpdateWeights ws ∈ trace w)
  /\ originalWeights (state w') = originalWeights (state w)
  /\ state w' = state w.
Proof.
  intros Hinv validation. subst validation.
  unfold saveWeights, mbind, M_bind, getWeights. cbn beta iota.
  rewrite Hinv. cbn [negb]. unfold emit. cbn [state trace].
  repeat split.
  - rewrite requests_app. cbn. apply app_nil_r.
  - intros ws Hin. apply elem_of_app in Hin. destruct Hin as [Hin|Hin].
    + exact Hin.
    + apply list_elem_of_singleton in Hin. discriminate.
Qed.

End SaveWeights.

Lemma saveWeights_invalid_blocks_save_witness :
  let w := {| Admin.state := {| Admin.weights := [("Harga", 50%Q); ("RAM", 40%Q)]%string;
                                Admin.originalWeights := Samples.home_page_weights;
                                Admin.saving := false |};
              Admin.trace := [] |} in
  Admin.originalWeights (Admin.state (snd (Admin.saveWeights (fun _ => true) w)))
  = Samples.home_page_weights
  /\ Admin.requests (Admin.trace (snd (Admin.saveWeights (fun _ => true) w))) = [].
Proof.
  intros w.
  pose proof (saveWeights_invalid_blocks_save (fun _ => true) w eq_refl) as H.
  destruct (Admin.saveWeights (fun _ => true) w) as [o w'].
  destruct H as (_ & _ & Hreq & _ & Horig & _).
  split; [exact Horig | exact Hreq].
Defined.

(** ** validateWeights and the range of a weight *)

(** A single weight of 101 is reported valid: the tolerance on the
    total is the only upper bound. *)
Example validateWeights_single_101 :
  Helpers.isValid (Helpers.validateWeights [("Harga", 101%Q)]%string) = true.
Proof. vm_compute. reflexivity. Qed.

(** C4.  The weights -50 and 150 lie outside (0,100], yet they total
    100 and none is 0: [validateWeights] reports them valid, and
    [saveWeights] sends them to the server and records them as the saved
    weights. *)
Theorem validateWeights_accepts_out_of_range :
  let w := Samples.out_of_range_weights in
  let world := {| Admin.state := {| Admin.weights := w;
                                    Admin.originalWeights := Samples.home_page_weights;
                                    Admin.saving := false |};
                  Admin.trace := [] |} in
  Helpers.Object_values w = [(-50)%Q; 150%Q]
  /\ ~ Forall (fun val => (0 < val <= 100)%Q) (Helpers.Object_values w)
  /\ Helpers.validateWeights w
     = {| Helpers.isValid := true; Helpers.total := JS.Fin 100;
          Helpers.hasZero := false; Helpers.message := "Valid" |}
  /\ Admin.trace (snd (Admin.saveWeights (fun _ => true) world))
     = [Admin.UpdateWeights w; Admin.ToastSuccess "Bobot berhasil disimpan"]
  /\ Admin.originalWeights (Admin.state (snd (Admin.saveWeights (fun _ => true) world)))
     = w.
Proof.
  cbv zeta. split; [reflexivity|]. split.
  - intros H. apply Forall_cons in H. destruct H as [[Hpos _] _].
    revert Hpos. apply Qle_not_lt. discriminate.
  - split; [vm_compute; reflexivity|]. split; vm_compute; reflexivity.
Qed.

(** ** parseCameraResolution *)

Section ParseCameraResolutionFacts.
Import JS Helpers.

Lemma append_String (c : ascii) (a b : string) :
  (String c a +:+ b)%string = String c (a +:+ b)%string.
Proof. reflexivity. Qed.

Lemma append_Empty (b : string) : (EmptyString +:+ b)%string = b.
Proof. reflexivity. Qed.

Lemma digit_prefix_all_digits (s : string) : all_digits (digit_prefix s) = true.
Proof.
  induction s as [|c s IH]; simpl; [reflexivity|].
  destruct (is_digit c) eqn:E; simpl; [|reflexivity].
  rewrite E. exact IH.
Qed.

Lemma digit_prefix_fixed (s : string) :
  all_digits s = true -> digit_prefix s = s.
Proof.
  induction s as [|c s IH]; simpl; [reflexivity|].
  intros H. apply andb_true_iff in H. destruct H as [Hc Hs].
  rewrite Hc. f_equal. apply IH, Hs.
Qed.

(** What the prefix leaves behind does not start with a digit: the run
    is maximal. *)
Lemma digit_prefix_maximal (s : string) :
  exists post, s = (digit_prefix s +:+ post)%string
               /\ starts_with_digit post = false.
Proof.
  induction s as [|c s [post [Heq Hpost]]]; simpl.
  - exists EmptyString. split; reflexivity.
  - destruct (is_digit c) eqn:E.
    + exists post. split; [|exact Hpost].
      rewrite append_String. f_equal. exact Heq.
    + exists (String c s). split; [reflexivity|]. simpl. exact E.
Qed.

(** [match_digits] finds the first maximal run of digits. *)
Lemma match_digits_Some (s run : string) :
  match_digits s = Some run ->
  exists pre post,
    s = (pre +:+ run +:+ post)%string
    /\ no_digit pre = true
    /\ run <> EmptyString /\ all_digits run = true
    /\ starts_with_digit post = false.
Proof.
  induction s as [|c s IH]; simpl; [discriminate|].
  destruct (is_digit c) eqn:E.
  - intros [= <-].
    destruct (digit_prefix_maximal s) as [post [Heq Hpost]].
    exists EmptyString, post. rewrite append_Empty, append_String.
    repeat split.
    + f_equal. exact Heq.
    + discriminate.
    + simpl. rewrite E. apply digit_prefix_all_digits.
    + exact Hpost.
  - intros H. destruct (IH H) as (pre & post & Heq & Hpre & Hne & Hall & Hpost).
    exists (String c pre), post. rewrite append_String. simpl. rewrite E, Hpre.
    repeat split; try assumption. f_equal. exact Heq.
Qed.

Lemma match_digits_None (s : string) :
  match_digits s = None <-> no_digit s = true.
Proof.
  induction s as [|c s IH]; simpl; [tauto|].
  destruct (is_digit c); simpl; [split; discriminate | exact IH].
Qed.

Lemma decimal_value_from_nonneg (s : string) (acc : Z) :
  all_digits s = true -> 0 <= acc -> 0 <= decimal_value_from acc s.
Proof.
  revert acc. induction s as [|c s IH]; simpl; intros acc Hall Hacc; [exact Hacc|].
  apply andb_true_iff in Hall. destruct Hall as [Hc Hs].
  apply IH; [exact Hs|].
  unfold is_digit in Hc. unfold digit_value. lia.
Qed.

Lemma decimal_value_nonneg (s : string) :
  all_digits s = true -> 0 <= decimal_value s.
Proof. intros H. apply decimal_value_from_nonneg; [exact H | lia]. Qed.

(** On a run of digits [parseInt] reads the whole run. *)
Lemma parseInt10_digits (run : string) :
  run <> EmptyString -> all_digits run = true ->
  parseInt10 run = round_to_double (decimal_value run).
Proof.
  destruct run as [|c rest]; [congruence|]. intros _ Hall.
  pose proof (digit_prefix_fixed _ Hall) as Hfix.
  simpl in Hall. apply andb_true_iff in Hall. destruct Hall as [Hc Hrest].
  unfold parseInt10.
  assert (Htrim : trim_start (String c rest) = String c rest).
  { simpl. replace (is_whitespace c) with false; [reflexivity|].
    unfold is_digit in Hc. unfold is_whitespace.
    destruct (code c =? 32) eqn:E32; [lia|].
    destruct (code c <=? 13) eqn:E13; [lia|].
    rewrite andb_false_r. reflexivity. }
  rewrite Htrim.
  assert (Hsign : c <> "-"%char /\ c <> "+"%char).
  { split; intros ->; vm_compute in Hc; discriminate. }
  destruct Hsign as [Hminus Hplus].
  destruct c as [[] [] [] [] [] [] [] []]; try congruence;
    rewrite Hfix; reflexivity.
Qed.

Lemma round_to_double_exact (n : Z) :
  n < 2 ^ 53 -> round_to_double n = of_Z n.
Proof.
  intros H. unfold round_to_double.
  destruct (Z.ltb_spec n (2 ^ 53)); [reflexivity | lia].
Qed.

Lemma of_Z_inj (a b : Z) : of_Z a = of_Z b -> a = b.
Proof. unfold of_Z, inject_Z. intros [= H]. exact H. Qed.

(** The result of the rounding is a non-negative integer or
    [Infinity]. *)
Lemma round_to_double_range (n : Z) :
  0 <= n ->
  round_to_double n = Inf false
  \/ exists k, 0 <= k /\ round_to_double n = of_Z k.
Proof.
  intros Hn. unfold round_to_double.
  destruct (Z.ltb_spec n (2 ^ 53)) as [Hlt|Hge].
  - right. exists n. split; [exact Hn | reflexivity].
  - set (e := Z.log2 n - 52).
    assert (Hpow : 0 < 2 ^ e) by (apply Z.pow_pos_nonneg; [lia|];
      subst e; pose proof (Z.log2_le_mono _ _ Hge) as Hl;
      rewrite Z.log2_pow2 in Hl; lia).
    assert (Hq : 0 <= n / 2 ^ e) by (apply Z.div_pos; lia).
    cbv zeta.
    match goal with
    | |- context [if 2 ^ 1024 <=? ?m then _ else _] =>
        destruct (2 ^ 1024 <=? m); [left; reflexivity|];
        right; exists m; split; [|reflexivity]
    end.
    destruct (n mod 2 ^ e <? 2 ^ (e - 1)); [nia|].
    destruct (2 ^ (e - 1) <? n mod 2 ^ e); [nia|].
    destruct (Z.even (n / 2 ^ e)); nia.
Qed.

(** It is within half a unit of the last place of the integer. *)
Lemma round_to_double_nearest (n k : Z) :
  2 ^ 53 <= n -> round_to_double n = of_Z k ->
  Z.abs (k - n) <= 2 ^ (Z.log2 n - 53).
Proof.
  intros Hge. unfold round_to_double.
  destruct (Z.ltb_spec n (2 ^ 53)) as [Hlt|_]; [lia|].
  set (e := Z.log2 n - 52).
  assert (He : 1 <= e).
  { subst e. pose proof (Z.log2_le_mono _ _ Hge) as Hl.
    rewrite Z.log2_pow2 in Hl; lia. }
  replace (Z.log2 n - 53) with (e - 1) by (subst e; lia).
  assert (Hpow : 2 ^ e = 2 * 2 ^ (e - 1)).
  { replace e with ((e - 1) + 1) at 1 by lia.
    rewrite Z.pow_add_r by lia. lia. }
  pose proof (Z.div_mod n (2 ^ e)) as Hdm.
  pose proof (Z.mod_pos_bound n (2 ^ e)) as Hmod.
  assert (Hhalf : 0 < 2 ^ (e - 1)) by (apply Z.pow_pos_nonneg; lia).
  cbv zeta.
  match goal with
  | |- context [if 2 ^ 1024 <=? ?m then _ else _] =>
      destruct (2 ^ 1024 <=? m); [discriminate|]
  end.
  intros Hk. apply of_Z_inj in Hk. subst k.
  destruct (Z.ltb_spec (n mod 2 ^ e) (2 ^ (e - 1)));
    [|destruct (Z.ltb_spec (2 ^ (e - 1)) (n mod 2 ^ e));
      [|destruct (Z.even (n / 2 ^ e))]];
    nia.
Qed.

Example parseCameraResolution_48MP ts :
  parseCameraResolution ts (Str "48MP") = Some (of_Z 48).
Proof. reflexivity. Qed.

Example parseCameraResolution_second_run ts :
  parseCameraResolution ts (Str "Dual 12MP + 5MP") = Some (of_Z 12).
Proof. reflexivity. Qed.

Example parseCameraResolution_falsy ts :
  parseCameraResolution ts Null = Some (of_Z 0)
  /\ parseCameraResolution ts Undefined = Some (of_Z 0)
  /\ parseCameraResolution ts (Str "") = Some (of_Z 0)
  /\ parseCameraResolution ts (Num (of_Z 0)) = Some (of_Z 0)
  /\ parseCameraResolution ts (Num NaN) = Some (of_Z 0)
  /\ parseCameraResolution ts (Str "MP") = Some (of_Z 0).
Proof. repeat split. Qed.

(** 2^53 + 1 is not a double: the run is read as 2^53. *)
Example parseCameraResolution_2_53_plus_1 ts :
  parseCameraResolution ts (Str "9007199254740993MP")
  = Some (of_Z 9007199254740992).
Proof. vm_compute. reflexivity. Qed.

(** A run of 310 digits is beyond the largest double: the result is
    [Infinity], not an integer. *)
Example parseCameraResolution_overflow ts :
  parseCameraResolution ts (Str ("1" +:+ pretty (10 ^ 308)%N))
  = Some (Inf false).
Proof. vm_compute. reflexivity. Qed.

(** C8, as stated, fails on long digit runs: the run 9007199254740993
    is returned as 9007199254740992, which is not its integer value. *)
Lemma parseCameraResolution_exact_counterexample :
  ~ (forall ts (resolution : value) (str run : string),
       truthy resolution = true ->
       toString ts resolution = Some str ->
       match_digits str = Some run ->
       parseCameraResolution ts resolution = Some (of_Z (decimal_value run))).
Proof.
  intros H.
  specialize (H (fun _ => EmptyString) (Str "9007199254740993")
                "9007199254740993"%string "9007199254740993"%string
                eq_refl eq_refl eq_refl).
  vm_compute in H. discriminate.
Qed.

(** C8 (amended).  [parseCameraResolution] never throws on [null],
    [undefined], a number or a string, and returns a non-negative
    integer or [Infinity]: 0 when the input is falsy or its string form
    has no digit, and otherwise the double nearest to the integer value
    of the first maximal digit run, which is that value itself
    whenever it is below 2^53. *)
Theorem parseCameraResolution_total ts (resolution : value) :
  exists n : number,
    parseCameraResolution ts resolution = Some n
    /\ (n = Inf false \/ exists k, 0 <= k /\ n = of_Z k)
    /\ (truthy resolution = false -> n = of_Z 0)
    /\ (forall str,
          truthy resolution = true ->
          toString ts resolution = Some str ->
          match match_digits str with
          | None => n = of_Z 0
          | Some run =>
              n = round_to_double (decimal_value run)
              /\ (decimal_value run < 2 ^ 53 -> n = of_Z (decimal_value run))
          end).
Proof.
  unfold parseCameraResolution.
  destruct (truthy resolution) eqn:Ht; cbn [negb].
  - assert (Hs : exists str, toString ts resolution = Some str).
    { destruct resolution; try discriminate; eexists; reflexivity. }
    destruct Hs as [str Hs]. rewrite Hs. cbn.
    destruct (match_digits str) as [run|] eqn:Hm.
    + destruct (match_digits_Some _ _ Hm) as (pre & post & _ & _ & Hne & Hall & _).
      rewrite (parseInt10_digits run Hne Hall).
      eexists. split; [reflexivity|].
      split; [apply round_to_double_range, decimal_value_nonneg, Hall|].
      split; [discriminate|].
      intros str' _ [= <-]. rewrite Hm.
      split; [reflexivity | apply round_to_double_exact].
    + eexists. split; [reflexivity|].
      split; [right; exists 0; split; [lia | reflexivity]|].
      split; [reflexivity|].
      intros str' _ [= <-]. rewrite Hm. reflexivity.
  - eexists. split; [reflexivity|].
    split; [right; exists 0; split; [lia | reflexivity]|].
    split; [reflexivity | discriminate].
Qed.

End ParseCameraResolutionFacts.

(** ** PhoneCard: at most three highlights *)

Section PhoneCardFacts.
Import PhoneCard.

Lemma slice_0 {A} (n : nat) (l : list A) :
  JS.slice 0 (Z.of_nat n) l = take n l.
Proof.
  unfold JS.slice, JS.relative_index.
  destruct (Z.ltb_spec 0 0) as [|_]; [lia|].
  destruct (Z.ltb_spec (Z.of_nat n) 0) as [|_]; [lia|].
  rewrite (Z.min_l 0) by lia.
  change (Z.to_nat 0) with 0%nat. rewrite drop_0, Z.sub_0_r.
  destruct (Nat.le_gt_cases n (length l)) as [Hle|Hgt].
  - rewrite Z.min_l, Z.max_l by lia. rewrite Nat2Z.id. reflexivity.
  - rewrite Z.min_r, Z.max_l by lia. rewrite Nat2Z.id.
    rewrite !take_ge by lia. reflexivity.
Qed.

Lemma text_imap (l : list string) :
  text <$> imap (fun idx highlight => {| key := idx; text := highlight |}) l = l.
Proof.
  rewrite fmap_imap.
  rewrite (imap_ext _ (fun _ x => x) l) by reflexivity.
  induction l as [|x l IH]; [reflexivity|].
  cbn. f_equal. exact IH.
Qed.

Example shown_five :
  shown (Given ["Harga sesuai budget"; "RAM 8GB"; "Baterai besar";
                "Kamera 48MP"; "Rating tinggi"]%string)
  = ["Harga sesuai budget"; "RAM 8GB"; "Baterai besar"]%string.
Proof. reflexivity. Qed.

Example shown_two :
  render_highlights (Given ["Harga sesuai budget"; "RAM 8GB"]%string)
  = Some [ {| key := 0; text := "Harga sesuai budget" |};
           {| key := 1; text := "RAM 8GB" |} ]%string.
Proof. reflexivity. Qed.

Example shown_nothing :
  render_highlights (Given []) = None /\ render_highlights Omitted = None
  /\ render_highlights IsNull = None.
Proof. repeat split. Qed.

(** C7.  Whatever list of explanation strings is passed as
    [highlights], the badges show its first min(3, length) entries in
    their order, so never more than three. *)
Theorem PhoneCard_shows_first_three (highlights : list string) :
  shown (Given highlights) = take (min 3 (length highlights)) highlights
  /\ (length (shown (Given highlights)) <= 3)%nat
  /\ (forall badges, render_highlights (Given highlights) = Some badges ->
        key <$> badges = seq 0 (min 3 (length highlights))).
Proof.
  assert (Htake : take (min 3 (length highlights)) highlights = take 3 highlights).
  { destruct (Nat.le_gt_cases 3 (length highlights)).
    - rewrite Nat.min_l by lia. reflexivity.
    - rewrite Nat.min_r by lia. rewrite !take_ge by lia. reflexivity. }
  assert (Hshown : shown (Given highlights) = take 3 highlights).
  { unfold shown, render_highlights. cbn [highlights_of].
    destruct highlights as [|x l]; [reflexivity|].
    replace (0 <? Z.of_nat (length (x :: l))) with true
      by (symmetry; apply Z.ltb_lt; cbn [length]; lia).
    change 3 with (Z.of_nat 3). rewrite slice_0. apply text_imap. }
  split; [rewrite Hshown, Htake; reflexivity|].
  split; [rewrite Hshown, length_take; lia|].
  intros badges. unfold render_highlights. cbn [highlights_of].
  destruct (0 <? Z.of_nat (length highlights)); [|discriminate].
  intros [= <-]. change 3 with (Z.of_nat 3). rewrite slice_0.
  rewrite fmap_imap.
  rewrite (imap_ext _ (fun idx _ => idx) _) by reflexivity.
  rewrite imap_seq_0, list_fmap_id, length_take. reflexivity.
Qed.

End PhoneCardFacts.

(** ** Results: the sorted recommendations *)

Section SortedRecommendations.
Import Results Samples.


Lemma insert_sorted_perm {A} (cmp : A -> A -> option Q) (x : A) (l : list A) :
  insert_sorted cmp x l ≡ₚ x :: l.
Proof.
  induction l as [|y l IH]; simpl; [reflexivity|].
  destruct (after cmp x y); [|reflexivity].
  rewrite IH. apply Permutation_swap.
Qed.

Lemma sort_perm {A} (cmp : A -> A -> option Q) (l : list A) :
  sort cmp l ≡ₚ l.
Proof.
  unfold sort. induction l as [|x l IH]; simpl; [reflexivity|].
  rewrite insert_sorted_perm, IH. reflexivity.
Qed.

(** Under 'similarity', as under any value that is none of the other
    three, the comparator is [b.similarity_score - a.similarity_score]. *)
Lemma compare_similarity (a b : Recommendation) :
  compare "similarity" a b = Some (similarity_score b - similarity_score a)%Q.
Proof. reflexivity. Qed.

Lemma after_similarity (a b : Recommendation) :
  after (compare "similarity") a b = true <->
  (similarity_score a < similarity_score b)%Q.
Proof.
  unfold after. rewrite compare_similarity, negb_true_iff.
  split.
  - intros H. apply Qnot_le_lt. intros Hle.
    assert (Hb : Qle_bool (similarity_score b - similarity_score a) 0 = true)
      by (apply Qle_bool_iff; lra).
    congruence.
  - intros Hlt. apply not_true_is_false. intros Hb.
    apply Qle_bool_iff in Hb. lra.
Qed.

Lemma by_similarity_trans (a b c : Recommendation) :
  by_similarity a b -> by_similarity b c -> by_similarity a c.
Proof. unfold by_similarity. intros. lra. Qed.

Lemma insert_sorted_by_similarity (x : Recommendation) (l : list Recommendation) :
  StronglySorted by_similarity l ->
  StronglySorted by_similarity (insert_sorted (compare "similarity") x l).
Proof.
  induction 1 as [|y l Hsorted IH Hall]; simpl.
  - repeat constructor.
  - destruct (after (compare "similarity") x y) eqn:E.
    + apply after_similarity in E.
      constructor; [exact IH|].
      rewrite (insert_sorted_perm _ x l). constructor; [|exact Hall].
      unfold by_similarity. lra.
    + assert (Hxy : by_similarity x y).
      { unfold by_similarity. apply Qnot_lt_le. intros Hlt.
        apply after_similarity in Hlt. congruence. }
      constructor; [constructor; assumption|].
      constructor; [exact Hxy|].
      eapply Forall_impl; [exact Hall|].
      intros z Hz. simpl in Hz. eapply by_similarity_trans; eassumption.
Qed.

Lemma sort_by_similarity (l : list Recommendation) :
  StronglySorted by_similarity (sort (compare "similarity") l).
Proof.
  unfold sort. induction l as [|x l IH]; simpl; [constructor|].
  apply insert_sorted_by_similarity, IH.
Qed.

(** C9.  For every array of recommendations in the store and every
    [sortBy], [sortedRecommendations] returns a new array holding a
    permutation of the received one and leaves the received array, as
    every other, untouched; under 'similarity' the result is in order
    of non-increasing [similarity_score]. *)
Theorem sortedRecommendations_permutation (sortBy : string)
    (recommendations : loc) (h : Store) (received : list Recommendation) :
  h !! recommendations = Some received ->
  exists (sorted : loc) (h' : Store) (result : list Recommendation),
    sortedRecommendations sortBy recommendations h = Some (sorted, h')
    /\ h' !! sorted = Some result
    /\ result ≡ₚ received
    /\ h !! sorted = None
    /\ h' !! recommendations = Some received
    /\ (forall l, l <> sorted -> h' !! l = h !! l)
    /\ (sortBy = "similarity"%string -> StronglySorted by_similarity result).
Proof.
  intros Hrec.
  set (copy := fresh (dom h)).
  assert (Hfresh : h !! copy = None).
  { apply not_elem_of_dom. apply is_fresh. }
  assert (Hne : copy <> recommendations) by congruence.
  exists copy, (<[copy := sort (compare sortBy) received]> (<[copy := received]> h)),
    (sort (compare sortBy) received).
  split.
  { unfold sortedRecommendations, spread, Array_sort.
    rewrite Hrec. cbn. fold copy. rewrite lookup_insert_eq. reflexivity. }
  split; [apply lookup_insert_eq|].
  split; [apply sort_perm|].
  split; [exact Hfresh|].
  split; [rewrite !lookup_insert_ne by exact Hne; exact Hrec|].
  split.
  - intros l Hl. rewrite !lookup_insert_ne by congruence. reflexivity.
  - intros ->. apply sort_by_similarity.
Qed.


Example sort_sample_by_similarity :
  Results.rank <$> sort (compare "similarity") sample_recommendations = [1; 2; 3].
Proof. vm_compute. reflexivity. Qed.

Example sort_sample_by_price :
  Results.rank <$> sort (compare "price_asc") sample_recommendations = [2; 3; 1]
  /\ Results.rank <$> sort (compare "price_desc") sample_recommendations = [1; 3; 2]
  /\ Results.rank <$> sort (compare "rating") sample_recommendations = [3; 2; 1].
Proof. vm_compute. repeat split. Qed.

Lemma sortedRecommendations_permutation_witness :
  ({[ 0%nat := sample_recommendations ]} : Store) !! 0%nat
    = Some sample_recommendations
  /\ exists (sorted : loc) (h' : Store) (result : list Recommendation),
       sortedRecommendations "similarity" 0%nat
         {[ 0%nat := sample_recommendations ]} = Some (sorted, h')
       /\ h' !! sorted = Some result
       /\ result ≡ₚ sample_recommendations
       /\ h' !! 0%nat = Some sample_recommendations
       /\ StronglySorted by_similarity result.
Proof.
  split; [apply lookup_singleton_eq|].
  destruct (sortedRecommendations_permutation "similarity" 0%nat
              {[ 0%nat := sample_recommendations ]} sample_recommendations
              (lookup_singleton_eq _ _))
    as (sorted & h' & result & Hrun & Hres & Hperm & _ & Hkept & _ & Hsorted).
  exists sorted, h', result.
  repeat split; try assumption. apply Hsorted. reflexivity.
Defined.

End SortedRecommendations.

(** ** Evaluation: the embedded results *)

Section EvaluationFacts.
Import Evaluation Metrics.
Local Open Scope Q_scope.

Lemma transform_unfold (r : Result) :
  transform r =
  {| name := scenario r; train_size := 700; test_size := 300;
     metrics := result_metrics r; confusion_matrix := Some CONFUSION_MATRIX |}.
Proof. reflexivity. Qed.

Lemma default_scenario :
  exists s, scenarios DEFAULT_RESULTS = [s]
            /\ name s = "70-30"%string
            /\ confusion_matrix s = Some CONFUSION_MATRIX.
Proof. eexists. repeat split. Qed.

(** C2.  In the default 70-30 result the rows of the confusion matrix
    sum to the supports of the Classification Report (41, 146, 113),
    the nine entries sum to the testing size 300, and the trace 228
    over 300 is the reported accuracy of 76.0%, a fraction in [0,1]. *)
Theorem default_matrix_consistent :
  Forall (fun s : Scenario =>
    exists confusion m measured,
      confusion_matrix s = Some confusion /\ matrix confusion = Some m
      /\ metrics s = Some measured
      /\ row_sum m <$> seq 0 (length m) = support <$> CLASSIFICATION_REPORT
      /\ labels confusion = label <$> CLASSIFICATION_REPORT
      /\ [row_sum m 0; row_sum m 1; row_sum m 2] = [41; 146; 113]%Z
      /\ total m = test_size s /\ test_size s = 300%Z
      /\ trace m = 228%Z /\ trace m = tp confusion
      /\ percent (inject_Z (trace m) / inject_Z (test_size s)) == accuracy measured
      /\ accuracy measured == 76
      /\ 0 <= inject_Z (trace m) / inject_Z (test_size s) <= 1)
    (scenarios DEFAULT_RESULTS)
  /\ length (scenarios DEFAULT_RESULTS) = 1%nat.
Proof.
  split; [|reflexivity].
  repeat constructor. eexists _, _, _.
  do 3 (split; [reflexivity|]).
  repeat split; try reflexivity; vm_compute; discriminate.
Qed.

Example precision_gaming : precision_of MATRIX 0 == 3 # 4.
Proof. reflexivity. Qed.

Example recall_gaming : recall_of MATRIX 0 == 24 # 41.
Proof. reflexivity. Qed.

Example f1_gaming : f1_of MATRIX 0 == 48 # 73.
Proof. reflexivity. Qed.

Example weighted_recall_is_accuracy :
  weighted_average recall_of MATRIX == accuracy_of MATRIX.
Proof. reflexivity. Qed.

Example round_to_examples :
  round_to 2 (24 # 41) == 59 # 100 /\ round_to 2 (1 # 8) == 13 # 100
  /\ round_to 2 (61 # 80) == 76 # 100.
Proof. repeat split. Qed.

(** C3.  The metric formulas, evaluated exactly on the embedded matrix
    and rounded to two decimals, give every figure of the embedded
    Classification Report and, as percentages, the embedded summary
    metrics 75.96, 76.0 and 75.74. *)
Theorem classification_report_reproduced :
  Forall (fun s : Scenario =>
    exists confusion m measured,
      confusion_matrix s = Some confusion /\ matrix confusion = Some m
      /\ metrics s = Some measured
      /\ Forall2 (fun i row =>
                    round_to 2 (precision_of m i) == row_precision row
                    /\ round_to 2 (recall_of m i) == row_recall row
                    /\ round_to 2 (f1_of m i) == row_f1 row
                    /\ row_sum m i = support row)
                 (seq 0 (length m)) CLASSIFICATION_REPORT
      /\ round_to 2 (percent (weighted_average precision_of m)) == precision measured
      /\ round_to 2 (percent (weighted_average recall_of m)) == recall measured
      /\ round_to 2 (percent (weighted_average f1_of m)) == f1_score measured
      /\ round_to 2 (percent (accuracy_of m)) == accuracy measured)
    (scenarios DEFAULT_RESULTS)
  /\ (fmap precision <$> (metrics <$> scenarios DEFAULT_RESULTS)) = [Some (7596 # 100)]
  /\ (fmap f1_score <$> (metrics <$> scenarios DEFAULT_RESULTS)) = [Some (7574 # 100)]
  /\ (row_precision <$> CLASSIFICATION_REPORT) = [75 # 100; 76 # 100; 76 # 100]
  /\ (row_recall <$> CLASSIFICATION_REPORT) = [59 # 100; 84 # 100; 73 # 100]
  /\ (row_f1 <$> CLASSIFICATION_REPORT) = [66 # 100; 80 # 100; 74 # 100].
Proof.
  split; [|repeat split].
  repeat constructor. eexists _, _, _.
  do 3 (split; [reflexivity|]).
  repeat constructor; vm_compute; reflexivity.
Qed.

(** C10, as stated, fails in its parenthesis: two replies with the same
    metrics and different scenario names give different scenarios, so
    the metrics are not the only field that varies with the reply. *)
Lemma loadResults_only_metrics_counterexample :
  ~ (forall (st : State) (first1 first2 : Result) (rest1 rest2 : list Result),
       result_metrics <$> (first1 :: rest1) = result_metrics <$> (first2 :: rest2) ->
       scenarios <$> shown_results
         (loadResults (Resolved {| results := Some (first1 :: rest1) |}) st)
       = scenarios <$> shown_results
         (loadResults (Resolved {| results := Some (first2 :: rest2) |}) st)).
Proof.
  intros H.
  pose (m := Some {| accuracy := 76; precision := 76; recall := 76; f1_score := 76 |}).
  specialize (H {| loading := true; evaluating := false; shown_results := None |}
                {| scenario := "70-30"; result_metrics := m |}
                {| scenario := "80-20"; result_metrics := m |}
                [] [] eq_refl).
  discriminate H.
Qed.

(** C10 (amended).  For any two non-empty replies to
    [evaluationAPI.getResults], [loadResults] produces scenarios that
    all carry the constant matrix with tp = 228 and fp = 72: of a
    scenario only the name and the metrics come from the reply.  The
    matrix on display is the same constant for both replies, as it is
    when no scenario is there and the render-time fallback applies. *)
Theorem loadResults_matrix_constant (st1 st2 : State)
    (first1 first2 : Result) (rest1 rest2 : list Result) :
  let after1 := loadResults (Resolved {| results := Some (first1 :: rest1) |}) st1 in
  let after2 := loadResults (Resolved {| results := Some (first2 :: rest2) |}) st2 in
  (exists r1 r2,
      shown_results after1 = Some r1 /\ shown_results after2 = Some r2
      /\ scenarios r1 = transform <$> (first1 :: rest1)
      /\ scenarios r2 = transform <$> (first2 :: rest2)
      /\ Forall (fun s => confusion_matrix s = Some CONFUSION_MATRIX
                          /\ train_size s = 700%Z /\ test_size s = 300%Z)
                (scenarios r1 ++ scenarios r2)
      /\ Forall2 (fun item s => name s = scenario item
                                /\ metrics s = result_metrics item)
                 (first1 :: rest1) (scenarios r1))
  /\ matrix CONFUSION_MATRIX = Some MATRIX
  /\ tp CONFUSION_MATRIX = 228%Z /\ fp CONFUSION_MATRIX = 72%Z
  /\ confusionMatrix after1 = MATRIX
  /\ confusionMatrix after2 = confusionMatrix after1
  /\ (forall st, first_scenario st = None -> confusionMatrix st = MATRIX).
Proof.
  intros after1 after2. subst after1 after2.
  split.
  - eexists _, _. split; [reflexivity|]. split; [reflexivity|].
    split; [reflexivity|]. split; [reflexivity|]. split.
    + cbn [scenarios]. rewrite Forall_app. split;
        apply Forall_fmap, Forall_forall; intros r _; repeat split.
    + cbn [scenarios]. apply Forall2_fmap_r, Forall2_same_length_lookup.
      split; [reflexivity|].
      intros i x y Hx Hy. rewrite Hx in Hy. injection Hy as <-. split; reflexivity.
  - repeat split.
    intros st Hnone. unfold confusionMatrix. rewrite Hnone. reflexivity.
Qed.

(** Without a usable reply the page shows [DEFAULT_RESULTS], whose
    matrix is that constant too. *)
Lemma loadResults_default (st : State) (reply : Settled) :
  reply = Rejected \/ reply = Resolved {| results := None |}
  \/ reply = Resolved {| results := Some [] |} ->
  shown_results (loadResults reply st) = Some DEFAULT_RESULTS
  /\ confusionMatrix (loadResults reply st) = MATRIX
  /\ loading (loadResults reply st) = false.
Proof. intros [-> | [-> | ->]]; repeat split. Qed.

End EvaluationFacts.

(** ** The similarity conversion *)

Section SimilarityFacts.
Import Similarity.
Local Open Scope Q_scope.

Lemma similarity_inverse (d : Q) : 0 <= d -> similarity d * (1 + d) == 1.
Proof. intros H. unfold similarity. field. lra. Qed.

Lemma similarity_pos (d : Q) : 0 <= d -> 0 < similarity d.
Proof.
  intros H. unfold similarity, Qdiv. rewrite Qmult_1_l.
  apply Qinv_lt_0_compat. lra.
Qed.

Example similarity_values :
  similarity 0 == 1 /\ similarity 1 == 1 # 2 /\ similarity (1 # 4) == 4 # 5.
Proof. repeat split. Qed.

(** C6.  For every distance d >= 0, similarity(d) = 1/(1+d) lies in
    (0,1], equals 1 exactly when d = 0, and is strictly decreasing:
    a larger distance gives a smaller, still positive, similarity. *)
Theorem similarity_properties (d : Q) :
  0 <= d ->
  (0 < similarity d <= 1)
  /\ (similarity d == 1 <-> d == 0)
  /\ (forall d', d < d' -> 0 < similarity d' < similarity d).
Proof.
  intros Hd.
  pose proof (similarity_inverse d Hd) as Hinv.
  pose proof (similarity_pos d Hd) as Hpos.
  split; [split; [exact Hpos | nra]|].
  split.
  - split; intros H; nra.
  - intros d' Hlt.
    assert (Hd' : 0 <= d') by lra.
    pose proof (similarity_inverse d' Hd') as Hinv'.
    pose proof (similarity_pos d' Hd') as Hpos'.
    split; [exact Hpos' | nra].
Qed.

Lemma similarity_properties_witness :
  0 <= 1 # 4
  /\ (0 < similarity (1 # 4) <= 1)
  /\ (similarity (1 # 4) == 1 <-> 1 # 4 == 0)
  /\ (forall d', 1 # 4 < d' -> 0 < similarity d' < similarity (1 # 4)).
Proof.
  split; [discriminate|].
  apply (similarity_properties (1 # 4)). discriminate.
Defined.

End SimilarityFacts.

(* ===================================================================== *)
(** * Part III: further properties of the code                            *)
(* ===================================================================== *)

(** ** truncate *)

Section TruncateFacts.
Import Util.

Lemma string_length_append (a b : string) :
  String.length (a +:+ b) = (String.length a + String.length b)%nat.
Proof.
  induction a as [|c a IH]; [reflexivity|].
  change (String c a +:+ b)%string with (String c (a +:+ b)).
  simpl. rewrite IH. reflexivity.
Qed.

Lemma string_substring_0_length (n : nat) (s : string) :
  String.length (String.substring 0 n s) = min n (String.length s).
Proof.
  revert s. induction n as [|n IH]; intros [|c s]; simpl; try reflexivity.
  rewrite IH. reflexivity.
Qed.

Lemma string_substring_0_append (a b : string) :
  String.substring 0 (String.length a) (a +:+ b) = a.
Proof.
  induction a as [|c a IH].
  - change (EmptyString +:+ b)%string with b. destruct b; reflexivity.
  - change (String c a +:+ b)%string with (String c (a +:+ b)).
    simpl. rewrite IH. reflexivity.
Qed.

(** The first [n] characters, as a prefix of the string. *)
Lemma string_substring_0_prefix (n : nat) (s : string) :
  exists rest, s = (String.substring 0 n s +:+ rest)%string.
Proof.
  revert s. induction n as [|n IH]; intros [|c s].
  - exists EmptyString. reflexivity.
  - exists (String c s). reflexivity.
  - exists EmptyString. reflexivity.
  - destruct (IH s) as [rest Hrest]. exists rest.
    simpl. change (String c ?a +:+ rest)%string with (String c (a +:+ rest)).
    f_equal. exact Hrest.
Qed.

(** Cutting a string at an index below its length. *)
Lemma substring_below (k : Z) (s : string) :
  k < Z.of_nat (String.length s) ->
  Builtins.substring 0 k s = String.substring 0 (Z.to_nat k) s.
Proof.
  intros Hk. unfold Builtins.substring, Builtins.clamp.
  set (len := Z.of_nat (String.length s)) in *.
  replace (Z.min 0 len) with 0 by lia.
  replace (Z.max 0 0) with 0 by lia.
  replace (Z.min k len) with k by lia.
  replace (Z.min 0 (Z.max 0 k)) with 0 by lia.
  replace (Z.max 0 (Z.max 0 k) - 0) with (Z.max 0 k) by lia.
  change (Z.to_nat 0) with 0%nat.
  f_equal. lia.
Qed.

Example truncate_examples :
  truncate (Some "Samsung Galaxy S24 Ultra") (Some 7) = "Samsung..."%string
  /\ truncate (Some "Oppo") (Some 7) = "Oppo"%string
  /\ truncate (Some "Oppo") (Some (-1)) = "..."%string
  /\ truncate None None = ""%string
  /\ truncate (Some "Oppo") None = "Oppo"%string.
Proof. repeat split. Qed.

(** X1.  [truncate] is idempotent for every limit: a text already cut
    is returned as it is.  Its result is never longer than the limit
    (0 when the limit is negative) plus the three dots, and it is the
    text itself or a prefix of the text followed by "...". *)
Theorem truncate_idempotent (text : option string) (length : option Z) :
  truncate (Some (truncate text length)) length = truncate text length
  /\ Z.of_nat (String.length (truncate text length))
     <= Z.max 0 (default 50 length) + 3
  /\ (truncate text length = default EmptyString text
      \/ exists prefix rest,
           text = Some (prefix +:+ rest)%string
           /\ truncate text length = (prefix +:+ "...")%string
           /\ Z.of_nat (String.length prefix) = Z.max 0 (default 50 length)).
Proof.
  unfold truncate. set (n := default 50 length).
  destruct text as [t|]; [|repeat split; [simpl; lia | left; reflexivity]].
  destruct (String.eqb_spec t "") as [->|Hne];
    [repeat split; [simpl; lia | left; reflexivity]|].
  destruct (Z.leb_spec (Z.of_nat (String.length t)) n) as [Hle|Hgt].
  - split; [|split; [lia | left; reflexivity]].
    destruct (String.eqb_spec t ""); [congruence|].
    destruct (Z.leb_spec (Z.of_nat (String.length t)) n); [reflexivity | lia].
  - rewrite (substring_below n t Hgt).
    set (m := Z.to_nat n).
    set (cut := String.substring 0 m t).
    assert (Hcut : String.length cut = m).
    { subst cut. rewrite string_substring_0_length. lia. }
    assert (Hlen : String.length (cut +:+ "...") = (m + 3)%nat).
    { rewrite string_length_append, Hcut. reflexivity. }
    split; [|split].
    + destruct (String.eqb_spec (cut +:+ "...") "") as [Heq|_].
      { rewrite Heq in Hlen. simpl in Hlen. lia. }
      destruct (Z.leb_spec (Z.of_nat (String.length (cut +:+ "..."))) n) as [Hle|_];
        [rewrite Hlen in Hle; lia|].
      rewrite substring_below by (rewrite Hlen; lia).
      fold m. rewrite <- Hcut at 1. rewrite string_substring_0_append. reflexivity.
    + rewrite Hlen. lia.
    + right. destruct (string_substring_0_prefix m t) as [rest Hrest].
      exists cut, rest. split; [f_equal; exact Hrest|].
      split; [reflexivity | rewrite Hcut; lia].
Qed.

End TruncateFacts.

(** ** getSimilarityColor and getSimilarityBadge *)

Section SimilarityDisplayFacts.
Import Util.
Local Open Scope Q_scope.

Example similarity_display_examples :
  getSimilarityColor (JS.Fin (89 # 100)) = "text-green-400"%string
  /\ getSimilarityColor (JS.Fin (3 # 10)) = "text-orange-400"%string
  /\ getSimilarityColor JS.NaN = "text-red-400"%string
  /\ badge_text (getSimilarityBadge (JS.Fin (3 # 10))) = "Kurang Cocok"%string
  /\ getSimilarityColor (JS.Fin (Double.literal (6 # 10))) = "text-emerald-400"%string
  /\ getSimilarityColor (JS.Fin (Double.literal (59 # 100))) = "text-yellow-400"%string.
Proof. repeat split; vm_compute; reflexivity. Qed.

(** X2.  The badge and the colour of a score always agree: "Sangat
    Cocok" goes with green, "Cocok" with emerald, "Cukup Cocok" with
    yellow, and "Kurang Cocok" with orange or red; a NaN score is red and
    "Kurang Cocok". *)
Theorem similarity_badge_matches_color (score : JS.number) :
  let class := getSimilarityColor score in
  let badge := badge_text (getSimilarityBadge score) in
  (badge = "Sangat Cocok"%string <-> class = "text-green-400"%string)
  /\ (badge = "Cocok"%string <-> class = "text-emerald-400"%string)
  /\ (badge = "Cukup Cocok"%string <-> class = "text-yellow-400"%string)
  /\ (badge = "Kurang Cocok"%string <->
      class = "text-orange-400"%string \/ class = "text-red-400"%string)
  /\ (score = JS.NaN -> class = "text-red-400"%string).
Proof.
  intros class badge. subst class badge.
  unfold getSimilarityColor, getSimilarityBadge.
  split; [|split; [|split; [|split]]];
    try (intros ->; reflexivity);
    destruct (Builtins.ge score (Double.literal (8 # 10)));
    destruct (Builtins.ge score (Double.literal (6 # 10)));
    destruct (Builtins.ge score (Double.literal (4 # 10)));
    destruct (Builtins.ge score (Double.literal (2 # 10)));
    cbn [badge_text];
    (split; [intros H; try discriminate H; auto
            | intros H; try discriminate H; try reflexivity;
              try (destruct H as [H|H]; discriminate H)]).
Qed.

Lemma Qle_bool_false (a b : Q) : Qle_bool a b = false -> b < a.
Proof.
  intros H. apply Qnot_le_lt. intros Hle.
  apply Qle_bool_iff in Hle. congruence.
Qed.

(** X3.  A higher score never gets a colder colour. *)
Theorem getSimilarityColor_monotone (a b : Q) :
  a <= b ->
  (warmth (getSimilarityColor (JS.Fin a)) <= warmth (getSimilarityColor (JS.Fin b)))%nat.
Proof.
  intros Hab. unfold getSimilarityColor, Builtins.ge.
  repeat match goal with
         | |- context [Double.literal ?q] =>
             let v := eval vm_compute in (Double.literal q) in
             change (Double.literal q) with v
         end.
  repeat match goal with
         | |- context [Qle_bool ?c ?x] => destruct (Qle_bool c x) eqn:?
         end;
    try (vm_compute; lia);
    exfalso;
    repeat match goal with
           | H : Qle_bool _ _ = true |- _ => apply Qle_bool_iff in H
           | H : Qle_bool _ _ = false |- _ => apply Qle_bool_false in H
           end;
    lra.
Qed.

Lemma getSimilarityColor_monotone_witness :
  3 # 10 <= 89 # 100
  /\ (warmth (getSimilarityColor (JS.Fin (3 # 10)))
      <= warmth (getSimilarityColor (JS.Fin (89 # 100))))%nat.
Proof.
  split; [discriminate|].
  apply (getSimilarityColor_monotone (3 # 10) (89 # 100)). discriminate.
Defined.

End SimilarityDisplayFacts.

(** ** storage *)

Section StorageFacts.
Import Util.

Variable V : Type.
Variable stringify : V -> option string.
Variable parse : string -> option V.
Variable has_room : LocalStorage -> string -> string -> bool.

(** X4.  What [storage.set] stores, [storage.get] returns: when the
    value has a JSON form that parses back to it and the entry fits,
    reading the key gives the value (not the default), nothing is
    logged, and every other key reads as before. *)
Theorem storage_set_get (key : string) (value defaultValue : V)
    (ls : LocalStorage) (item : string) :
  stringify value = Some item ->
  parse item = Some value ->
  item <> ""%string ->
  has_room ls key item = true ->
  let ls' := fst (storage_set V stringify has_room key value ls) in
  storage_get V parse key defaultValue ls' = value
  /\ snd (storage_set V stringify has_room key value ls) = false
  /\ (forall key' d, key' <> key ->
        storage_get V parse key' d ls' = storage_get V parse key' d ls).
Proof.
  intros Hs Hp Hne Hroom. unfold storage_set. rewrite Hs, Hroom. cbn [fst snd].
  split; [|split; [reflexivity|]].
  - unfold storage_get. rewrite lookup_insert_eq.
    destruct (String.eqb_spec item ""); [congruence|]. rewrite Hp. reflexivity.
  - intros key' d Hk. unfold storage_get.
    rewrite lookup_insert_ne by congruence. reflexivity.
Qed.

(** X5.  [storage.get] falls back to the default instead of failing:
    for a key that is absent or was removed, for an empty entry and for
    an entry that is not JSON.  A [storage.set] that cannot store the
    value (no JSON form, or no room) logs an error and leaves the
    storage as it was, so the old entry stays readable. *)
Theorem storage_get_fallback (key : string) (value defaultValue : V)
    (ls : LocalStorage) :
  (ls !! key = None -> storage_get V parse key defaultValue ls = defaultValue)
  /\ storage_get V parse key defaultValue (storage_remove key ls) = defaultValue
  /\ (ls !! key = Some ""%string ->
      storage_get V parse key defaultValue ls = defaultValue)
  /\ (forall item, ls !! key = Some item -> parse item = None ->
        storage_get V parse key defaultValue ls = defaultValue)
  /\ ((stringify value = None
       \/ exists item, stringify value = Some item /\ has_room ls key item = false) ->
      storage_set V stringify has_room key value ls = (ls, true)).
Proof.
  unfold storage_get, storage_remove, storage_set.
  split; [intros ->; reflexivity|].
  split; [rewrite lookup_delete_eq; reflexivity|].
  split; [intros ->; reflexivity|].
  split.
  - intros item -> Hp. rewrite Hp. destruct (String.eqb item ""); reflexivity.
  - intros [-> | (item & -> & ->)]; reflexivity.
Qed.

End StorageFacts.

Lemma storage_set_get_witness :
  Util.storage_get bool Fixtures.parse_bool "flag" false
    (fst (Util.storage_set bool Fixtures.stringify_bool (fun _ _ _ => true)
            "flag" true ∅))
  = true.
Proof.
  apply (storage_set_get bool Fixtures.stringify_bool Fixtures.parse_bool
           (fun _ _ _ => true)
           "flag" true false ∅ "true");
    [reflexivity | reflexivity | discriminate | reflexivity].
Defined.

(** ** getBrandConfig *)

Section BrandFacts.
Import Util Fixtures.

Lemma brandConfig_well_formed :
  Forall (fun entry : string * BrandConfig =>
            String.length (color (snd entry)) = 7%nat
            /\ String.get 0 (color (snd entry)) = Some "#"%char)
         brandConfig.
Proof. repeat constructor. Qed.

Lemma own_property_In {A} (key : string) (object : list (string * A)) (v : A) :
  own_property key object = Some v -> (key, v) ∈ object.
Proof.
  induction object as [|[k x] rest IH]; simpl; [discriminate|].
  destruct (String.eqb_spec k key) as [->|_].
  - intros [= ->]. apply list_elem_of_here.
  - intros H. apply list_elem_of_further, IH, H.
Qed.

Example getBrandConfig_examples ts :
  getBrandConfig (JS.Str "Apple") ts = Config {| color := "#A3A3A3"; icon := "ðŸŽ" |}
  /\ getBrandConfig (JS.Str "apple") ts = Config default_brand
  /\ getBrandConfig JS.Undefined ts = Config default_brand
  /\ getBrandConfig (JS.Str "toString") ts = Inherited "toString".
Proof. repeat split. Qed.

(** X6.  For every brand name that is not a member of
    [Object.prototype], [getBrandConfig] returns a configuration: the
    brand's own entry when the table has one (names are case-sensitive),
    the default entry otherwise, as for a missing brand.  Its colour is
    always a '#' followed by six characters. *)
Theorem getBrandConfig_fallback (brand : string) ts :
  brand ∉ Object_prototype ->
  exists c,
    getBrandConfig (JS.Str brand) ts = Config c
    /\ c = default default_brand (own_property brand brandConfig)
    /\ String.length (color c) = 7%nat
    /\ String.get 0 (color c) = Some "#"%char
    /\ getBrandConfig JS.Undefined ts = Config default_brand
    /\ getBrandConfig JS.Null ts = Config default_brand.
Proof.
  intros Hnot. unfold getBrandConfig.
  destruct (own_property brand brandConfig) as [c|] eqn:Hown.
  - exists c. split; [reflexivity|]. split; [reflexivity|].
    pose proof brandConfig_well_formed as Hwf.
    rewrite Forall_forall in Hwf.
    destruct (Hwf (brand, c)) as [Hlen Hhash].
    { apply own_property_In, Hown. }
    repeat split; assumption.
  - rewrite bool_decide_eq_false_2 by exact Hnot.
    exists default_brand. repeat split.
Qed.

Lemma getBrandConfig_fallback_witness :
  exists c, Util.getBrandConfig (JS.Str "Nokia") (fun _ => ""%string) = Util.Config c
            /\ c = default_brand.
Proof.
  assert (Hnot : "Nokia"%string ∉ Util.Object_prototype)
    by (apply (bool_decide_unpack _); vm_compute; exact I).
  destruct (getBrandConfig_fallback "Nokia" (fun _ => ""%string) Hnot)
    as (c & H1 & H2 & _).
  exists c. split; [exact H1 | exact H2].
Defined.

End BrandFacts.

(** ** The Results page: the other orders, the ranks and the top three *)

Section ResultsViewFacts.
Import Results ResultsView Samples.
Local Open Scope Q_scope.

(** What [sortedRecommendations] computes, in one step. *)
Lemma sortedRecommendations_run (sortBy : string) (recommendations : loc)
    (h : Store) (received : list Recommendation) :
  h !! recommendations = Some received ->
  let copy := fresh (dom h) in
  sortedRecommendations sortBy recommendations h
  = Some (copy, <[copy := sort (compare sortBy) received]> (<[copy := received]> h))
  /\ (<[copy := sort (compare sortBy) received]> (<[copy := received]> h)) !! copy
     = Some (sort (compare sortBy) received).
Proof.
  intros Hrec copy. split; [|apply lookup_insert_eq].
  unfold sortedRecommendations, spread, Array_sort.
  rewrite Hrec. cbn. fold copy. rewrite lookup_insert_eq. reflexivity.
Qed.

(** A comparator that is the difference of a key sorts by that key,
    highest first. *)
Lemma insert_sorted_by_key {A} (cmp : A -> A -> option Q) (key : A -> Q)
    (x : A) (l : list A) :
  (forall b, b ∈ l -> exists v, cmp x b = Some v /\ v == key b - key x) ->
  StronglySorted (fun a b => key b <= key a) l ->
  StronglySorted (fun a b => key b <= key a) (insert_sorted cmp x l).
Proof.
  intros Hcmp Hsorted. induction Hsorted as [|y l Hsorted IH Hall]; simpl.
  - repeat constructor.
  - destruct (Hcmp y) as (v & Hv & Heq); [apply list_elem_of_here|].
    unfold after. rewrite Hv.
    destruct (Qle_bool v 0) eqn:E; cbn [negb].
    + apply Qle_bool_iff in E.
      constructor; [constructor; assumption|].
      constructor; [lra|].
      eapply Forall_impl; [exact Hall|]. intros z Hz. simpl in Hz. lra.
    + apply Qle_bool_false in E.
      constructor.
      * apply IH. intros b Hb. apply Hcmp, list_elem_of_further, Hb.
      * rewrite (insert_sorted_perm cmp x l). constructor; [lra | exact Hall].
Qed.

Lemma sort_by_key {A} (cmp : A -> A -> option Q) (key : A -> Q) (l : list A) :
  (forall a b, a ∈ l -> b ∈ l -> exists v, cmp a b = Some v /\ v == key b - key a) ->
  StronglySorted (fun a b => key b <= key a) (sort cmp l).
Proof.
  unfold sort. induction l as [|x l IH]; intros Hcmp; simpl; [constructor|].
  apply insert_sorted_by_key.
  - intros b Hb. apply Hcmp; [apply list_elem_of_here|].
    apply list_elem_of_further.
    change (b ∈ sort cmp l) in Hb. rewrite sort_perm in Hb. exact Hb.
  - apply IH. intros a b Ha Hb.
    apply Hcmp; apply list_elem_of_further; assumption.
Qed.

Lemma rating_defined (r : Recommendation) : rating r = Some (rating_value r).
Proof.
  unfold rating_value, rating.
  destruct (or_else (Rating_pengguna (phone r)) (rating_pengguna (phone r)))
    as [x|]; simpl; [destruct (Qeq_bool x 0)|]; reflexivity.
Qed.

(** X7.  Under 'rating' the sorted array is in order of non-increasing
    rating, whatever the phones carry: a missing or zero rating counts
    as 0. *)
Theorem sortedRecommendations_by_rating (recommendations : loc) (h : Store)
    (received : list Recommendation) :
  h !! recommendations = Some received ->
  exists (sorted : loc) (h' : Store) (result : list Recommendation),
    sortedRecommendations "rating" recommendations h = Some (sorted, h')
    /\ h' !! sorted = Some result
    /\ StronglySorted by_rating result.
Proof.
  intros Hrec.
  destruct (sortedRecommendations_run "rating" _ _ _ Hrec) as [Hrun Hres].
  eexists _, _, _. split; [exact Hrun|]. split; [exact Hres|].
  apply (sort_by_key (compare "rating") rating_value).
  intros a b _ _. change (compare "rating" a b) with (minus (rating b) (rating a)).
  rewrite !rating_defined. eexists. split; reflexivity.
Qed.

Lemma sortedRecommendations_by_rating_witness :
  exists (sorted : loc) (h' : Store) (result : list Recommendation),
    sortedRecommendations "rating" 0%nat {[ 0%nat := sample_recommendations ]}
      = Some (sorted, h')
    /\ h' !! sorted = Some result
    /\ StronglySorted by_rating result.
Proof.
  apply (sortedRecommendations_by_rating 0%nat {[ 0%nat := sample_recommendations ]}
           sample_recommendations).
  apply lookup_singleton_eq.
Defined.

(** X8.  When every received phone has a price, 'price_asc' puts the
    array in order of non-decreasing price and 'price_desc' in order of
    non-increasing price. *)
Theorem sortedRecommendations_by_price (recommendations : loc) (h : Store)
    (received : list Recommendation) :
  h !! recommendations = Some received ->
  Forall (fun r => is_Some (price r)) received ->
  (exists sorted h' result,
      sortedRecommendations "price_asc" recommendations h = Some (sorted, h')
      /\ h' !! sorted = Some result
      /\ StronglySorted price_le result)
  /\ (exists sorted h' result,
      sortedRecommendations "price_desc" recommendations h = Some (sorted, h')
      /\ h' !! sorted = Some result
      /\ StronglySorted (flip price_le) result).
Proof.
  intros Hrec Hprice. rewrite Forall_forall in Hprice.
  assert (Hkey : forall r, r ∈ received -> price r = Some (default 0 (price r))).
  { intros r Hr. destruct (Hprice r Hr) as [x ->]. reflexivity. }
  split.
  - destruct (sortedRecommendations_run "price_asc" _ _ _ Hrec) as [Hrun Hres].
    eexists _, _, _. split; [exact Hrun|]. split; [exact Hres|].
    assert (Hsorted : StronglySorted
              (fun a b => - default 0 (price b) <= - default 0 (price a))
              (sort (compare "price_asc") received)).
    { apply (sort_by_key (compare "price_asc") (fun r => - default 0 (price r))).
      intros a b Ha Hb.
      destruct (Hprice a Ha) as [pa Hpa]. destruct (Hprice b Hb) as [pb Hpb].
      change (compare "price_asc" a b) with (minus (price a) (price b)).
      rewrite Hpa, Hpb. simpl. eexists. split; [reflexivity | ring]. }
    revert Hsorted. generalize (sort_perm (compare "price_asc") received).
    generalize (sort (compare "price_asc") received). intros l Hperm Hsorted.
    assert (Hin : forall r, r ∈ l -> r ∈ received) by (intros r; rewrite Hperm; auto).
    clear Hperm. induction Hsorted as [|a l Hs IH Hall]; constructor.
    + apply IH. intros r Hr. apply Hin, list_elem_of_further, Hr.
    + rewrite Forall_forall in *. intros b Hb. unfold price_le.
      rewrite (Hkey a) by apply Hin, list_elem_of_here.
      rewrite (Hkey b) by apply Hin, list_elem_of_further, Hb.
      specialize (Hall b Hb). simpl in Hall. lra.
  - destruct (sortedRecommendations_run "price_desc" _ _ _ Hrec) as [Hrun Hres].
    eexists _, _, _. split; [exact Hrun|]. split; [exact Hres|].
    assert (Hsorted : StronglySorted
              (fun a b => default 0 (price b) <= default 0 (price a))
              (sort (compare "price_desc") received)).
    { apply (sort_by_key (compare "price_desc") (fun r => default 0 (price r))).
      intros a b Ha Hb.
      destruct (Hprice a Ha) as [pa Hpa]. destruct (Hprice b Hb) as [pb Hpb].
      change (compare "price_desc" a b) with (minus (price b) (price a)).
      rewrite Hpa, Hpb. simpl. eexists. split; reflexivity. }
    revert Hsorted. generalize (sort_perm (compare "price_desc") received).
    generalize (sort (compare "price_desc") received). intros l Hperm Hsorted.
    assert (Hin : forall r, r ∈ l -> r ∈ received) by (intros r; rewrite Hperm; auto).
    clear Hperm. induction Hsorted as [|a l Hs IH Hall]; constructor.
    + apply IH. intros r Hr. apply Hin, list_elem_of_further, Hr.
    + rewrite Forall_forall in *. intros b Hb. unfold flip, price_le.
      rewrite (Hkey a) by apply Hin, list_elem_of_here.
      rewrite (Hkey b) by apply Hin, list_elem_of_further, Hb.
      specialize (Hall b Hb). simpl in Hall. exact Hall.
Qed.

Lemma sortedRecommendations_by_price_witness :
  exists sorted h' result,
    sortedRecommendations "price_asc" 0%nat {[ 0%nat := sample_recommendations ]}
      = Some (sorted, h')
    /\ h' !! sorted = Some result
    /\ StronglySorted price_le result.
Proof.
  apply (sortedRecommendations_by_price 0%nat {[ 0%nat := sample_recommendations ]}
           sample_recommendations).
  - apply lookup_singleton_eq.
  - repeat constructor; eexists; reflexivity.
Defined.

(** A phone without price answers NaN to the comparator: the order by
    price can then be broken. *)
Example sort_by_price_with_missing_price :
  let unpriced := {| phone := {| Harga := None; harga := None;
                                 Rating_pengguna := None; rating_pengguna := None |};
                     similarity_score := 1 # 2; rank := 9; match_highlights := [] |} in
  Results.rank <$> sort (compare "price_asc")
    [sample 9000000 4 (1 # 2) 1; unpriced; sample 3200000 4 (1 # 2) 2]
  = [1; 9; 2]%Z.
Proof. vm_compute. reflexivity. Qed.

Lemma StronglySorted_take_drop {A} (R : A -> A -> Prop) (l : list A) (n : nat)
    (x y : A) :
  StronglySorted R l -> x ∈ take n l -> y ∈ drop n l -> R x y.
Proof.
  intros Hsorted. revert n.
  induction Hsorted as [|a l Hs IH Hall]; intros n Hx Hy.
  - destruct n; inversion Hx.
  - destruct n as [|n]; [inversion Hx|].
    cbn in Hx, Hy. apply elem_of_cons in Hx as [->|Hx].
    + rewrite Forall_forall in Hall. apply Hall.
      eapply (subseteq_drop n l). exact Hy.
    + exact (IH n Hx Hy).
Qed.

(** X9.  The "Perbandingan Top 3" table is there exactly when at least
    three recommendations were received.  Its columns are numbered 1, 2,
    3 and hold the first three entries of the sorted array, each a
    received recommendation; under 'similarity' no recommendation
    outside the table scores higher than one inside. *)
Theorem comparison_top_three (sortBy : string) (recommendations : loc) (h : Store)
    (received : list Recommendation) :
  h !! recommendations = Some received ->
  exists sorted h' result,
    sortedRecommendations sortBy recommendations h = Some (sorted, h')
    /\ h' !! sorted = Some result
    /\ (comparison_columns result = None <-> (length received < 3)%nat)
    /\ (forall columns, comparison_columns result = Some columns ->
          fst <$> columns = [1; 2; 3]%Z
          /\ snd <$> columns = take 3 result
          /\ Forall (fun c => c ∈ received) (snd <$> columns)
          /\ (sortBy = "similarity"%string ->
              Forall (fun c => Forall (fun r => by_similarity c r) (drop 3 result))
                     (snd <$> columns))).
Proof.
  intros Hrec.
  destruct (sortedRecommendations_run sortBy _ _ _ Hrec) as [Hrun Hres].
  eexists _, _, _. split; [exact Hrun|]. split; [exact Hres|].
  set (result := sort (compare sortBy) received).
  assert (Hlen : length result = length received)
    by (apply Permutation_length, sort_perm).
  unfold comparison_columns. rewrite Hlen.
  destruct (Z.leb_spec 3 (Z.of_nat (length received))) as [Hge|Hlt].
  - split; [split; [discriminate | lia]|].
    intros columns [= <-]. change 3%Z with (Z.of_nat 3). rewrite slice_0.
    assert (Hsnd : snd <$> imap (fun idx rec => ((Z.of_nat idx + 1)%Z, rec))
                             (take 3 result) = take 3 result).
    { rewrite fmap_imap.
      rewrite (imap_ext _ (fun _ x => x) _) by reflexivity.
      generalize (take 3 result). intros l.
      induction l as [|x l IH]; [reflexivity|]. cbn. f_equal. exact IH. }
    split; [|split; [exact Hsnd|rewrite Hsnd; split]].
    + rewrite fmap_imap.
      rewrite (imap_ext _ (fun idx _ => (Z.of_nat idx + 1)%Z) _) by reflexivity.
      rewrite imap_seq_0, length_take, Hlen.
      replace (3 `min` length received)%nat with 3%nat by lia. reflexivity.
    + rewrite Forall_forall. intros c Hc.
      apply (subseteq_take 3 result) in Hc.
      unfold result in Hc. rewrite sort_perm in Hc. exact Hc.
    + intros ->. rewrite Forall_forall. intros c Hc.
      rewrite Forall_forall. intros r Hr.
      exact (StronglySorted_take_drop by_similarity result 3 c r
               (sort_by_similarity received) Hc Hr).
  - split; [split; [intros _; lia | reflexivity]|]. discriminate.
Qed.

Lemma comparison_top_three_witness :
  exists sorted h' result,
    sortedRecommendations "similarity" 0%nat {[ 0%nat := sample_recommendations ]}
      = Some (sorted, h')
    /\ h' !! sorted = Some result
    /\ (comparison_columns result = None
        <-> (length sample_recommendations < 3)%nat).
Proof.
  destruct (comparison_top_three "similarity" 0%nat
              {[ 0%nat := sample_recommendations ]} sample_recommendations
              (lookup_singleton_eq _ _))
    as (sorted & h' & result & Hrun & Hres & Hnone & _).
  exists sorted, h', result. repeat split; try assumption; apply Hnone.
Defined.



End ResultsViewFacts.

(** ** The Admin page: total, edits, loading and resetting *)

Section AdminPageFacts.
Import Helpers Admin AdminPage Samples Double.
Local Open Scope Q_scope.

Example total_is_green_examples :
  total_is_green home_page_weights = true
  /\ total_is_green [("Harga", 101)]%string = false
  /\ isValid (validateWeights [("Harga", 101)]%string) = true
  /\ total_is_green decimal_weights = false.
Proof. repeat split; vm_compute; reflexivity. Qed.

(** A double of magnitude 2^(52-p) or more is a multiple of 2^-p. *)
Lemma representable_coarse (p : Z) (t : Q) :
  representable t -> pow2 (52 - p) <= Qabs t -> on_grid p t.
Proof.
  intros (m & e & Hm & He & Ht) Hbig.
  assert (- p <= e)%Z as Hpe.
  { destruct (Z_le_gt_dec (- p) e) as [H|H]; [exact H | exfalso].
    rewrite Ht, Qabs_Qmult, (Qabs_pos (pow2 e)) in Hbig
      by (apply Qlt_le_weak, pow2_pos).
    assert (Qabs (inject_Z m) < pow2 53) as Hm'.
    { rewrite pow2_53. unfold inject_Z at 1. rewrite <- Zabs_Qabs.
      fold (inject_Z (Z.abs m)). rewrite <- Zlt_Qlt. exact Hm. }
    assert (pow2 53 * pow2 e <= pow2 (52 - p)) as Hp.
    { rewrite <- pow2_add. apply pow2_le. lia. }
    pose proof (pow2_pos e). pose proof (Qabs_nonneg (inject_Z m)). nra. }
  exists (m * 2 ^ (e + p))%Z.
  rewrite Ht, inject_Z_mult, <- pow2_Z by lia.
  rewrite <- Qmult_assoc, <- pow2_add.
  replace (e + p + - p)%Z with e by lia. reflexivity.
Qed.

(** The distance from 100 of a double between 99 and 101 is a double:
    the subtraction [totalWeight - 100] is exact there. *)
Lemma representable_near_100 (t : Q) :
  representable t -> 99 < t < 101 -> representable (t - 100).
Proof.
  intros Ht Hr.
  apply (on_grid_representable 46); [lia | |].
  - apply on_grid_plus.
    + apply representable_coarse; [exact Ht|].
      rewrite Qabs_pos by lra. change (pow2 (52 - 46)) with 64. lra.
    + exists (- 100 * 2 ^ 46)%Z. reflexivity.
  - assert (Qabs (t - 100) < 1) as Hlt by (apply Qabs_diff_Qlt_condition; lra).
    assert (pow2 53 == 128 * pow2 46) as -> by reflexivity.
    pose proof (pow2_pos 46). pose proof (Qabs_nonneg (t - 100)). nra.
Qed.

Lemma representable_1 : representable 1 /\ representable (- (1)).
Proof.
  split; [exists 1%Z, 0%Z | exists (- 1)%Z, 0%Z];
    (split; [reflexivity|]); (split; [lia | reflexivity]).
Qed.

(** [Math.abs(t - 100) < 1] on a double [t]. *)
Lemma near_100_iff (t : Q) :
  representable t ->
  lt (abs (sub (JS.Fin t) (JS.Fin 100))) 1 = true <-> 99 < t < 101.
Proof.
  intros Ht. cbn [sub]. split.
  - intros Hg.
    destruct (Qlt_le_dec 99 t) as [Hlo|Hlo];
      [destruct (Qlt_le_dec t 101) as [Hhi|Hhi]; [split; assumption|]|]; exfalso.
    + pose proof (round_ge (t - 100) 1 (proj1 representable_1)) as Hge.
      destruct (round (t - 100)) as [| s | r]; cbn [abs lt ge] in Hg, Hge;
        [discriminate | discriminate |].
      apply negb_true_iff, Qle_bool_false_iff in Hg.
      assert (1 <= r) as Hr by (apply Qle_bool_iff, Hge; lra).
      rewrite Qabs_pos in Hg by lra. lra.
    + pose proof (round_le (t - 100) (- (1)) (proj2 representable_1)) as Hle.
      destruct (round (t - 100)) as [| s | r]; cbn [abs lt le] in Hg, Hle;
        [discriminate | discriminate |].
      apply negb_true_iff, Qle_bool_false_iff in Hg.
      assert (r <= - (1)) as Hr by (apply Qle_bool_iff, Hle; lra).
      rewrite Qabs_neg in Hg by lra. lra.
  - intros Hr.
    destruct (round_exact (t - 100) (representable_near_100 t Ht Hr)) as (r & -> & Heq).
    cbn [abs lt]. apply negb_true_iff, Qle_bool_false_iff.
    rewrite Heq. apply Qabs_diff_Qlt_condition. lra.
Qed.

(** X11.  The total is shown green exactly when it is a number
    strictly between 99 and 101 (the subtraction of 100 is exact
    there).  A green total without zero weight is always accepted by
    [validateWeights]; the converse fails only on the two bounds:
    weights that are accepted under a red total have the total 99 or the
    total 101. *)
Theorem total_badge_vs_validation (weights : Weights) :
  (total_is_green weights = true <->
   exists t, totalWeight weights = JS.Fin t /\ 99 < t < 101)
  /\ (total_is_green weights = true ->
      Forall (fun val => ~ val == 0) (Object_values weights) ->
      isValid (validateWeights weights) = true)
  /\ (isValid (validateWeights weights) = true ->
      total_is_green weights = false ->
      exists t, totalWeight weights = JS.Fin t /\ (t == 99 \/ t == 101)).
Proof.
  assert (Hgreen : total_is_green weights = true <->
                   exists t, totalWeight weights = JS.Fin t /\ 99 < t < 101).
  { unfold total_is_green.
    pose proof (sum_values_representable (Object_values weights)) as Hrep.
    fold (totalWeight weights) in Hrep.
    destruct (totalWeight weights) as [| s | t].
    - split; [discriminate | intros (t & [=] & _)].
    - split; [discriminate | intros (t & [=] & _)].
    - rewrite (near_100_iff t (Hrep t eq_refl)). split.
      + intros H. exists t. split; [reflexivity | exact H].
      + intros (t' & [= <-] & H). exact H. }
  split; [exact Hgreen|]. split.
  - intros Hg Hnz. apply Hgreen in Hg. destruct Hg as (t & Ht & Hr).
    apply isValid_true_iff. split; [|exact Hnz].
    exists t. split; [exact Ht | lra].
  - intros Hv Hred. apply isValid_true_iff in Hv. destruct Hv as [(t & Ht & Hr) _].
    exists t. split; [exact Ht|].
    destruct (Qlt_le_dec 99 t) as [Hlo|Hlo]; [|left; lra].
    destruct (Qlt_le_dec t 101) as [Hhi|Hhi]; [|right; lra].
    assert (Hg : total_is_green weights = true).
    { apply Hgreen. exists t. split; [exact Ht | split; assumption]. }
    congruence.
Qed.

(** What [saveWeights] does on weights that fail the validation. *)
Lemma saveWeights_invalid_run (server_accepts : Weights -> bool) (w : World) :
  isValid (validateWeights (Admin.weights (state w))) = false ->
  saveWeights server_accepts w
  = (Returned tt,
     {| state := state w;
        trace := trace w
                 ++ [Admin.ToastError
                       (message (validateWeights (Admin.weights (state w))))] |}).
Proof.
  intros Hinv. unfold saveWeights, mbind, M_bind, getWeights. cbn beta iota.
  rewrite Hinv. reflexivity.
Qed.

(** What [saveWeights] does on weights that pass the validation. *)
Lemma saveWeights_valid_run (server_accepts : Weights -> bool) (w : World) :
  isValid (validateWeights (Admin.weights (state w))) = true ->
  let ws := Admin.weights (state w) in
  saveWeights server_accepts w
  = (Returned tt,
     {| state := {| Admin.weights := ws;
                    originalWeights :=
                      if server_accepts ws then ws else originalWeights (state w);
                    saving := false |};
        trace := trace w
                 ++ [UpdateWeights ws;
                     if server_accepts ws
                     then Admin.ToastSuccess "Bobot berhasil disimpan"
                     else Admin.ToastError "Gagal menyimpan bobot"] |}).
Proof.
  intros Hv ws. subst ws.
  unfold saveWeights, mbind, M_bind, getWeights. cbn beta iota.
  rewrite Hv. cbn [negb].
  unfold try_catch_finally, adminAPI_updateWeights, mbind, M_bind,
    setSaving, setOriginalWeights, emit, settle.
  cbn [state trace Admin.weights originalWeights saving].
  destruct (server_accepts (Admin.weights (state w)));
    cbn [state trace Admin.weights originalWeights saving snd];
    rewrite <- ?app_assoc; reflexivity.
Qed.

(** X12.  With weights that pass the validation [saveWeights] sends
    them exactly once.  When the server accepts they become the saved
    weights and a success toast follows; when the request fails the
    saved weights stay as they were and an error toast follows.  Either
    way the weights being edited are kept and [saving] ends false. *)
Theorem saveWeights_valid_persists (server_accepts : Weights -> bool) (w : World) :
  isValid (validateWeights (Admin.weights (state w))) = true ->
  let ws := Admin.weights (state w) in
  let '(outcome, w') := saveWeights server_accepts w in
  outcome = Returned tt
  /\ Admin.weights (state w') = ws
  /\ saving (state w') = false
  /\ (if server_accepts ws
      then originalWeights (state w') = ws
           /\ trace w' = trace w ++ [UpdateWeights ws;
                                     Admin.ToastSuccess "Bobot berhasil disimpan"]
      else originalWeights (state w') = originalWeights (state w)
           /\ trace w' = trace w ++ [UpdateWeights ws;
                                     Admin.ToastError "Gagal menyimpan bobot"]).
Proof.
  intros Hv ws. subst ws.
  rewrite (saveWeights_valid_run server_accepts w Hv).
  cbn [state trace Admin.weights originalWeights saving].
  destruct (server_accepts (Admin.weights (state w))); repeat split.
Qed.

Lemma saveWeights_valid_persists_witness :
  let w := {| state := {| Admin.weights := home_page_weights;
                          originalWeights := [("Harga", 100)]%string;
                          saving := false |};
              trace := [] |} in
  originalWeights (state (snd (saveWeights (fun _ => true) w))) = home_page_weights
  /\ requests (trace (snd (saveWeights (fun _ => true) w)))
     = [UpdateWeights home_page_weights].
Proof.
  intros w.
  pose proof (saveWeights_valid_persists (fun _ => true) w eq_refl) as H.
  destruct (saveWeights (fun _ => true) w) as [o w'].
  destruct H as (_ & _ & _ & Horig & Htrace). cbn [snd].
  split; [exact Horig | rewrite Htrace; reflexivity].
Defined.

Lemma set_property_elem (key : string) (value : Q) (object : Weights) :
  value ∈ Object_values (set_property key value object).
Proof.
  induction object as [|[k v] rest IH]; simpl.
  - apply list_elem_of_here.
  - destruct (String.eqb k key); simpl.
    + apply list_elem_of_here.
    + apply list_elem_of_further, IH.
Qed.

Lemma existsb_zero (vals : list Q) :
  0 ∈ vals -> existsb (fun val => Qeq_bool val 0) vals = true.
Proof.
  intros H. apply existsb_exists. exists 0.
  split; [apply list_elem_of_In, H | reflexivity].
Qed.

Section Edits.

Variable parseFloat : string -> JS.number.
Variable server_accepts : Weights -> bool.

(** X13.  A weight field whose text does not parse to a non-zero
    number (empty, not a number, or 0) is stored as 0, and the weights
    are then invalid: a following [saveWeights] shows the error and
    sends nothing, whatever the other weights are. *)
Theorem handleWeightChange_zero_blocks_save (key value : string) (w : World) :
  JS.number_truthy (parseFloat value) = false ->
  exists st',
    handleWeightChange parseFloat key value (state w) = Some st'
    /\ 0 ∈ Object_values (Admin.weights st')
    /\ hasZero (validateWeights (Admin.weights st')) = true
    /\ isValid (validateWeights (Admin.weights st')) = false
    /\ requests (trace (snd (saveWeights server_accepts
                               {| state := st'; trace := trace w |})))
       = requests (trace w)
    /\ originalWeights (state (snd (saveWeights server_accepts
                                      {| state := st'; trace := trace w |})))
       = originalWeights (state w).
Proof.
  intros Hfalsy. unfold handleWeightChange.
  assert (Hparsed : number_or_zero (parseFloat value) = Some 0).
  { destruct (parseFloat value) as [| |q]; simpl in *; try discriminate; [reflexivity|].
    apply negb_false_iff in Hfalsy. rewrite Hfalsy. reflexivity. }
  rewrite Hparsed. cbn. eexists. split; [reflexivity|].
  cbn [Admin.weights].
  pose proof (set_property_elem key 0 (Admin.weights (state w))) as Hin.
  pose proof (existsb_zero _ Hin) as Hzero.
  assert (Hinv : isValid (validateWeights (set_property key 0 (Admin.weights (state w))))
                 = false).
  { rewrite isValid_unfold, Hzero. apply andb_false_r. }
  split; [exact Hin|]. split; [exact Hzero|]. split; [exact Hinv|].
  rewrite saveWeights_invalid_run by exact Hinv. cbn [snd trace state originalWeights].
  split; [|reflexivity].
  rewrite requests_app. cbn. apply app_nil_r.
Qed.

End Edits.

Lemma handleWeightChange_zero_blocks_save_witness :
  exists st',
    handleWeightChange (fun _ => JS.NaN) "RAM" "abc"
      {| Admin.weights := home_page_weights; originalWeights := home_page_weights;
         saving := false |} = Some st'
    /\ isValid (validateWeights (Admin.weights st')) = false.
Proof.
  destruct (handleWeightChange_zero_blocks_save (fun _ => JS.NaN) (fun _ => true)
              "RAM" "abc"
              {| state := {| Admin.weights := home_page_weights;
                             originalWeights := home_page_weights;
                             saving := false |};
                 trace := [] |} eq_refl)
    as (st' & Hrun & _ & _ & Hinv & _).
  exists st'. split; [exact Hrun | exact Hinv].
Defined.

Example set_property_examples :
  set_property "RAM" 20 home_page_weights
  = [("Harga", 25); ("RAM", 20); ("Storage", 10); ("Baterai", 15);
     ("Kamera", 15); ("Layar", 5); ("Rating", 15)]%string
  /\ set_property "OS" 5 [("Harga", 25)]%string = [("Harga", 25); ("OS", 5)]%string.
Proof. repeat split. Qed.

(** The values after an edit: their sum, their magnitudes and what
    holds of each of them. *)
Lemma set_property_values (key : string) (value : Q) (weights : Weights) :
  exact_sum (Object_values (set_property key value weights))
    == exact_sum (Object_values weights)
       - default 0 (Util.own_property key weights) + value
  /\ sum_abs (Object_values (set_property key value weights))
     <= sum_abs (Object_values weights) + Qabs value
  /\ (forall P : Q -> Prop,
        P value -> Forall P (Object_values weights) ->
        Forall P (Object_values (set_property key value weights))).
Proof.
  assert (forall k v (rest : Weights),
             Object_values ((k, v) :: rest) = v :: Object_values rest) as Hcons
    by reflexivity.
  induction weights as [|[k v] rest (IHsum & IHabs & IHall)].
  - split; [cbn; ring|]. split; [cbn; lra|].
    intros P Hv _. repeat constructor. exact Hv.
  - cbn [set_property Util.own_property]. destruct (String.eqb k key).
    + rewrite !Hcons, !exact_sum_cons, !sum_abs_cons. cbn [default from_option id].
      split; [ring|].
      split; [pose proof (Qabs_nonneg v); lra|].
      intros P Hv Hall. apply Forall_cons in Hall. destruct Hall as [_ Hall].
      constructor; assumption.
    + rewrite !Hcons, !exact_sum_cons, !sum_abs_cons.
      split; [rewrite IHsum; ring|].
      split; [lra|].
      intros P Hv Hall. apply Forall_cons in Hall. destruct Hall as [Hk Hall].
      constructor; [exact Hk | apply IHall; assumption].
Qed.

(** The total after an edit is the rounded sum of the new values, not
    the old total corrected: from 25.4 + 39 = 64.4 the edit of 39 to 24.2
    gives 49.599999999999994, where 64.4 - 39 + 24.2 is
    49.60000000000001. *)
Example set_property_total_rounded :
  let weights := [("Harga", literal (254 # 10)); ("RAM", 39)]%string in
  totalWeight weights = JS.Fin (literal (644 # 10))
  /\ totalWeight (set_property "RAM" (literal (242 # 10)) weights)
     = JS.Fin (literal (49599999999999994 # 1000000000000000))
  /\ add (sub (totalWeight weights) (JS.Fin 39)) (JS.Fin (literal (242 # 10)))
     = JS.Fin (literal (4960000000000001 # 100000000000000)).
Proof. repeat split; vm_compute; reflexivity. Qed.

(** X14.  After the edit [{...prev, [key]: value}] the key reads the
    new value, every other key keeps its value, and for a key that was
    there the keys and their order are unchanged.  Where all values lie
    on a common binary grid fine enough for their magnitudes (the
    integers of the sliders, say), both totals are exact, and the total
    moves by the difference between the new and the old value of the key
    (by the whole new value for a key that was not there). *)
Theorem set_property_total (key : string) (value : Q) (weights : Weights) :
  Util.own_property key (set_property key value weights) = Some value
  /\ (forall other, other <> key ->
        Util.own_property other (set_property key value weights)
        = Util.own_property other weights)
  /\ (is_Some (Util.own_property key weights) ->
      fst <$> set_property key value weights = fst <$> weights)
  /\ (forall p : Z,
        (0 <= p <= 1074)%Z ->
        on_grid p value -> Forall (on_grid p) (Object_values weights) ->
        (sum_abs (Object_values weights) + Qabs value) * pow2 p < pow2 53 ->
        exists t t',
          totalWeight weights = JS.Fin t
          /\ totalWeight (set_property key value weights) = JS.Fin t'
          /\ t' == t - default 0 (Util.own_property key weights) + value).
Proof.
  split; [|split; [|split]].
  - induction weights as [|[k v] rest IH]; simpl.
    + rewrite String.eqb_refl. reflexivity.
    + destruct (String.eqb_spec k key) as [->|Hne]; simpl.
      * rewrite String.eqb_refl. reflexivity.
      * destruct (String.eqb_spec k key); [congruence | exact IH].
  - intros other Hother.
    induction weights as [|[k v] rest IH]; simpl.
    + destruct (String.eqb_spec key other); [congruence | reflexivity].
    + destruct (String.eqb_spec k key) as [->|Hne]; simpl.
      * destruct (String.eqb_spec key other); [congruence | reflexivity].
      * destruct (String.eqb k other); [reflexivity | exact IH].
  - induction weights as [|[k v] rest IH]; simpl.
    + intros [x Hx]. discriminate Hx.
    + destruct (String.eqb_spec k key) as [->|Hne]; [reflexivity|].
      intros Hsome. cbn. f_equal. apply IH, Hsome.
  - intros p Hp Hvalue Hgrid Hb.
    destruct (set_property_values key value weights) as (Hsum & Habs & Hall).
    pose proof (pow2_pos p) as HP. pose proof (Qabs_nonneg value) as Hv0.
    destruct (sum_values_exact p (Object_values weights)) as (t & Ht & Heq);
      [lia | exact Hgrid | nra |].
    destruct (sum_values_exact p (Object_values (set_property key value weights)))
      as (t' & Ht' & Heq'); [lia | apply Hall; assumption | nra |].
    exists t, t'. split; [exact Ht|]. split; [exact Ht'|].
    rewrite Heq', Hsum, Heq. reflexivity.
Qed.

Lemma set_property_total_witness :
  exists t t',
    totalWeight home_page_weights = JS.Fin t
    /\ totalWeight (set_property "RAM" 20 home_page_weights) = JS.Fin t'
    /\ t' == t - 15 + 20.
Proof.
  destruct (set_property_total "RAM" 20 home_page_weights) as (_ & _ & _ & Htotal).
  destruct (Htotal 0%Z) as (t & t' & Ht & Ht' & Heq).
  - lia.
  - exists 20%Z. reflexivity.
  - repeat constructor;
      match goal with
      | |- on_grid 0 ?q => exists (Qnum q); vm_compute; reflexivity
      end.
  - reflexivity.
  - exists t, t'. split; [exact Ht|]. split; [exact Ht' | exact Heq].
Defined.

Section PageFacts.

Variable Dashboard : Type.
Variable stringify : Weights -> string.

(** A reply to the presets request without a body leaves the page
    half loaded: the weights are replaced, the presets and the dashboard
    are not, and the error toast is shown. *)
Example loadData_partial (d : Dashboard) :
  let st := {| settings := {| Admin.weights := []; originalWeights := [];
                              saving := false |};
               loading := true; presets := []; dashboard := None |} in
  loadData Dashboard
    {| weightsRes := Body home_page_weights; presetsRes := Empty;
       dashboardRes := Body d |} st
  = ({| settings := {| Admin.weights := home_page_weights;
                       originalWeights := home_page_weights; saving := false |};
        loading := false; presets := []; dashboard := None |},
     [GetWeights; GetWeightPresets; GetDashboard;
      AdminPage.ToastError "Gagal memuat data"]).
Proof. reflexivity. Qed.

(** X15.  [loadData] always sends the three requests and ends with
    [loading] false.  When a request is rejected, or the reply to the
    weights request has no body, nothing is replaced and the error toast
    is shown.  When all three resolve and only the presets reply has no
    body, the weights and the saved weights are replaced, the presets
    and the dashboard are kept, and the error toast is shown all the
    same.  When the weights and the presets are there, all four are
    replaced without a toast, the dashboard by the body of the third
    reply ([null] for an empty one). *)
Theorem loadData_outcomes (replies : Replies Dashboard)
    (st : PageState Dashboard) :
  let '(st', events) := loadData Dashboard replies st in
  let requests := [GetWeights; GetWeightPresets; GetDashboard] in
  let toast := AdminPage.ToastError "Gagal memuat data" in
  loading Dashboard st' = false
  /\ take 3 events = requests
  /\ ((weightsRes Dashboard replies = Rejects \/ presetsRes Dashboard replies = Rejects
       \/ dashboardRes Dashboard replies = Rejects
       \/ weightsRes Dashboard replies = Empty) ->
      settings Dashboard st' = settings Dashboard st
      /\ presets Dashboard st' = presets Dashboard st
      /\ dashboard Dashboard st' = dashboard Dashboard st
      /\ events = requests ++ [toast])
  /\ (forall ws,
        weightsRes Dashboard replies = Body ws ->
        presetsRes Dashboard replies = Empty ->
        dashboardRes Dashboard replies <> Rejects ->
        Admin.weights (settings Dashboard st') = ws
        /\ originalWeights (settings Dashboard st') = ws
        /\ presets Dashboard st' = presets Dashboard st
        /\ dashboard Dashboard st' = dashboard Dashboard st
        /\ events = requests ++ [toast])
  /\ (forall ws ps,
        weightsRes Dashboard replies = Body ws ->
        presetsRes Dashboard replies = Body ps ->
        dashboardRes Dashboard replies <> Rejects ->
        Admin.weights (settings Dashboard st') = ws
        /\ originalWeights (settings Dashboard st') = ws
        /\ presets Dashboard st' = ps
        /\ dashboard Dashboard st'
           = match dashboardRes Dashboard replies with
             | Body d => Some d
             | _ => None
             end
        /\ events = requests).
Proof.
  unfold loadData.
  destruct (weightsRes Dashboard replies) as [| |ws];
    destruct (presetsRes Dashboard replies) as [| |ps];
    destruct (dashboardRes Dashboard replies) as [| |d];
    cbn; (split; [reflexivity|]); (split; [reflexivity|]);
    (split; [|split]);
    try (intros [H|[H|[H|H]]]; discriminate H);
    try (intros _; repeat split; reflexivity);
    try (intros ? H1 H2 H3; first [discriminate H1 | discriminate H2 | contradiction H3; reflexivity]);
    try (intros ? ? H1 H2 H3; first [discriminate H1 | discriminate H2 | contradiction H3; reflexivity]);
    try (intros ? [= <-] _ _; repeat split; reflexivity);
    try (intros ? ? [= <-] [= <-] _; repeat split; reflexivity).
Qed.

(** X16.  After the weights were loaded (all three requests resolved,
    the weights among them, even when the presets were not), reset or
    saved with success, the page has no pending change: the weights and
    the saved weights are the same object contents, so [isChanged] is
    false (and the save button disabled) whatever [JSON.stringify]
    prints.  A reset that fails changes nothing. *)
Theorem no_pending_change_after_success (st : PageState Dashboard) (w : World)
    (server_accepts : Weights -> bool) :
  (forall replies ws,
     weightsRes Dashboard replies = Body ws ->
     presetsRes Dashboard replies <> Rejects ->
     dashboardRes Dashboard replies <> Rejects ->
     isChanged stringify (settings Dashboard (fst (loadData Dashboard replies st)))
     = false)
  /\ (forall new_weights,
        isChanged stringify
          (settings Dashboard (fst (resetWeights Dashboard (Some new_weights) st)))
        = false
        /\ Admin.weights
             (settings Dashboard (fst (resetWeights Dashboard (Some new_weights) st)))
           = new_weights)
  /\ fst (resetWeights Dashboard None st) = st
  /\ (isValid (validateWeights (Admin.weights (state w))) = true ->
      server_accepts (Admin.weights (state w)) = true ->
      isChanged stringify (state (snd (saveWeights server_accepts w))) = false).
Proof.
  assert (Hsame : forall s, Admin.weights s = originalWeights s ->
                            isChanged stringify s = false).
  { intros s Heq. unfold isChanged. rewrite Heq, String.eqb_refl. reflexivity. }
  split; [|split; [|split]].
  - intros replies ws H1 H2 H3. apply Hsame.
    unfold loadData. rewrite H1.
    destruct (presetsRes Dashboard replies); [contradiction H2; reflexivity| |];
      (destruct (dashboardRes Dashboard replies); [contradiction H3; reflexivity| |]);
      reflexivity.
  - intros new_weights. split; [apply Hsame|]; reflexivity.
  - reflexivity.
  - intros Hv Hacc. apply Hsame.
    rewrite (saveWeights_valid_run server_accepts w Hv), Hacc. reflexivity.
Qed.

End PageFacts.

End AdminPageFacts.

(** ** The Evaluation page: loading, re-running, cards and charts *)

Section EvaluationViewFacts.
Import Evaluation EvaluationView.
Local Open Scope Q_scope.

Variable Number_toString : JS.number -> string.

(** A reply whose first result has no metrics leaves the page without
    chart data: preparing it throws. *)
Example loadResults_without_metrics :
  let reply := Resolved {| results := Some [ {| scenario := "70-30";
                                                result_metrics := None |} ] |} in
  let st := loadResults reply {| loading := true; evaluating := false;
                                 shown_results := None |} in
  prepareBarChartData st = ChartTypeError
  /\ prepareRadarChartData st = ChartTypeError
  /\ confusionMatrix st = MATRIX.
Proof. repeat split. Qed.



(** *** What [toFixed(1)] shows of a small number *)







(** A metric of 0.04 is shown as 0.0%, a metric of 0 as the default. *)
Example metric_cards_small :
  let shown accuracy :=
    card_text <$> head (metric_cards Number_toString
      {| loading := false; evaluating := false;
         shown_results :=
           Some {| success := true; best_scenario := "70-30";
                   scenarios :=
                     [ {| name := "70-30"; train_size := 700%Z; test_size := 300%Z;
                          metrics := Some {| accuracy := accuracy; precision := 80;
                                             recall := 80; f1_score := 80 |};
                          confusion_matrix := None |} ] |} |}) in
  shown (4 # 100) = Some "0.0%"%string
  /\ shown 0 = Some "76.0%"%string
  /\ shown (805 # 10) = Some "80.5%"%string.
Proof. repeat split. Qed.


(** The matrix of a re-run is the server's: a reply with another
    matrix changes what is displayed, a reply without one brings the
    constant back. *)
Example runEvaluation_other_matrix :
  let data confusion :=
    {| success := true; best_scenario := "70-30";
       scenarios := [ {| name := "70-30"; train_size := 700%Z; test_size := 300%Z;
                         metrics := Some {| accuracy := 80; precision := 80;
                                            recall := 80; f1_score := 80 |};
                         confusion_matrix := confusion |} ] |} in
  let shown confusion :=
    confusionMatrix (fst (runEvaluation (RunResolved (Some (data confusion)))
                            {| loading := false; evaluating := false;
                               shown_results := Some DEFAULT_RESULTS |})) in
  shown (Some {| matrix := Some [[30; 5; 6]; [7; 122; 17]; [1; 30; 82]]%Z;
                 labels := []; tp := 0; tn := 0; fp := 0; fn := 0 |})
  = [[30; 5; 6]; [7; 122; 17]; [1; 30; 82]]%Z
  /\ shown (Some {| matrix := None; labels := []; tp := 0; tn := 0; fp := 0; fn := 0 |})
     = MATRIX
  /\ shown None = MATRIX.
Proof. repeat split. Qed.

End EvaluationViewFacts.

(** ** The Recommendation page *)

Section BrandToggleFacts.
Import Recommendation.

Lemma toggled_elem (brand b : string) (brands : list string) :
  b ∈ toggled brand brands <->
  (b <> brand /\ b ∈ brands) \/ (b = brand /\ brand ∉ brands).
Proof.
  unfold toggled. case_bool_decide as Hin.
  - rewrite list_elem_of_filter. split.
    + intros [Hne Hb]. left. split; assumption.
    + intros [[Hne Hb]|[-> Hnot]]; [split; assumption | contradiction].
  - rewrite elem_of_app, list_elem_of_singleton. split.
    + intros [Hb| ->]; [left; split; [congruence | exact Hb] | right; split; auto].
    + intros [[_ Hb]|[-> _]]; [left; exact Hb | right; reflexivity].
Qed.

Example handleBrandToggle_examples :
  toggled "Oppo" ["Apple"; "Oppo"; "Vivo"]%string = ["Apple"; "Vivo"]%string
  /\ toggled "Sony" ["Apple"; "Oppo"]%string = ["Apple"; "Oppo"; "Sony"]%string
  /\ toggled "Sony" [] = ["Sony"]%string.
Proof. repeat split. Qed.

(** X20.  [handleBrandToggle] flips the selection of the brand and of
    no other: the brand is selected afterwards exactly when it was not
    before, every other brand keeps its state and every other field of
    the form its value.  A selection without repetition stays so, and
    toggling the same brand twice gives back the same selection (the
    same list when the brand was not selected). *)
Theorem handleBrandToggle_flips (brand : string) (prev : FormData) :
  let before := default [] (preferred_brands prev) in
  exists after,
    preferred_brands (handleBrandToggle brand prev) = Some after
    /\ handleBrandToggle brand prev = with_brands prev (Some after)
    /\ (brand ∈ after <-> brand ∉ before)
    /\ (forall other, other <> brand -> (other ∈ after <-> other ∈ before))
    /\ (NoDup before -> NoDup after)
    /\ (NoDup before ->
        default [] (preferred_brands
                      (handleBrandToggle brand (handleBrandToggle brand prev)))
        ≡ₚ before)
    /\ (brand ∉ before ->
        preferred_brands (handleBrandToggle brand (handleBrandToggle brand prev))
        = Some before).
Proof.
  intros before. exists (toggled brand before).
  split; [reflexivity|]. split; [reflexivity|].
  split; [rewrite toggled_elem; split;
            [intros [[Hne _]|[_ Hnot]]; [congruence | exact Hnot]
            | intros Hnot; right; split; [reflexivity | exact Hnot]]|].
  split; [intros other Hne; rewrite toggled_elem; split;
            [intros [[_ Hb]|[Heq _]]; [exact Hb | congruence]
            | intros Hb; left; split; assumption]|].
  assert (Hnodup : forall l, NoDup l -> NoDup (toggled brand l)).
  { intros l Hnd. unfold toggled. case_bool_decide as Hin.
    - apply NoDup_filter, Hnd.
    - apply NoDup_app. split; [exact Hnd|]. split; [|apply NoDup_singleton].
      intros x Hx Hx'. apply list_elem_of_singleton in Hx'. congruence. }
  split; [apply Hnodup|].
  assert (Hnotin : brand ∉ before ->
                   toggled brand (toggled brand before) = before).
  { intros Hnot. unfold toggled at 2. rewrite bool_decide_eq_false_2 by exact Hnot.
    unfold toggled. rewrite bool_decide_eq_true_2
      by (apply elem_of_app; right; apply list_elem_of_singleton; reflexivity).
    rewrite filter_app. cbn.
    case_decide; [congruence|]. rewrite app_nil_r.
    clear -Hnot. induction before as [|x l IH]; [reflexivity|].
    apply not_elem_of_cons in Hnot as [Hne Hnot].
    rewrite filter_cons_True by congruence. f_equal. apply IH, Hnot. }
  assert (Htwice : preferred_brands
                     (handleBrandToggle brand (handleBrandToggle brand prev))
                   = Some (toggled brand (toggled brand before))) by reflexivity.
  rewrite Htwice. cbn [default]. unfold id. split.
  - intros Hnd.
    destruct (decide (brand ∈ before)) as [Hin|Hnot];
      [|rewrite Hnotin by exact Hnot; reflexivity].
    apply NoDup_Permutation; [apply Hnodup, Hnodup, Hnd | exact Hnd|].
    intros x. rewrite !toggled_elem.
    destruct (decide (x = brand)) as [->|Hne]; [|tauto].
    split; [intros _; exact Hin|].
    intros _. right. split; [reflexivity|]. tauto.
  - intros Hnot. rewrite Hnotin by exact Hnot. reflexivity.
Qed.

End BrandToggleFacts.

Section SubmitFacts.
Import Util Recommendation.
Local Open Scope Q_scope.

Variable ApiResult : Type.
Variable success : ApiResult -> bool.
Variable recommendations : ApiResult -> list Results.Recommendation.
Variable stringify_form : FormData -> option string.
Variable stringify_result : ApiResult -> option string.
Variable parse_result : string -> option (option ApiResult).
Variable has_room : LocalStorage -> string -> string -> bool.
Variable TypeError_message : string.

Abbreviation submit :=
  (handleSubmit ApiResult success recommendations stringify_form stringify_result
     has_room TypeError_message).
Abbreviation mount := (Results_mount ApiResult parse_result).

(** What one [storage.set] of the page does. *)
Lemma store_spec {V} (stringify : V -> option string) (key : string) (value : V)
    (p : Page) :
  let p' := store has_room stringify key value p in
  formData p' = formData p /\ loading p' = loading p
  /\ (forall k, k <> key -> localStorage p' !! k = localStorage p !! k)
  /\ ((exists item, stringify value = Some item
                    /\ has_room (localStorage p) key item = true
                    /\ localStorage p' = <[key := item]> (localStorage p)
                    /\ events p' = events p)
      \/ ((stringify value = None
           \/ exists item, stringify value = Some item
                           /\ has_room (localStorage p) key item = false)
          /\ localStorage p' = localStorage p
          /\ events p' = events p ++ [ConsoleError])).
Proof.
  unfold store, storage_set.
  destruct (stringify value) as [item|]; [destruct (has_room _ key item) eqn:Hroom|];
    cbn; repeat split; try reflexivity.
  - intros k Hk. rewrite lookup_insert_ne by congruence. reflexivity.
  - left. exists item. repeat split. exact Hroom.
  - right. repeat split. right. exists item. split; [reflexivity | exact Hroom].
  - right. repeat split. left. reflexivity.
Qed.

(** The page after the form was saved, up to the request. *)
Lemma handleSubmit_prefs (p : Page) :
  let saved := store has_room stringify_form "recommendation_prefs" (formData p)
                 (setLoading true (log PreventDefault p)) in
  formData saved = formData p
  /\ localStorage saved !! "recommendation_results"%string
     = localStorage p !! "recommendation_results"%string
  /\ exists logged, events saved = events p ++ PreventDefault :: logged
                    /\ (logged = [] \/ logged = [ConsoleError]).
Proof.
  pose proof (store_spec stringify_form "recommendation_prefs" (formData p)
                (setLoading true (log PreventDefault p))) as Hs.
  cbv zeta in *. destruct Hs as (Hform & _ & Hother & Hev).
  split; [exact Hform|].
  split; [rewrite Hother by discriminate; reflexivity|].
  destruct Hev as [(item & _ & _ & _ & Hev)|(_ & _ & Hev)]; rewrite Hev; cbn.
  - exists []. split; [reflexivity | left; reflexivity].
  - exists [ConsoleError]. split; [rewrite <- app_assoc; reflexivity | right; reflexivity].
Qed.

Ltac name_saved p :=
  unfold handleSubmit; cbv zeta;
  set (saved := store has_room stringify_form "recommendation_prefs" _ _);
  let H := fresh "Hsaved" in
  pose proof (handleSubmit_prefs p) as H; cbv zeta in H;
  change (store has_room stringify_form "recommendation_prefs" (formData p)
            (setLoading true (log PreventDefault p))) with saved in H.

(** X21.  A successful search reaches the Results page: when the reply
    is a success with at least one recommendation, its JSON form parses
    back to it and the storage has room, [handleSubmit] ends with the
    result stored, a navigation to /results and the toast counting the
    recommendations, and the Results page then mounts with exactly that
    result. *)
Theorem handleSubmit_results_reach_page (result : ApiResult) (p : Page)
    (brands : list string) (item : string) :
  preferred_brands (formData p) = Some brands ->
  success result = true ->
  recommendations result <> [] ->
  stringify_result result = Some item ->
  parse_result item = Some (Some result) ->
  item <> ""%string ->
  (forall ls, has_room ls "recommendation_results" item = true) ->
  let p' := submit (Resolved ApiResult result) p in
  mount (localStorage p') = Some result
  /\ loading p' = false
  /\ Navigate "/results" ∈ events p'
  /\ last (events p')
     = Some (ToastSuccess ("Ditemukan " +:+ pretty (length (recommendations result))
                           +:+ " rekomendasi!")).
Proof.
  intros Hbrands Hsucc Hrecs Hstr Hparse Hne Hroom p'. subst p'.
  name_saved p. destruct Hsaved as (Hform & _ & _).
  change (formData (setLoading true (log PreventDefault p))) with (formData p).
  rewrite Hbrands, Hsucc.
  replace (0 <? Z.of_nat (length (recommendations result)))%Z with true
    by (symmetry; apply Z.ltb_lt; destruct (recommendations result);
        [congruence | cbn [length]; lia]).
  cbn [andb].
  set (asked := log _ saved).
  pose proof (store_spec stringify_result "recommendation_results" result asked) as Hs.
  cbv zeta in Hs. destruct Hs as (_ & _ & _ & Hev).
  destruct Hev as [(item' & Hitem' & _ & Hls & _)|([Hnone|(item' & Hitem' & Hfull)] & _)];
    [|congruence|rewrite Hstr in Hitem'; injection Hitem' as <-;
      rewrite Hroom in Hfull; discriminate].
  rewrite Hstr in Hitem'. injection Hitem' as <-.
  split; [|split; [reflexivity|split]].
  - unfold Results_mount, storage_get. cbn [localStorage setLoading log].
    rewrite Hls, lookup_insert_eq.
    destruct (String.eqb_spec item ""); [congruence|]. rewrite Hparse. reflexivity.
  - cbn [events setLoading log]. apply elem_of_app. left.
    apply elem_of_app. right. apply list_elem_of_singleton. reflexivity.
  - cbn [events setLoading log]. apply last_snoc.
Qed.

(** X22.  A search that fails or finds nothing leaves the stored
    results alone: when the request is rejected, the reply is no
    success or has no recommendation, or the brands are [null],
    [handleSubmit] does not write 'recommendation_results' and does not
    navigate; it ends with one error toast and [loading] false, and the
    Results page still mounts with what was stored before. *)
Theorem handleSubmit_failure_keeps_results (reply : Settled ApiResult) (p : Page) :
  (preferred_brands (formData p) = None
   \/ match reply with
      | Resolved _ result => success result = false \/ recommendations result = []
      | Rejected _ _ => True
      end) ->
  let p' := submit reply p in
  localStorage p' !! "recommendation_results"%string
    = localStorage p !! "recommendation_results"%string
  /\ mount (localStorage p') = mount (localStorage p)
  /\ loading p' = false
  /\ exists logged msg,
       events p' = events p ++ logged ++ [ToastError msg]
       /\ Forall (fun e => forall path text,
                    e <> Navigate path /\ e <> ToastSuccess text) logged.
Proof.
  intros Hfail p'. subst p'.
  assert (Hgoal : forall q : Page,
            localStorage q !! "recommendation_results"%string
              = localStorage p !! "recommendation_results"%string ->
            localStorage q !! "recommendation_results"%string
              = localStorage p !! "recommendation_results"%string
            /\ mount (localStorage q) = mount (localStorage p)).
  { intros q Hq. split; [exact Hq|].
    unfold Results_mount, storage_get. rewrite Hq. reflexivity. }
  name_saved p. destruct Hsaved as (Hform & Hkept & logged & Hev & Hlogged).
  change (formData (setLoading true (log PreventDefault p))) with (formData p).
  assert (Hquiet : Forall (fun e => forall path text,
                     e <> Navigate path /\ e <> ToastSuccess text)
                     (PreventDefault :: logged)).
  { destruct Hlogged as [-> | ->]; repeat constructor; discriminate. }
  destruct (Hgoal saved Hkept) as [H1 H2].
  destruct (preferred_brands (formData p)) as [brands|] eqn:Hbrands.
  - destruct Hfail as [Hnone|Hfail]; [discriminate|].
    assert (Hasked : Forall (fun e => forall path text,
                       e <> Navigate path /\ e <> ToastSuccess text)
                       (PreventDefault :: logged
                        ++ [PostRecommendations
                              (with_brands (formData p)
                                 (if (0 <? Z.of_nat (length brands))%Z
                                  then Some brands else None))
                              10 (2 # 10)])).
    { rewrite app_comm_cons. apply Forall_app. split; [exact Hquiet|].
      repeat constructor; discriminate. }
    destruct reply as [result|message].
    + assert (Hcond : success result
                      && (0 <? Z.of_nat (length (recommendations result)))%Z = false).
      { destruct Hfail as [-> | ->]; [reflexivity | apply andb_false_r]. }
      rewrite Hcond. cbn [localStorage events loading setLoading log].
      split; [exact H1|]. split; [exact H2|]. split; [reflexivity|].
      eexists _, _. split; [|exact Hasked].
      rewrite Hev. destruct Hlogged as [-> | ->]; rewrite <- !app_assoc; reflexivity.
    + cbn [localStorage events loading setLoading log].
      split; [exact H1|]. split; [exact H2|]. split; [reflexivity|].
      eexists _, _. split; [|exact Hasked].
      rewrite Hev. destruct Hlogged as [-> | ->]; rewrite <- !app_assoc; reflexivity.
  - cbn [localStorage events loading setLoading log].
    split; [exact H1|]. split; [exact H2|]. split; [reflexivity|].
    eexists _, _. split; [|exact Hquiet].
    rewrite Hev. destruct Hlogged as [-> | ->]; rewrite <- !app_assoc; reflexivity.
Qed.

(** X23.  A result that cannot be stored is lost without notice: when
    the reply is a success with recommendations but has no JSON form or
    the storage has no room for it, [handleSubmit] still navigates to
    /results and shows the success toast; the stored results are not
    changed (only an error is logged on the console), so the Results page
    mounts with what was stored before the search. *)
Theorem handleSubmit_unstored_result_still_navigates (result : ApiResult)
    (p : Page) (brands : list string) :
  preferred_brands (formData p) = Some brands ->
  success result = true ->
  recommendations result <> [] ->
  (stringify_result result = None
   \/ exists item, stringify_result result = Some item
                   /\ forall ls, has_room ls "recommendation_results" item = false) ->
  let p' := submit (Resolved ApiResult result) p in
  mount (localStorage p') = mount (localStorage p)
  /\ localStorage p' !! "recommendation_results"%string
     = localStorage p !! "recommendation_results"%string
  /\ exists before,
       events p' = before ++ [ConsoleError; Navigate "/results";
                              ToastSuccess ("Ditemukan "
                                            +:+ pretty (length (recommendations result))
                                            +:+ " rekomendasi!")].
Proof.
  intros Hbrands Hsucc Hrecs Hfail p'. subst p'.
  name_saved p. destruct Hsaved as (_ & Hkept & _).
  change (formData (setLoading true (log PreventDefault p))) with (formData p).
  rewrite Hbrands, Hsucc.
  replace (0 <? Z.of_nat (length (recommendations result)))%Z with true
    by (symmetry; apply Z.ltb_lt; destruct (recommendations result);
        [congruence | cbn [length]; lia]).
  cbn [andb].
  set (asked := log _ saved).
  pose proof (store_spec stringify_result "recommendation_results" result asked) as Hs.
  cbv zeta in Hs. destruct Hs as (_ & _ & _ & Hev).
  destruct Hev as [(item & Hitem & Hroom & _)|(_ & Hls & Hev)].
  { destruct Hfail as [Hnone|(item' & Hitem' & Hfull)]; [congruence|].
    rewrite Hitem in Hitem'. injection Hitem' as <-.
    rewrite Hfull in Hroom. discriminate. }
  cbn [localStorage events setLoading log]. rewrite Hls.
  assert (Hsame : localStorage asked !! "recommendation_results"%string
                  = localStorage p !! "recommendation_results"%string) by exact Hkept.
  split; [unfold Results_mount, storage_get; rewrite Hsame; reflexivity|].
  split; [exact Hsame|].
  rewrite Hev. exists (events asked). rewrite <- !app_assoc. reflexivity.
Qed.

Lemma requests_of_store {V} (stringify : V -> option string) (key : string)
    (value : V) (q : Page) :
  filter is_request (events (store has_room stringify key value q))
  = filter is_request (events q).
Proof.
  destruct (store_spec stringify key value q) as (_ & _ & _ & Hev).
  destruct Hev as [(item & _ & _ & _ & ->)|(_ & _ & ->)]; [reflexivity|].
  rewrite filter_app. cbn. apply app_nil_r.
Qed.

(** X24.  [handleSubmit] saves the form before it asks: whatever the
    reply, a form that has a JSON form and fits is found under
    'recommendation_prefs' afterwards.  It sends exactly one request,
    for 10 results at a minimum similarity of 0.2, in which an empty
    brand selection is sent as [null]; with [null] brands in the form
    it sends none.  [loading] ends false in every case. *)
Theorem handleSubmit_saves_then_asks (reply : Settled ApiResult) (p : Page) :
  let p' := submit reply p in
  loading p' = false
  /\ formData p' = formData p
  /\ (forall item,
        stringify_form (formData p) = Some item ->
        has_room (localStorage p) "recommendation_prefs" item = true ->
        localStorage p' !! "recommendation_prefs"%string = Some item)
  /\ (forall brands,
        preferred_brands (formData p) = Some brands ->
        filter is_request (events p')
        = filter is_request (events p)
          ++ [PostRecommendations
                (with_brands (formData p)
                   (if bool_decide (brands = []) then None else Some brands))
                10 (2 # 10)])
  /\ (preferred_brands (formData p) = None ->
      filter is_request (events p') = filter is_request (events p)).
Proof.
  intros p'. subst p'.
  name_saved p. destruct Hsaved as (Hform & _ & _).
  change (formData (setLoading true (log PreventDefault p))) with (formData p).
  assert (Hreq : filter is_request (events saved) = filter is_request (events p)).
  { unfold saved. rewrite requests_of_store. cbn [events setLoading log].
    rewrite filter_app. cbn. apply app_nil_r. }
  assert (Hprefs : forall item,
            stringify_form (formData p) = Some item ->
            has_room (localStorage p) "recommendation_prefs" item = true ->
            localStorage saved !! "recommendation_prefs"%string = Some item).
  { intros item Hitem Hroom. unfold saved, store, storage_set.
    change (formData (setLoading true (log PreventDefault p))) with (formData p).
    cbn [localStorage setLoading log]. rewrite Hitem, Hroom. cbn.
    apply lookup_insert_eq. }
  destruct (preferred_brands (formData p)) as [brands|] eqn:Hbrands.
  - set (specs := with_brands (formData p) _).
    assert (Hspecs : specs = with_brands (formData p)
                               (if bool_decide (brands = []) then None else Some brands)).
    { unfold specs. destruct brands; reflexivity. }
    rewrite Hspecs. clear Hspecs specs.
    destruct reply as [result|message];
      [destruct (success result
                 && (0 <? Z.of_nat (length (recommendations result)))%Z)|];
      cbn [loading formData localStorage events setLoading log];
      (split; [reflexivity|]).
    + set (asked := log _ saved).
      pose proof (store_spec stringify_result "recommendation_results" result asked)
        as Hs.
      cbv zeta in Hs. destruct Hs as (Hf & _ & Hother & _).
      split; [rewrite Hf; exact Hform|].
      split; [intros item Hitem Hroom; rewrite Hother by discriminate;
              exact (Hprefs item Hitem Hroom)|].
      split; [|discriminate].
      intros brands' [= <-].
      rewrite !filter_app, requests_of_store. unfold asked.
      cbn [events log]. rewrite filter_app, Hreq. cbn.
      rewrite !app_nil_r. reflexivity.
    + split; [exact Hform|]. split; [exact Hprefs|]. split; [|discriminate].
      intros brands' [= <-]. rewrite !filter_app, Hreq. cbn.
      rewrite app_nil_r. reflexivity.
    + split; [exact Hform|]. split; [exact Hprefs|]. split; [|discriminate].
      intros brands' [= <-]. rewrite !filter_app, Hreq. cbn.
      rewrite app_nil_r. reflexivity.
  - cbn [loading formData localStorage events setLoading log].
    split; [reflexivity|]. split; [exact Hform|]. split; [exact Hprefs|].
    split; [discriminate|]. intros _.
    rewrite filter_app, Hreq. cbn. apply app_nil_r.
Qed.

End SubmitFacts.

Section SubmitWitnesses.
Import Util Recommendation Fixtures.

Lemma handleSubmit_results_reach_page_witness :
  Results_mount _ parse_sample
    (localStorage
       (handleSubmit _ fst snd (fun _ => Some "{}"%string) stringify_sample
          (fun _ _ _ => true) "" (Resolved _ sample_result) initial_page))
  = Some sample_result.
Proof.
  apply (handleSubmit_results_reach_page _ fst snd (fun _ => Some "{}"%string)
           stringify_sample parse_sample (fun _ _ _ => true) ""
           sample_result initial_page [] "{...}");
    try reflexivity; try discriminate.
Defined.

Lemma handleSubmit_failure_keeps_results_witness :
  Results_mount _ parse_sample
    (localStorage
       (handleSubmit _ fst snd (fun _ => Some "{}"%string) stringify_sample
          (fun _ _ _ => true) "" (Rejected _ "Network Error") initial_page))
  = Results_mount _ parse_sample (localStorage initial_page).
Proof.
  apply (handleSubmit_failure_keeps_results _ fst snd (fun _ => Some "{}"%string)
           stringify_sample parse_sample (fun _ _ _ => true) ""
           (Rejected _ "Network Error") initial_page).
  right. exact I.
Defined.

Lemma handleSubmit_unstored_result_still_navigates_witness :
  Results_mount _ parse_sample
    (localStorage
       (handleSubmit _ fst snd (fun _ => Some "{}"%string) stringify_sample
          (fun _ _ _ => false) "" (Resolved _ sample_result) initial_page))
  = Results_mount _ parse_sample (localStorage initial_page).
Proof.
  apply (handleSubmit_unstored_result_still_navigates _ fst snd
           (fun _ => Some "{}"%string) stringify_sample parse_sample
           (fun _ _ _ => false) "" sample_result initial_page []);
    try reflexivity; try discriminate.
  right. exists "{...}"%string. split; reflexivity.
Defined.

End SubmitWitnesses.

(** ** PhoneList: the page number *)

Section PaginationFacts.
Import PhoneList.

Lemma click_in_range (pg : Pagination) (c : Click) :
  in_range pg -> in_range (click pg c)
  /\ totalPages (click pg c) = totalPages pg /\ total (click pg c) = total pg.
Proof.
  unfold in_range, click, enabled. intros H.
  destruct c; cbn;
    repeat match goal with
           | |- context [?a <? ?b] => destruct (Z.ltb_spec a b)
           | |- context [?a =? ?b] => destruct (Z.eqb_spec a b)
           end; cbn; repeat split; lia.
Qed.

(** X25.  The page number stays a real page: starting in range (as
    the initial state is), after any sequence of clicks on the
    pagination buttons, filter changes and replies of the server that
    are themselves in range, the page is at least 1 and never beyond
    the last page.  The clicks alone never touch the totals. *)
Theorem pagination_stays_in_range (steps : list Step) (pg : Pagination) :
  in_range pg ->
  replies_in_range steps ->
  in_range (foldl step pg steps)
  /\ (forall clicks, steps = Clicked <$> clicks ->
        totalPages (foldl step pg steps) = totalPages pg
        /\ total (foldl step pg steps) = total pg).
Proof.
  revert pg. induction steps as [|s steps IH]; intros pg H Hreplies; cbn.
  - split; [exact H|]. intros _ _. split; reflexivity.
  - apply Forall_cons in Hreplies as [Hs Hreplies].
    assert (Hstep : in_range (step pg s)).
    { destruct s as [c|reply]; [apply click_in_range, H | exact Hs]. }
    destruct (IH (step pg s) Hstep Hreplies) as [Hr Htotals].
    split; [exact Hr|].
    intros [|c clicks]; [discriminate|]. cbn. intros [= -> ->].
    destruct (Htotals clicks eq_refl) as [Hp Ht].
    destruct (click_in_range pg c H) as (_ & Hp' & Ht').
    split; [rewrite Hp; exact Hp' | rewrite Ht; exact Ht'].
Qed.

Lemma pagination_stays_in_range_witness :
  in_range
    (foldl step initial
       [Loaded {| page := 1; total := 30; totalPages := 3 |};
        Clicked Next; Clicked Next; Clicked Next; Clicked ChangeFilter;
        Clicked Previous]).
Proof.
  apply (pagination_stays_in_range
           [Loaded {| page := 1; total := 30; totalPages := 3 |};
            Clicked Next; Clicked Next; Clicked Next; Clicked ChangeFilter;
            Clicked Previous] initial).
  - unfold in_range. cbn. lia.
  - repeat constructor; cbn; lia.
Defined.

Example pagination_walk :
  page <$> [ foldl click {| page := 1; total := 30; totalPages := 3 |} [Next; Next; Next];
             foldl click {| page := 1; total := 30; totalPages := 3 |} [Previous];
             foldl click {| page := 3; total := 30; totalPages := 3 |} [ChangeFilter];
             foldl click initial [Next; Previous] ]
  = [3; 1; 1; 1].
Proof. reflexivity. Qed.

End PaginationFacts.

(** ** UI: the progress bar *)

Section ProgressBarFacts.
Import UI Double.
Local Open Scope Q_scope.

(** Both operations round: 7 of 100 is shown as 7.000000000000001. *)
Example percentage_examples :
  percentage 45 None = JS.Fin 45
  /\ percentage 7 None = JS.Fin (literal (7000000000000001 # 1000000000000000))
  /\ percentage 250 None = JS.Fin 100
  /\ percentage 5 (Some 0) = JS.Fin 100
  /\ percentage 0 (Some 0) = JS.NaN
  /\ percentage (-5) (Some 0) = JS.Inf true.
Proof. repeat split; vm_compute; reflexivity. Qed.








End ProgressBarFacts.

(** ** Stock on the card and on the detail page *)

Section StockFacts.
Import Stock.

(** X27.  The card shows "Stok Habis" exactly when the first stock
    flag the phone carries (lower-case spelling first) is false; a phone
    without any flag counts as in stock.  The detail page reads only the
    capitalised flag and counts a missing one as out of stock: for a
    phone without lower-case flag the two agree exactly when the
    capitalised flag is there. *)
Theorem stock_card_vs_detail (phone : Phone) :
  (card_shows_out_of_stock phone = true <->
   stok_tersedia phone = Some false
   \/ (stok_tersedia phone = None /\ Stok_tersedia phone = Some false))
  /\ (stok_tersedia phone = None ->
      (card_shows_out_of_stock phone = detail_shows_out_of_stock phone
       <-> is_Some (Stok_tersedia phone)))
  /\ (stok_tersedia phone = None -> Stok_tersedia phone = None ->
      card_shows_out_of_stock phone = false
      /\ detail_shows_out_of_stock phone = true).
Proof.
  destruct phone as [[[]|] [[]|]];
    unfold card_shows_out_of_stock, detail_shows_out_of_stock, inStock, is_Some;
    cbn;
    repeat match goal with
           | |- _ /\ _ => split
           | |- _ <-> _ => split
           | |- _ -> _ => intro
           | H : _ \/ _ |- _ => destruct H
           | H : _ /\ _ |- _ => destruct H
           | H : ex _ |- _ => destruct H
           end;
    try discriminate; try reflexivity;
    try (left; reflexivity); try (right; split; reflexivity);
    try (eexists; reflexivity).
Qed.

End StockFacts.
